(** * frlbot: feed aggregation, de-duplication and delivery

    A shallow embedding of [frlbot.py] and the properties of its
    ingestion, normalisation, de-duplication and delivery pipeline.

    Conventions of the embedding.
    - A Python [str] is a [string] whose characters are the code points
      U+0000..U+00FF; [len] is [String.length].
    - A naive [datetime] is an integer number of microseconds, a
      [timedelta] likewise.
    - A feed entry is the finite map of the keys its lookups answer to.
    - A Python exception is a value of [exn] carried by [result].
    - Everything outside the program (network, clock, Telegram, the date
      parser, the translator) is a field of [World]. *)

From Stdlib Require Import ZArith NArith Ascii String List Lia Bool DecimalString.
From stdpp Require Import gmap strings list sorting.

Local Open Scope Z_scope.

(** ** Python [str] operations *)

Module Str.

Definition code (c : ascii) : N := N_of_ascii c.

Definition between (lo hi : N) (c : ascii) : bool :=
  ((lo <=? code c) && (code c <=? hi))%N.

(** [str.isspace] on one character. *)
Definition isspace (c : ascii) : bool :=
  between 9 13 c || between 28 32 c || (code c =? 133)%N || (code c =? 160)%N.

(** [str.lower] on one character: A-Z, and the upper-case letters of the
    second half of the range except the multiplication sign. *)
Definition lower_char (c : ascii) : ascii :=
  if between 65 90 c || between 192 214 c || between 216 222 c
  then ascii_of_N (code c + 32) else c.

Fixpoint lower (s : string) : string :=
  match s with
  | EmptyString => EmptyString
  | String c s' => String (lower_char c) (lower s')
  end.

Fixpoint lstrip (s : string) : string :=
  match s with
  | EmptyString => EmptyString
  | String c s' => if isspace c then lstrip s' else s
  end.

Fixpoint rstrip (s : string) : string :=
  match s with
  | EmptyString => EmptyString
  | String c s' =>
      match rstrip s' with
      | EmptyString => if isspace c then EmptyString else String c EmptyString
      | r => String c r
      end
  end.

(** [s.strip()] *)
Definition strip (s : string) : string := rstrip (lstrip s).

(** [s[:n]] *)
Fixpoint take (n : nat) (s : string) : string :=
  match n, s with
  | S k, String c s' => String c (take k s')
  | _, _ => EmptyString
  end.

(** [sub in s] *)
Fixpoint contains (sub s : string) : bool :=
  String.prefix sub s ||
  match s with
  | EmptyString => false
  | String _ s' => contains sub s'
  end.

(** [s.replace(old, new)] for a non-empty [old]: the occurrences are found
    from left to right and do not overlap; [skip] counts the characters of
    the occurrence being replaced that are still to be dropped. *)
Fixpoint replace_from (old new : string) (skip : nat) (s : string) : string :=
  match s with
  | EmptyString => EmptyString
  | String c s' =>
      match skip with
      | S k => replace_from old new k s'
      | O =>
          if String.prefix old s
          then new +:+ replace_from old new (Nat.pred (String.length old)) s'
          else String c (replace_from old new 0 s')
      end
  end.

Definition replace (old new s : string) : string := replace_from old new 0 s.

(** [t] is [s] with some characters left out. *)
Inductive subseq : string -> string -> Prop :=
| subseq_nil : subseq EmptyString EmptyString
| subseq_keep c t s : subseq t s -> subseq (String c t) (String c s)
| subseq_drop c t s : subseq t s -> subseq t (String c s).

(** Some character of [s] satisfies [f]. *)
Fixpoint has (f : ascii -> bool) (s : string) : bool :=
  match s with
  | EmptyString => false
  | String c s' => f c || has f s'
  end.

(** Every character of [s] is white space. *)
Definition all_space (s : string) : Prop :=
  has (fun c => negb (isspace c)) s = false.

(** [p] is at the start of [s], whatever the case of the letters. *)
Fixpoint nocase_prefix (p s : string) : bool :=
  match p, s with
  | EmptyString, _ => true
  | String a p', String c s' =>
      Ascii.eqb (lower_char c) (lower_char a) && nocase_prefix p' s'
  | String _ _, EmptyString => false
  end.

(** The stripping of a literal in the words of the specification, to be
    compared with [re.sub] on the pattern of the program: [s] with the
    occurrences of [p] cut out, whatever their case, taken from left to
    right without overlap; [skip] counts the characters of the occurrence
    being cut that are still to go. *)
Fixpoint cut_nocase (p : string) (skip : nat) (s : string) : string :=
  match s with
  | EmptyString => EmptyString
  | String c s' =>
      match skip with
      | S k => cut_nocase p k s'
      | O =>
          if nocase_prefix p s
          then cut_nocase p (Nat.pred (String.length p)) s'
          else String c (cut_nocase p 0 s')
      end
  end.



End Str.

(** ** Regular expressions

    The fragment of Python's [re] that the program's patterns use, with
    its backtracking order: alternatives are tried from left to right, a
    greedy repetition tries the longest run first and a lazy one the
    shortest.  Every repetition in the program repeats a single character
    class, so [Rep] does just that. *)

Module Re.

Inductive regex : Type :=
| Eps
| Cls (f : ascii -> bool)
| Seq (r1 r2 : regex)
| Alt (r1 r2 : regex)
| Rep (greedy : bool) (f : ascii -> bool) (lo : nat) (hi : option nat)
| WordB.

Definition only (a : ascii) : ascii -> bool := fun c => Ascii.eqb c a.
Definition chr (a : ascii) : regex := Cls (only a).
Definition opt (r : regex) : regex := Alt r Eps.

(** A literal, character by character. *)
Fixpoint lit (s : string) : regex :=
  match s with
  | EmptyString => Eps
  | String a s' => Seq (chr a) (lit s')
  end.

(** A literal under [re.IGNORECASE]. *)
Fixpoint lit_nocase (s : string) : regex :=
  match s with
  | EmptyString => Eps
  | String a s' =>
      Seq (Cls (fun c => Ascii.eqb (Str.lower_char c) (Str.lower_char a)))
          (lit_nocase s')
  end.

Definition digit (c : ascii) : bool := Str.between 48 57 c.
Definition lower_az (c : ascii) : bool := Str.between 97 122 c.
Definition upper_az (c : ascii) : bool := Str.between 65 90 c.
Definition alnum (c : ascii) : bool := lower_az c || upper_az c || digit c.

(** [\w] of a [str] pattern. *)
Definition is_word (c : ascii) : bool :=
  alnum c || only "_"%char c
  || only (ascii_of_N 170) c || Str.between 178 179 c || only (ascii_of_N 181) c
  || Str.between 185 186 c || Str.between 188 190 c
  || Str.between 192 214 c || Str.between 216 246 c || Str.between 248 255 c.

Definition word_at (o : option ascii) : bool :=
  match o with Some c => is_word c | None => false end.

Definition next (s : string) : option ascii :=
  match s with String c _ => Some c | EmptyString => None end.

Definition more (hi : option nat) : bool :=
  match hi with Some O => false | _ => true end.

Definition dec (hi : option nat) : option nat :=
  match hi with Some n => Some (Nat.pred n) | None => None end.

Section Matcher.
Context {A : Type}.

(** The continuation receives the character before the position reached,
    the rest of the input and the number of characters consumed. *)
Definition cont : Type := option ascii -> string -> nat -> option A.

Definition or_else (x y : option A) : option A :=
  match x with Some a => Some a | None => y end.

Fixpoint rep (greedy : bool) (f : ascii -> bool) (lo : nat) (hi : option nat)
    (prev : option ascii) (s : string) (n : nat) (k : cont) : option A :=
  let stop := match lo with O => k prev s n | S _ => None end in
  match s with
  | String c s' =>
      if f c && more hi
      then
        let go := rep greedy f (Nat.pred lo) (dec hi) (Some c) s' (S n) k in
        if greedy then or_else go stop else or_else stop go
      else stop
  | EmptyString => stop
  end.

Fixpoint run (r : regex) (prev : option ascii) (s : string) (n : nat)
    (k : cont) : option A :=
  match r with
  | Eps => k prev s n
  | Cls f =>
      match s with
      | String c s' => if f c then k (Some c) s' (S n) else None
      | EmptyString => None
      end
  | Seq r1 r2 => run r1 prev s n (fun p s' n' => run r2 p s' n' k)
  | Alt r1 r2 => or_else (run r1 prev s n k) (run r2 prev s n k)
  | Rep g f lo hi => rep g f lo hi prev s n k
  | WordB => if xorb (word_at prev) (word_at (next s)) then k prev s n else None
  end.
End Matcher.

(** The length of the match of [r] that starts at this position. *)
Definition match_len (r : regex) (prev : option ascii) (s : string) : option nat :=
  run r prev s O (fun _ _ n => Some n).

(** [re.sub(r, repl, s)]: the matches are found from left to right and do
    not overlap.  None of the program's patterns matches the empty string;
    an empty match is left alone here. *)
Fixpoint sub_from (r : regex) (repl : string) (prev : option ascii)
    (skip : nat) (s : string) : string :=
  match s with
  | EmptyString => EmptyString
  | String c s' =>
      match skip with
      | S k => sub_from r repl (Some c) k s'
      | O =>
          match match_len r prev s with
          | Some (S k) => repl +:+ sub_from r repl (Some c) k s'
          | _ => String c (sub_from r repl (Some c) 0 s')
          end
      end
  end.

Definition sub (r : regex) (repl s : string) : string := sub_from r repl None 0 s.

(** The character before the position reached after [pre], when [prev] was
    the one before [pre]. *)
Fixpoint last_of (prev : option ascii) (pre : string) : option ascii :=
  match pre with
  | EmptyString => prev
  | String c pre' => last_of (Some c) pre'
  end.




End Re.

(** ** MD5 ([hashlib.md5]) over bytes, words as [N] modulo 2^32 *)

Module MD5.
Local Open Scope N_scope.

Definition word (x : N) : N := x mod 0x100000000.

Definition rotl (x : N) (c : N) : N :=
  word (N.lor (N.shiftl x c) (N.shiftr x (32 - c))).

Definition lnot32 (x : N) : N := N.lxor x 0xffffffff.

(** The per-round shift amounts. *)
Definition shifts : list N :=
  [7; 12; 17; 22; 7; 12; 17; 22; 7; 12; 17; 22; 7; 12; 17; 22;
   5; 9; 14; 20; 5; 9; 14; 20; 5; 9; 14; 20; 5; 9; 14; 20;
   4; 11; 16; 23; 4; 11; 16; 23; 4; 11; 16; 23; 4; 11; 16; 23;
   6; 10; 15; 21; 6; 10; 15; 21; 6; 10; 15; 21; 6; 10; 15; 21].

(** [floor (2^32 * |sin (i + 1)|)] for i = 0..63. *)
Definition sines : list N :=
  [
    0xd76aa478; 0xe8c7b756; 0x242070db; 0xc1bdceee;
    0xf57c0faf; 0x4787c62a; 0xa8304613; 0xfd469501;
    0x698098d8; 0x8b44f7af; 0xffff5bb1; 0x895cd7be;
    0x6b901122; 0xfd987193; 0xa679438e; 0x49b40821;
    0xf61e2562; 0xc040b340; 0x265e5a51; 0xe9b6c7aa;
    0xd62f105d; 0x02441453; 0xd8a1e681; 0xe7d3fbc8;
    0x21e1cde6; 0xc33707d6; 0xf4d50d87; 0x455a14ed;
    0xa9e3e905; 0xfcefa3f8; 0x676f02d9; 0x8d2a4c8a;
    0xfffa3942; 0x8771f681; 0x6d9d6122; 0xfde5380c;
    0xa4beea44; 0x4bdecfa9; 0xf6bb4b60; 0xbebfbc70;
    0x289b7ec6; 0xeaa127fa; 0xd4ef3085; 0x04881d05;
    0xd9d4d039; 0xe6db99e5; 0x1fa27cf8; 0xc4ac5665;
    0xf4292244; 0x432aff97; 0xab9423a7; 0xfc93a039;
    0x655b59c3; 0x8f0ccc92; 0xffeff47d; 0x85845dd1;
    0x6fa87e4f; 0xfe2ce6e0; 0xa3014314; 0x4e0811a1;
    0xf7537e82; 0xbd3af235; 0x2ad7d2bb; 0xeb86d391
  ].

(** Padding: one 0x80 byte, zero bytes up to 56 modulo 64, and the bit
    length as eight little-endian bytes. *)
Definition le_bytes (count : nat) (x : N) : list N :=
  map (fun i => (N.shiftr x (8 * N.of_nat i)) mod 256) (seq 0 count).

Definition pad (msg : list N) : list N :=
  let len := N.of_nat (length msg) in
  let zeros := N.to_nat ((119 - len mod 64) mod 64) in
  msg ++ [0x80] ++ repeat 0 zeros ++ le_bytes 8 (8 * len).

Fixpoint le_word (bs : list N) : N :=
  match bs with
  | [] => 0
  | b :: bs' => b + 256 * le_word bs'
  end.

(** The sixteen words of one 64-byte block. *)
Definition block_words (blk : list N) : list N :=
  map (fun i => le_word (firstn 4 (skipn (4 * i) blk))) (seq 0 16).

Record digest_state := { sa : N; sb : N; sc : N; sd : N }.

Definition init_state : digest_state :=
  {| sa := 0x67452301; sb := 0xefcdab89; sc := 0x98badcfe; sd := 0x10325476 |}.

Definition round (m : list N) (st : digest_state) (i : nat) : digest_state :=
  let '(Build_digest_state a b c d) := st in
  let '(f, g) :=
    if (i <? 16)%nat then (N.lor (N.land b c) (N.land (lnot32 b) d), i)
    else if (i <? 32)%nat then (N.lor (N.land d b) (N.land (lnot32 d) c), ((5 * i + 1) mod 16)%nat)
    else if (i <? 48)%nat then (N.lxor (N.lxor b c) d, ((3 * i + 5) mod 16)%nat)
    else (N.lxor c (N.lor b (lnot32 d)), ((7 * i) mod 16)%nat) in
  let f' := word (f + a + nth i sines 0 + nth g m 0) in
  {| sa := d; sd := c; sc := b; sb := word (b + rotl f' (nth i shifts 0)) |}.

Definition process_block (st : digest_state) (blk : list N) : digest_state :=
  let r := fold_left (round (block_words blk)) (seq 0 64) st in
  {| sa := word (sa st + sa r); sb := word (sb st + sb r);
     sc := word (sc st + sc r); sd := word (sd st + sd r) |}.

(** The blocks of a padded message; [fuel] bounds their number. *)
Fixpoint blocks (fuel : nat) (bs : list N) : list (list N) :=
  match fuel, bs with
  | S k, _ :: _ => firstn 64 bs :: blocks k (skipn 64 bs)
  | _, _ => []
  end.

Definition digest (msg : list N) : list N :=
  let p := pad msg in
  let st := fold_left process_block (blocks (length p) p) init_state in
  le_bytes 4 (sa st) ++ le_bytes 4 (sb st) ++ le_bytes 4 (sc st) ++ le_bytes 4 (sd st).

Definition hex_digit (x : N) : ascii :=
  if x <? 10 then ascii_of_N (48 + x) else ascii_of_N (87 + x).

Fixpoint hex (bs : list N) : string :=
  match bs with
  | [] => EmptyString
  | b :: bs' => String (hex_digit (b / 16)) (String (hex_digit (b mod 16)) (hex bs'))
  end.

(** [s.encode('utf-8')] for code points below 256. *)
Fixpoint utf8 (s : string) : list N :=
  match s with
  | EmptyString => []
  | String c s' =>
      let x := Str.code c in
      if x <? 128 then x :: utf8 s'
      else (192 + x / 64) :: (128 + x mod 64) :: utf8 s'
  end.

(** [hashlib.md5(s.encode('utf-8')).hexdigest()] *)
Definition hexdigest (s : string) : string := hex (digest (utf8 s)).

End MD5.

(** ** Exceptions *)

Inductive exn : Type :=
| KeyError (key : string)
| ParserError (input : string)
| Exception (message : string).

Inductive result (A : Type) : Type :=
| Ok (a : A)
| Raise (e : exn).

Arguments Ok {A} a.
Arguments Raise {A} e.

#[global] Instance result_ret : MRet result := fun _ a => Ok a.

#[global] Instance result_bind : MBind result := fun _ _ f x =>
  match x with
  | Ok a => f a
  | Raise e => Raise e
  end.

(** ** Data model *)

(** A naive [datetime] and a [timedelta], both in microseconds. *)
Definition datetime : Type := Z.

Definition timedelta_days (d : Z) : Z := d * 86400000000.

(** A feed entry: [e !! k] is [entry.get(k)]. *)
Abbreviation entry := (gmap string string).

Record NewsFromFeed : Type := {
  title : string;
  date : datetime;
  author : string;
  summary : string;
  link : string;
  checksum : string
}.

(** One row of the [news] table. *)
Definition news_row : Type := (datetime * string)%type.

(** The sqlite store: the tables [feeds(url)] and [news(date, checksum)]. *)
Record Store : Type := {
  feeds : list string;
  news : list news_row
}.

(** What a run does to the outside, in the order it does it. *)
Inductive event : Type :=
| Delivered (n : NewsFromFeed) (payload : string)
| SendFailed (n : NewsFromFeed) (message : string)
| Logged (n : NewsFromFeed) (payload : string)
| Alert (chat : Z) (text : string).

(** Everything the program reads from outside itself.  [datetime_now k] is
    the k-th reading of the clock in a run and [send_message k] the k-th
    call of the bot, which returns ([None]) or raises an exception with the
    given message. *)
Record World : Type := {
  dryRun : bool;
  noAi : bool;
  NEWS_COUNT : Z;
  BOT_TARGET : option Z;
  BOT_ADMIN : Z;
  fetch_feed : string -> option (list entry);
  dateutil_parse : string -> option datetime;
  googletrans : string -> string -> option string;
  emojize : string -> string;
  strftime : datetime -> string;
  datetime_now : nat -> datetime;
  send_message : nat -> Z -> string -> option string
}.

Definition LF : string := String (ascii_of_N 10) EmptyString.


(** ** Cleaning the content *)

Definition dot (c : ascii) : bool := negb (Ascii.eqb c (ascii_of_N 10)).

Definition hex_lower (c : ascii) : bool := Re.digit c || Str.between 97 102 c.

Definition one_of (set : string) (c : ascii) : bool :=
  existsb (Ascii.eqb c) (list_ascii_of_string set).

(** [<.*?>|&([a-z0-9]+|#[0-9]{1,6}|#x[0-9a-f]{1,6});] *)
Definition regex_html : Re.regex :=
  Re.Alt
    (Re.Seq (Re.chr "<") (Re.Seq (Re.Rep false dot 0 None) (Re.chr ">")))
    (Re.Seq (Re.chr "&")
       (Re.Seq
          (Re.Alt (Re.Rep true (fun c => Re.lower_az c || Re.digit c) 1 None)
             (Re.Alt (Re.Seq (Re.chr "#") (Re.Rep true Re.digit 1 (Some 6%nat)))
                (Re.Seq (Re.lit "#x") (Re.Rep true hex_lower 1 (Some 6%nat)))))
          (Re.chr ";"))).

Definition remove_html (inputText : string) : string :=
  Re.sub regex_html EmptyString (Str.strip inputText).

(** The link pattern: an optional [https?://], an optional [www.], 1 to
    256 characters of [-a-zA-Z0-9@:%._+~#=], a dot, 1 to 6 characters of
    [a-zA-Z0-9()], a word boundary, and then as many characters of
    [-a-zA-Z0-9()@:%_+.~#?&/=] as there are. *)
Definition host_char (c : ascii) : bool := Re.alnum c || one_of "-@:%._+~#=" c.
Definition tld_char (c : ascii) : bool := Re.alnum c || one_of "()" c.
Definition url_char (c : ascii) : bool := Re.alnum c || one_of "-()@:%_+.~#?&/=" c.

Definition regex_link : Re.regex :=
  Re.Seq (Re.opt (Re.Seq (Re.lit "http") (Re.Seq (Re.opt (Re.chr "s")) (Re.lit "://"))))
    (Re.Seq (Re.opt (Re.lit "www."))
       (Re.Seq (Re.Rep true host_char 1 (Some 256%nat))
          (Re.Seq (Re.chr ".")
             (Re.Seq (Re.Rep true tld_char 1 (Some 6%nat))
                (Re.Seq Re.WordB (Re.Rep true url_char 0 None)))))).

Definition remove_links (inputText : string) : string :=
  Re.sub regex_link EmptyString (Str.strip inputText).

(** ** Markup and addresses as the patterns expect them *)












(** [re.escape("read more")] under [re.IGNORECASE] *)
Definition regex_read_more : Re.regex := Re.lit_nocase "read more".

(** [https?://(?:www\.)?([^/]+)], anchored at the start by [re.match];
    the result is group 1. *)
Definition extract_domain (url : string) : string :=
  let prefix :=
    Re.Seq (Re.lit "http") (Re.Seq (Re.opt (Re.chr "s"))
      (Re.Seq (Re.lit "://") (Re.opt (Re.lit "www.")))) in
  let not_slash := fun c => negb (Ascii.eqb c "/") in
  match
    Re.run prefix None url 0%nat (fun p s1 n1 =>
      Re.run (Re.Rep true not_slash 1 None) p s1 n1 (fun _ _ n2 =>
        Some (String.substring n1 (n2 - n1) url)))
  with
  | Some domain => domain
  | None => "anonymous"
  end.

(** ** The article *)

(** [while '  ' in cut_text: cut_text = cut_text.replace('  ', ' ')]; every
    round shortens the text, so [String.length] rounds are enough. *)
Fixpoint collapse_spaces (fuel : nat) (cut_text : string) : string :=
  match fuel with
  | O => cut_text
  | S fuel' =>
      if Str.contains "  " cut_text
      then collapse_spaces fuel' (Str.replace "  " " " cut_text)
      else cut_text
  end.

Definition strip_read_more (inputSummary : string) : string :=
  if (10 <? String.length inputSummary)%nat
  then Re.sub regex_read_more EmptyString (Str.strip inputSummary)
  else inputSummary.

Definition clean_spaces (no_read_more : string) : string :=
  let cut_text := Str.replace LF " " (Str.strip no_read_more) in
  collapse_spaces (String.length cut_text) cut_text.

Definition make_summary (inputSummary : string) : string :=
  let no_read_more := strip_read_more inputSummary in
  let cut_text := clean_spaces no_read_more in
  if (300 <? String.length no_read_more)%nat
  then Str.take 300 cut_text +:+ " ..."
  else cut_text.

Definition clean_url (inputLink : string) : string :=
  Str.lower (Str.strip inputLink).

Definition make_checksum (inputLink : string) : string :=
  MD5.hexdigest (clean_url inputLink).

(** [NewsFromFeed.__init__] *)
Definition NewsFromFeed_init (w : World)
    (inputTitle inputDate inputAuthor inputSummary inputLink : string)
    : result NewsFromFeed :=
  let title := Str.strip inputTitle in
  match dateutil_parse w inputDate with
  | None => Raise (ParserError inputDate)
  | Some date =>
      Ok {| title := title;
            date := date;
            author := Str.strip inputAuthor;
            summary := make_summary inputSummary;
            link := "[" +:+ title +:+ "](" +:+ clean_url inputLink +:+ ")";
            checksum := make_checksum inputLink |}
  end.

(** ** Reading an entry *)

(** [entry[key]] *)
Definition getitem (e : entry) (key : string) : result string :=
  match e !! key with
  | Some v => Ok v
  | None => Raise (KeyError key)
  end.

(** Truth value of an optional string: [None] and the empty string are false. *)
Definition truthy (o : option string) : bool :=
  match o with
  | Some (String _ _) => true
  | _ => false
  end.

(** [a or b] *)
Definition por (a b : option string) : option string :=
  if truthy a then a else b.

(** The log messages that quote [entry['link']] look the key up, and raise
    [KeyError] when it is absent. *)
Definition log_link (e : entry) : result unit :=
  _ ← getitem e "link"; Ok tt.

Definition extract_feed_content (e : entry) (content_key : string)
    : result (option string) :=
  let content := e !! content_key in
  match content with
  | Some (String _ _ as content) =>
      let cleaned_content := remove_links (remove_html content) in
      if (10 <? String.length cleaned_content)%nat
      then Ok (Some cleaned_content)
      else (_ ← log_link e; Ok None)
  | _ => _ ← log_link e; Ok None
  end.

(** The body of the [try] of [create_article]. *)
Definition create_article_try (w : World) (e : entry)
    (content_key author_key date_key : string) : result (option NewsFromFeed) :=
  _ ← log_link e;
  feed_content ← extract_feed_content e content_key;
  match feed_content with
  | Some (String _ _ as feed_content) =>
      author ← (if truthy (e !! author_key)
                then Ok (default EmptyString (e !! author_key))
                else (l ← getitem e "link"; Ok (extract_domain l)));
      title ← getitem e "title";
      let title := if (2 <? String.length title)%nat then title else "No title" in
      link ← getitem e "link";
      let date := por (por (e !! date_key) (e !! "published")) (e !! "updated") in
      match date with
      | Some (String _ _ as date) =>
          parsed_feed ← NewsFromFeed_init w title date author feed_content link;
          Ok (Some parsed_feed)
      | _ => Ok None
      end
  | _ => _ ← log_link e; Ok None
  end.

(** Both handlers quote [entry['link']] in their message and fall through
    to [return None]. *)
Definition create_article (w : World) (e : entry)
    (content_key author_key date_key : string) : result (option NewsFromFeed) :=
  match create_article_try w e content_key author_key date_key with
  | Ok r => Ok r
  | Raise _ => _ ← log_link e; Ok None
  end.

Definition candidate_keys : list (string * string * string) :=
  [("description", "dc:creator", "pubDate");
   ("summary", "author", "published");
   ("content", "author", "published")].

(** The inner [for ... break] over the candidate keys. *)
Fixpoint first_article (w : World) (e : entry)
    (keys : list (string * string * string)) : result (option NewsFromFeed) :=
  match keys with
  | [] => Ok None
  | (content_key, author_key, date_key) :: keys' =>
      article ← create_article w e content_key author_key date_key;
      match article with
      | Some a => _ ← log_link e; Ok (Some a)
      | None => _ ← log_link e; first_article w e keys'
      end
  end.

Definition parse_entry (w : World) (e : entry) : result (option NewsFromFeed) :=
  _ ← log_link e;
  first_article w e candidate_keys.

Fixpoint parse_entries (w : World) (es : list entry)
    (news_list : list NewsFromFeed) : result (list NewsFromFeed) :=
  match es with
  | [] => Ok news_list
  | e :: es' =>
      article ← parse_entry w e;
      match article with
      | Some a => parse_entries w es' (news_list ++ [a])
      | None => parse_entries w es' news_list
      end
  end.

(** [[feed for url in urls_list if (feed := fetch_feed(url))]] *)
Fixpoint fetched_feeds (w : World) (urls_list : list string) : list (list entry) :=
  match urls_list with
  | [] => []
  | url :: urls' =>
      match fetch_feed w url with
      | Some ((_ :: _) as feed) => feed :: fetched_feeds w urls'
      | _ => fetched_feeds w urls'
      end
  end.

(** [sorted(news_list, key=lambda news: news.date, reverse=True)]: a stable
    sort, so an article goes in front of the first one that is not newer
    than it. *)
Fixpoint insert_by_date (a : NewsFromFeed) (l : list NewsFromFeed) : list NewsFromFeed :=
  match l with
  | [] => [a]
  | b :: l' => if date a <? date b then b :: insert_by_date a l' else a :: l
  end.

Fixpoint sorted_by_date (l : list NewsFromFeed) : list NewsFromFeed :=
  match l with
  | [] => []
  | a :: l' => insert_by_date a (sorted_by_date l')
  end.

Definition parse_news (w : World) (urls_list : list string) : result (list NewsFromFeed) :=
  news_list ← parse_entries w (concat (fetched_feeds w urls_list)) [];
  Ok (sorted_by_date news_list).

(** The first of three optional articles, in order. *)
Definition first_some (r1 r2 r3 : option NewsFromFeed) : option NewsFromFeed :=
  match r1, r2 with
  | Some a, _ => Some a
  | None, Some a => Some a
  | None, None => r3
  end.

(** The lookup gave the non-empty string [s]. *)
Definition is_text (o : option string) (s : string) : Prop :=
  o = Some s /\ s <> EmptyString.

(** The order [sorted] leaves the articles in. *)
Definition newer_or_equal (a b : NewsFromFeed) : Prop := (date a >= date b)%Z.

(** ** The delivery run *)

(** [translate_text] *)
Definition translate_text (w : World) (input_text dest_lang : string) : string :=
  if noAi w then input_text
  else match googletrans w input_text dest_lang with
       | None => input_text
       | Some text => if (String.length text <? 10)%nat then input_text else text
       end.

(** The message handed to the bot. *)
Definition telegram_payload (w : World) (n : NewsFromFeed) : string :=
  let emoji_flag_it := emojize w ":Italy:" in
  let emoji_flag_en := emojize w ":United_States:" in
  let emoji_pencil := emojize w ":pencil2:" in
  let emoji_calendar := emojize w ":spiral_calendar:" in
  let emoji_link := emojize w ":link:" in
  emoji_flag_it +:+ " " +:+ translate_text w (title n) "it" +:+ LF +:+
  emoji_flag_en +:+ " " +:+ translate_text w (title n) "en" +:+ LF +:+
  LF +:+ emoji_pencil +:+ " " +:+ author n +:+ LF +:+
  emoji_calendar +:+ " " +:+ strftime w (date n) +:+ LF +:+
  LF +:+ emoji_flag_it +:+ " " +:+ translate_text w (summary n) "it" +:+ LF +:+
  LF +:+ emoji_flag_en +:+ " " +:+ translate_text w (summary n) "en" +:+ LF +:+
  LF +:+ emoji_link +:+ " " +:+ link n.

(** [SELECT * FROM news WHERE checksum='...'] finds a row. *)
Definition news_exists (db : Store) (c : string) : bool :=
  existsb (fun row => String.eqb (snd row) c) (news db).

(** [INSERT INTO news(date, checksum) VALUES(?, ?)] *)
Definition insert_news (db : Store) (d : datetime) (c : string) : Store :=
  {| feeds := feeds db; news := news db ++ [(d, c)] |}.

(** The variables of [main], the store, the number of readings of the clock
    and of calls of the bot so far, the events so far, and the message of
    the exception that has left the loop, when one has: the loop catches
    every exception of a delivery, and none of the call that sends the
    alert. *)
Record RunState : Type := {
  db : Store;
  news_cnt : Z;
  exception_cnt : Z;
  exception_message : string;
  clock_reads : nat;
  bot_calls : nat;
  trace : list event;
  uncaught : option string
}.

Definition start (store : Store) : RunState :=
  {| db := store; news_cnt := 0; exception_cnt := 0;
     exception_message := EmptyString;
     clock_reads := 0; bot_calls := 0; trace := []; uncaught := None |}.

Definition tick (st : RunState) : RunState :=
  {| db := db st; news_cnt := news_cnt st; exception_cnt := exception_cnt st;
     exception_message := exception_message st;
     clock_reads := S (clock_reads st); bot_calls := bot_calls st;
     trace := trace st; uncaught := uncaught st |}.

Definition now (w : World) (st : RunState) : datetime :=
  datetime_now w (clock_reads st).

Definition is_format_error (message : string) : bool :=
  Str.contains "can't parse entities:" message.

(** The [except] branch of the delivery. *)
Definition on_exception (n : NewsFromFeed) (message : string) (called : bool)
    (st : RunState) : RunState :=
  let format := is_format_error message in
  {| db := if format then insert_news (db st) (date n) (checksum n) else db st;
     news_cnt := news_cnt st;
     exception_cnt := if format then exception_cnt st else exception_cnt st + 1;
     exception_message := message;
     clock_reads := clock_reads st;
     bot_calls := if called then S (bot_calls st) else bot_calls st;
     trace := trace st ++ [SendFailed n message];
     uncaught := uncaught st |}.

(** The end of the [try] branch: record unless this is a dry run, count. *)
Definition on_success (w : World) (n : NewsFromFeed) (payload : string)
    (st : RunState) : RunState :=
  {| db := if dryRun w then db st else insert_news (db st) (date n) (checksum n);
     news_cnt := news_cnt st + 1;
     exception_cnt := exception_cnt st;
     exception_message := exception_message st;
     clock_reads := clock_reads st;
     bot_calls := if dryRun w then bot_calls st else S (bot_calls st);
     trace := trace st ++
       [if dryRun w then Logged n payload else Delivered n payload];
     uncaught := uncaught st |}.

(** The [try] statement: format, send or log, then either branch. *)
Definition deliver (w : World) (n : NewsFromFeed) (st : RunState) : RunState :=
  let payload := telegram_payload w n in
  if dryRun w then on_success w n payload st
  else
    match BOT_TARGET w with
    | None => on_exception n "Invalid BOT_TARGET" false st
    | Some chat =>
        match send_message w (bot_calls st) chat payload with
        | Some message => on_exception n message true st
        | None => on_success w n payload st
        end
    end.

(** The body of the loop of [main] up to the two checks that end it. *)
Definition process_news (w : World) (single_news : NewsFromFeed) (st : RunState)
    : RunState :=
  if negb (news_exists (db st) (checksum single_news)) then
    if now w st - date single_news >? timedelta_days 30 then tick st
    else
      let st := tick st in
      if date single_news >? now w st then tick st
      else deliver w single_news (tick st)
  else st.

Definition alert_text (message : string) : string :=
  "Too many errors, skipping this execution. Last error: `" +:+ message +:+ "`".

(** The alert, after the check of the counter.  Outside a dry run the bot
    is called once more, and this call stands in no [try]: when it returns,
    the alert has been sent; when it raises, no alert has been sent and the
    exception leaves the loop and [main]. *)
Definition send_alert (w : World) (st : RunState) : RunState :=
  if dryRun w then st
  else
    let text := alert_text (exception_message st) in
    match send_message w (bot_calls st) (BOT_ADMIN w) text with
    | None =>
        {| db := db st; news_cnt := news_cnt st; exception_cnt := exception_cnt st;
           exception_message := exception_message st;
           clock_reads := clock_reads st; bot_calls := S (bot_calls st);
           trace := trace st ++ [Alert (BOT_ADMIN w) text];
           uncaught := uncaught st |}
    | Some message =>
        {| db := db st; news_cnt := news_cnt st; exception_cnt := exception_cnt st;
           exception_message := exception_message st;
           clock_reads := clock_reads st; bot_calls := S (bot_calls st);
           trace := trace st;
           uncaught := Some message |}
    end.

(** The loop of [main] over the articles: the state in which the loop is
    left, at the end of the list, by one of its two [break]s, or by the
    exception of the alert, which [uncaught] then holds. *)
Fixpoint main_loop (w : World) (articles : list NewsFromFeed) (st : RunState)
    : RunState :=
  match articles with
  | [] => st
  | single_news :: rest =>
      let st := process_news w single_news st in
      if exception_cnt st >? 3 then send_alert w st
      else if news_cnt st >=? NEWS_COUNT w then st
      else main_loop w rest st
  end.

(** How a call of [main] ends: it returns, or an exception leaves it; [st]
    is the state the call had reached, whose store holds every row written
    so far, each insertion being committed at once. *)
Inductive ended : Type :=
| Returned (st : RunState)
| Raised (e : exn) (st : RunState).

(** [main]: the sources are read from the store, the run is over the
    articles [parse_news] returns.  An exception of [parse_news] ends [main]
    before the loop, and an exception of the call that sends the alert ends
    it in the loop. *)
Definition main (w : World) (store : Store) : ended :=
  match parse_news w (feeds store) with
  | Raise e => Raised e (start store)
  | Ok articles =>
      let st := main_loop w articles (start store) in
      match uncaught st with
      | Some message => Raised (Exception message) st
      | None => Returned st
      end
  end.

(** The events of a call of [main], and the store it leaves behind when it
    was called on [store]. *)
Definition events (r : ended) : list event :=
  match r with
  | Returned st | Raised _ st => trace st
  end.

Definition store_after (store : Store) (r : ended) : Store :=
  match r with
  | Returned st | Raised _ st => db st
  end.

(** The outcomes of [process_news]: what happened to the article and the
    state it leaves. *)
Inductive outcome (w : World) (n : NewsFromFeed) (st : RunState)
    : RunState -> Prop :=
| out_seen :
    news_exists (db st) (checksum n) = true ->
    outcome w n st st
| out_stale :
    news_exists (db st) (checksum n) = false ->
    datetime_now w (clock_reads st) - date n > timedelta_days 30 ->
    outcome w n st (tick st)
| out_future :
    news_exists (db st) (checksum n) = false ->
    datetime_now w (clock_reads st) - date n <= timedelta_days 30 ->
    date n > datetime_now w (S (clock_reads st)) ->
    outcome w n st (tick (tick st))
| out_success :
    news_exists (db st) (checksum n) = false ->
    datetime_now w (clock_reads st) - date n <= timedelta_days 30 ->
    date n <= datetime_now w (S (clock_reads st)) ->
    (dryRun w = true \/
     exists chat, BOT_TARGET w = Some chat /\
       send_message w (bot_calls st) chat (telegram_payload w n) = None) ->
    outcome w n st (on_success w n (telegram_payload w n) (tick (tick st)))
| out_failure (message : string) (called : bool) :
    news_exists (db st) (checksum n) = false ->
    datetime_now w (clock_reads st) - date n <= timedelta_days 30 ->
    date n <= datetime_now w (S (clock_reads st)) ->
    dryRun w = false ->
    (BOT_TARGET w = None /\ message = "Invalid BOT_TARGET" /\ called = false \/
     exists chat, BOT_TARGET w = Some chat /\ called = true /\
       send_message w (bot_calls st) chat (telegram_payload w n) = Some message) ->
    outcome w n st (on_exception n message called (tick (tick st))).

(** ** Measures of a trace *)

(** Successful deliveries of articles with checksum [c]. *)
Fixpoint delivered (c : string) (tr : list event) : nat :=
  match tr with
  | [] => 0
  | Delivered n _ :: tr' =>
      if String.eqb (checksum n) c then S (delivered c tr') else delivered c tr'
  | _ :: tr' => delivered c tr'
  end.

(** Calls of the bot for articles with checksum [c], successful or not. *)
Fixpoint attempts (c : string) (tr : list event) : nat :=
  match tr with
  | [] => 0
  | Delivered n _ :: tr' | SendFailed n _ :: tr' =>
      if String.eqb (checksum n) c then S (attempts c tr') else attempts c tr'
  | _ :: tr' => attempts c tr'
  end.

(** Successful deliveries. *)
Fixpoint deliveries (tr : list event) : Z :=
  match tr with
  | [] => 0
  | Delivered _ _ :: tr' => 1 + deliveries tr'
  | _ :: tr' => deliveries tr'
  end.

(** Failures that are not of the format class. *)
Fixpoint failures (tr : list event) : Z :=
  match tr with
  | [] => 0
  | SendFailed _ message :: tr' =>
      if is_format_error message then failures tr' else 1 + failures tr'
  | _ :: tr' => failures tr'
  end.

Fixpoint alerts (tr : list event) : Z :=
  match tr with
  | [] => 0
  | Alert _ _ :: tr' => 1 + alerts tr'
  | _ :: tr' => alerts tr'
  end.

(** One when [c] is not in the store yet, else zero: the deliveries of [c]
    the store still allows. *)
Definition fresh (store : Store) (c : string) : nat :=
  if news_exists store c then 0%nat else 1%nat.

(** The state of a run that has not been aborted. *)
Definition running (st : RunState) : Prop :=
  exception_cnt st = failures (trace st) /\ alerts (trace st) = 0 /\
  exception_cnt st <= 3.

(** The state of a run that has been aborted and has sent the alert: the
    call of the alert, the last call of the bot, returned. *)
Definition aborted (w : World) (st : RunState) : Prop :=
  exists tr n message,
    trace st = tr ++ [SendFailed n message; Alert (BOT_ADMIN w) (alert_text message)] /\
    failures tr = 3 /\ alerts tr = 0 /\ is_format_error message = false /\
    exception_cnt st = 4 /\ uncaught st = None /\
    send_message w (Nat.pred (bot_calls st)) (BOT_ADMIN w) (alert_text message) = None.

(** The state of a run that has been aborted and has sent no alert: the
    call of the alert raised [reason]. *)
Definition alert_failed (w : World) (reason : string) (st : RunState) : Prop :=
  exists tr n message,
    trace st = tr ++ [SendFailed n message] /\
    failures tr = 3 /\ alerts tr = 0 /\ is_format_error message = false /\
    exception_cnt st = 4 /\ uncaught st = Some reason /\
    send_message w (Nat.pred (bot_calls st)) (BOT_ADMIN w) (alert_text message)
    = Some reason.

(** ** A concrete world, for evaluating the program *)

Module Demo.

(** Days are counted from 1 January 2021; [today] is 28 September 2023. *)
Definition day (d : Z) : datetime := timedelta_days d.

Definition sep13 : string := "Wed, 13 Sep 2023 00:00:00 +0000".
Definition sep18 : string := "Mon, 18 Sep 2023 00:00:00 +0000".
Definition sep23 : string := "Sat, 23 Sep 2023 00:00:00 +0000".

(** The date parser on the dates of the entries below; it raises on
    anything else. *)
Definition parse (s : string) : option datetime :=
  if String.eqb s sep13 then Some (day 985)
  else if String.eqb s sep18 then Some (day 990)
  else if String.eqb s sep23 then Some (day 995)
  else None.

(** [strftime('%Y/%m/%d, %H:%M')] on the same dates. *)
Definition format (d : datetime) : string :=
  if d =? day 985 then "2023/09/13, 00:00"
  else if d =? day 990 then "2023/09/18, 00:00"
  else if d =? day 995 then "2023/09/23, 00:00"
  else "2023/09/28, 00:00".

Definition today : datetime := day 1000.

Definition world (count : Z) (clock : nat -> datetime)
    (feed : string -> option (list entry)) (bot : nat -> option string) : World :=
  {| dryRun := false; noAi := true; NEWS_COUNT := count;
     BOT_TARGET := Some 1000; BOT_ADMIN := 2000;
     fetch_feed := feed;
     dateutil_parse := parse;
     googletrans := fun _ _ => None;
     emojize := fun alias => alias;
     strftime := format;
     datetime_now := clock;
     send_message := fun k _ _ => bot k |}.

Definition accepts : nat -> option string := fun _ => None.
Definition refuses : nat -> option string := fun _ => Some "Bad Gateway".

(** The first four calls fail and the later ones are accepted. *)
Definition recovers : nat -> option string :=
  fun k => if (k <? 4)%nat then Some "Bad Gateway" else None.

(** Every other call fails, starting with the first. *)
Definition falters : nat -> option string :=
  fun k => if Nat.even k then Some "Bad Gateway" else None.

Definition parse_error : string :=
  "Bad Request: can't parse entities: Can't find end of the entity starting at byte offset 21".

Definition rejects_format : nat -> option string := fun _ => Some parse_error.

Definition no_feed : string -> option (list entry) := fun _ => None.

Definition article (l : string) (d : datetime) : NewsFromFeed :=
  {| title := "Field day"; date := d; author := "example.org";
     summary := "Results of the field day are out";
     link := "[Field day](" +:+ clean_url l +:+ ")";
     checksum := make_checksum l |}.

Definition empty_store : Store := {| feeds := []; news := [] |}.

Definition a1 : NewsFromFeed := article "https://example.org/1" (day 999).
Definition a2 : NewsFromFeed := article "https://example.org/2" (day 998).
Definition a3 : NewsFromFeed := article "https://example.org/3" (day 997).
Definition a4 : NewsFromFeed := article "https://example.org/4" (day 996).
Definition a5 : NewsFromFeed := article "https://example.org/5" (day 995).
Definition a6 : NewsFromFeed := article "https://example.org/6" (day 994).
Definition a7 : NewsFromFeed := article "https://example.org/7" (day 993).
Definition a8 : NewsFromFeed := article "https://example.org/8" (day 992).

Definition steady : nat -> datetime := fun _ => today.

Definition body : string := "<p>Results of the field day are out</p>".

(** An entry in the shape of the second candidate. *)
Definition entry_summary : entry :=
  list_to_map [("link", "https://example.org/a"); ("title", "Field day");
               ("summary", body); ("author", "Ann"); ("published", sep18)].

(** The same without a title. *)
Definition entry_untitled : entry :=
  list_to_map [("link", "https://example.org/a");
               ("description", body); ("pubDate", sep18)].

(** The same without a link. *)
Definition entry_unlinked : entry :=
  list_to_map [("title", "Field day");
               ("summary", body); ("author", "Ann"); ("published", sep18)].






(** An entry with a title too short to be one. *)
Definition entry_short_title : entry :=
  list_to_map [("link", "https://example.org/c"); ("title", "Hi");
               ("summary", body); ("author", "Ann"); ("published", sep18)].

Definition entry_dated (l d : string) : entry :=
  list_to_map [("link", l); ("title", "Field day");
               ("summary", body); ("author", "Ann"); ("published", d)].

(** Three sources with one entry each; the middle one is the newest. *)
Definition three_feeds : string -> option (list entry) :=
  fun url =>
    if String.eqb url "https://one.example/feed"
    then Some [entry_dated "https://one.example/a" sep18]
    else if String.eqb url "https://two.example/feed"
    then Some [entry_dated "https://two.example/a" sep23]
    else if String.eqb url "https://three.example/feed"
    then Some [entry_dated "https://three.example/a" sep13]
    else None.

Definition three_urls : list string :=
  ["https://one.example/feed"; "https://two.example/feed";
   "https://three.example/feed"].

(** Four entries of one source. *)
Definition four_entries : list entry :=
  [entry_dated "https://example.org/1" sep23; entry_dated "https://example.org/2" sep18;
   entry_dated "https://example.org/3" sep18; entry_dated "https://example.org/4" sep13].

Definition feed_of (es : list entry) : string -> option (list entry) :=
  fun url => if String.eqb url "https://example.org/feed" then Some es else None.

Definition store_of_feed : Store :=
  {| feeds := ["https://example.org/feed"]; news := [] |}.

End Demo.

(** ** The sources and the upkeep of the store *)

(** The sources a new store starts with. *)
Definition default_urls : list string :=
  ["https://www.amsat.org/feed/";
   "https://qrper.com/feed/";
   "https://swling.com/blog/feed/";
   "https://www.ari.it/?format=feed&type=rss";
   "https://www.cisar.it/index.php?format=feed&type=rss";
   "https://www.blogger.com/feeds/3151423644013078076/posts/default";
   "https://www.pa9x.com/feed/";
   "https://www.ham-yota.com/feed/";
   "https://www.iu2frl.it/feed/";
   "https://www.yota-italia.it/feed/";
   "https://feeds.feedburner.com/OnAllBands";
   "https://www.hamradio.me/feed"].

(** The database file as [prepare_db] finds it: a table is there with its
    rows, or it is not there. *)
Record Database : Type := {
  news_table : option (list news_row);
  feeds_table : option (list string)
}.

(** The file of a store whose tables exist. *)
Definition database_of (store : Store) : Database :=
  {| news_table := Some (news store); feeds_table := Some (feeds store) |}.

(** [CREATE TABLE] inside a [try]: an existing table stays as it is. *)
Definition create_table {A : Type} (table : option (list A)) : list A :=
  match table with
  | Some rows => rows
  | None => []
  end.

(** [INSERT INTO feeds(url) VALUES(?)] *)
Definition insert_feed (store : Store) (url : string) : Store :=
  {| feeds := feeds store ++ [url]; news := news store |}.

(** [prepare_db]: both tables are created when missing, and an empty table
    of sources receives the default ones, one insertion after the other. *)
Definition prepare_db (file : Database) : Store :=
  let store := {| feeds := create_table (feeds_table file);
                  news := create_table (news_table file) |} in
  if (length (feeds store) <? 1)%nat
  then fold_left insert_feed default_urls store
  else store.

(** [get_max_news_days_from_env]; [MAX_NEWS_AGE] is the number the variable
    of the environment holds when it is set. *)
Definition get_max_news_days_from_env (w : World) (MAX_NEWS_AGE : option Z) : Z :=
  if dryRun w then 30 else default 30 MAX_NEWS_AGE.

(** The day of a [datetime]: the days from day zero to its midnight. *)
Definition day_of (d : datetime) : Z := d / timedelta_days 1.

(** [date('now', '-N day')] when the clock of sqlite shows the day [today]:
    the day [N] days before, and NULL for a negative [N], whose text
    ['--N day'] is no modifier. *)
Definition sqlite_date (today : Z) (max_days : Z) : option Z :=
  if max_days <? 0 then None else Some (today - max_days).

(** The condition [date <= date('now', '-N day')] on a row of date [d].
    The column holds the text the driver wrote for the [datetime] of the
    article, [YYYY-MM-DD HH:MM:SS] with the fraction of the second when
    there is one, and sqlite compares it as a text with the text
    [YYYY-MM-DD] of a day.  A text that continues another is the greater of
    the two, so a row of that very day is greater, at midnight too: the
    condition holds when the day of the row is before that day, and for no
    row when the day is NULL. *)
Definition old_news (today : Z) (max_days : Z) (d : datetime) : bool :=
  match sqlite_date today max_days with
  | Some day => day_of d <? day
  | None => false
  end.

(** [remove_old_news].  The condition [date <= date('now', '-N day')] is
    evaluated by sqlite, once by the [SELECT] that counts and once by the
    [DELETE]: [old_at_select N d] and [old_at_delete N d] are its values on
    a row of date [d], which are [old_news today N d] for the day [today]
    of the clock of sqlite at either statement.  Both statements are taken
    to run: the answer -1 is that of a call in which sqlite raises. *)
Definition remove_old_news (w : World) (MAX_NEWS_AGE : option Z)
    (old_at_select old_at_delete : Z -> datetime -> bool)
    (max_days : Z) (store : Store) : Store * Z :=
  let max_days :=
    if max_days =? -1 then get_max_news_days_from_env w MAX_NEWS_AGE else max_days in
  let oldNews :=
    filter (fun row : news_row => old_at_select max_days (fst row) = true)
      (news store) in
  ({| feeds := feeds store;
      news := filter (fun row : news_row => old_at_delete max_days (fst row) = false)
                (news store) |},
   Z.of_nat (length oldNews)).

(** [SELECT * FROM feeds WHERE url=?] finds a row. *)
Definition feed_exists (store : Store) (feed_url : string) : bool :=
  existsb (String.eqb feed_url) (feeds store).

(** [add_feed_if_not_duplicate]; [valid_xml] downloads the address and
    parses what it gets, and answers whether both went well. *)
Definition add_feed_if_not_duplicate (valid_xml : string -> bool)
    (feed_url : string) (store : Store) : Store * bool :=
  if feed_exists store feed_url then (store, false)
  else if valid_xml feed_url then (insert_feed store feed_url, true)
  else (store, false).

(** The loop of [opml_import_xmlfeeds] over the [outline] elements of the
    document, each given by its [xmlUrl] attribute when it has one. *)
Fixpoint opml_import_loop (valid_xml : string -> bool)
    (outlines : list (option string)) (store : Store) (imported_feeds : Z)
    : Store * Z :=
  match outlines with
  | [] => (store, imported_feeds)
  | xmlFeed :: outlines' =>
      match xmlFeed with
      | Some (String _ _ as xmlFeed) =>
          let '(store, added) := add_feed_if_not_duplicate valid_xml xmlFeed store in
          opml_import_loop valid_xml outlines' store
            (if added then imported_feeds + 1 else imported_feeds)
      | _ => opml_import_loop valid_xml outlines' store imported_feeds
      end
  end.

Definition opml_import_xmlfeeds (valid_xml : string -> bool)
    (outlines : list (option string)) (store : Store) : Store * Z :=
  opml_import_loop valid_xml outlines store 0.

(** ** The list of the sources, as [HandleUrlListMessage] sends it *)

(** [str] of an [int] *)
Definition str_of_int (n : Z) : string := NilZero.string_of_int (Z.to_int n).

(** One line of the list. *)
Definition url_line (singleElement : Z * string) : string :=
  str_of_int (fst singleElement) +:+ ": " +:+ snd singleElement +:+ LF.

(** The loop over the rows and the final [send_message]: the messages
    sent, in order; [textMessage] is the message being filled. *)
Fixpoint url_list_loop (feedsFromDb : list (Z * string)) (textMessage : string)
    : list string :=
  match feedsFromDb with
  | [] => [textMessage]
  | singleElement :: rest =>
      if (4096 <=? String.length textMessage + String.length (snd singleElement) + 10)%nat
      then textMessage :: url_list_loop rest (url_line singleElement)
      else url_list_loop rest (textMessage +:+ url_line singleElement)
  end.

(** What a handler does to the chat. *)
Inductive answer : Type :=
| ReplyTo (text : string)
| SendTo (chat : Z) (text : string).

(** [HandleUrlListMessage] for the sender [from_user] on the rows
    [(rowid, url)] of the table of sources. *)
Definition HandleUrlListMessage (w : World) (from_user : Z)
    (feedsFromDb : list (Z * string)) : list answer :=
  if from_user =? BOT_ADMIN w then
    if (length feedsFromDb <? 1)%nat then [ReplyTo "No URLs in the url table"]
    else map (SendTo from_user) (url_list_loop feedsFromDb EmptyString)
  else [].

(** The text of all messages, one after the other. *)
Fixpoint joined (messages : list string) : string :=
  match messages with
  | [] => EmptyString
  | m :: messages' => m +:+ joined messages'
  end.

(** ** Further measures of a run *)

(** The articles of the events that record a delivery or its attempt. *)
Fixpoint sent_articles (tr : list event) : list NewsFromFeed :=
  match tr with
  | [] => []
  | Delivered n _ :: tr' => n :: sent_articles tr'
  | _ :: tr' => sent_articles tr'
  end.

(** The articles a run went through with, whatever came of it. *)
Fixpoint handled_articles (tr : list event) : list NewsFromFeed :=
  match tr with
  | [] => []
  | Delivered n _ :: tr' | SendFailed n _ :: tr' | Logged n _ :: tr' =>
      n :: handled_articles tr'
  | Alert _ _ :: tr' => handled_articles tr'
  end.

(** The failures of the format class. *)
Fixpoint format_failures (tr : list event) : Z :=
  match tr with
  | [] => 0
  | SendFailed _ message :: tr' =>
      if is_format_error message then 1 + format_failures tr' else format_failures tr'
  | _ :: tr' => format_failures tr'
  end.

(** One for a run that an exception has left, else zero: the call of the
    bot that raised it has no event. *)
Definition pending (st : RunState) : nat :=
  match uncaught st with
  | Some _ => 1
  | None => 0
  end.

(** The lower-case hexadecimal digits. *)
Definition is_hex_digit (c : ascii) : bool := Re.digit c || Str.between 97 102 c.

(** [t] is what is left of [s] after some of its first characters. *)
Definition rest_of (t s : string) : Prop := exists pre, s = pre +:+ t.

(** The article of an entry, when [parse_entry] returns one. *)
Definition entry_article (w : World) (e : entry) : option NewsFromFeed :=
  match parse_entry w e with
  | Ok r => r
  | Raise _ => None
  end.

(** The rows a run writes: one for each delivery and one for each failure
    of the format class, in the order of the events. *)
Fixpoint recorded (tr : list event) : list news_row :=
  match tr with
  | [] => []
  | Delivered n _ :: tr' => (date n, checksum n) :: recorded tr'
  | SendFailed n message :: tr' =>
      if is_format_error message then (date n, checksum n) :: recorded tr'
      else recorded tr'
  | _ :: tr' => recorded tr'
  end.

(** The store of a run that started with the sources [urls] and the rows
    [rows]: it holds these rows followed by the rows of the events. *)
Definition grown (urls : list string) (rows : list news_row) (st : RunState) : Prop :=
  db st = {| feeds := urls; news := rows ++ recorded (trace st) |}.

(** The state of a dry run: nothing written, nothing sent, every event a
    log of the message of an article, and one count for each. *)
Definition dry (w : World) (store : Store) (st : RunState) : Prop :=
  db st = store /\ bot_calls st = 0%nat /\ exception_cnt st = 0 /\
  Forall (fun ev => exists n, ev = Logged n (telegram_payload w n)) (trace st) /\
  news_cnt st = Z.of_nat (length (trace st)).

(** ** The commands of the administrator *)

(** [s.split(sep)] for a non-empty [sep]: the separators are found from
    left to right and do not overlap; [skip] counts the characters of the
    separator being passed and [piece] is the piece being read. *)
Fixpoint split_from (sep : string) (skip : nat) (piece : string) (s : string)
    : list string :=
  match s with
  | EmptyString => [piece]
  | String c s' =>
      match skip with
      | S k => split_from sep k piece s'
      | O =>
          if String.prefix sep s
          then piece :: split_from sep (Nat.pred (String.length sep)) EmptyString s'
          else split_from sep 0 (piece +:+ String c EmptyString) s'
      end
  end.

Definition str_split (sep s : string) : list string := split_from sep 0 EmptyString s.

(** [str.isdigit]: the ten digits and the superscripts one, two and three,
    one character at least. *)
Definition isdigit_char (c : ascii) : bool :=
  Re.digit c || Str.between 178 179 c || (Str.code c =? 185)%N.

Definition isdigit (s : string) : bool :=
  match s with
  | EmptyString => false
  | _ => negb (Str.has (fun c => negb (isdigit_char c)) s)
  end.

(** [int] of a string that passed [isdigit]: the number its decimal digits
    write, and [ValueError] on a superscript; [acc] is the number read so
    far.  The text of a message has at most 4096 characters, fewer than the
    4300 digits beyond which the interpreter refuses to convert. *)
Fixpoint int_from (acc : Z) (s : string) : option Z :=
  match s with
  | EmptyString => Some acc
  | String c s' =>
      if Re.digit c
      then int_from (10 * acc + Z.of_N (Str.code c) - 48) s'
      else None
  end.

Definition int_of (s : string) : option Z := int_from 0 s.

(** What ends a handler early. *)
Inductive failure : Type :=
| UnboundLocalError (name : string)
| ValueError (literal : string)
| Uncaught (e : exn).

(** What a handler leaves: the store, the answers it sent, the events of
    the run it started, and the exception it ended with, if any. *)
Record Handled : Type := {
  left_store : Store;
  answers : list answer;
  run_events : list event;
  raised : option failure
}.

Definition returns (store : Store) (sent : list answer) : Handled :=
  {| left_store := store; answers := sent; run_events := []; raised := None |}.

(** [HandleAddMessage]: the connection [sqlCon] is opened in the branch of
    the administrator only, and closed after both branches. *)
Definition HandleAddMessage (w : World) (valid_xml : string -> bool)
    (from_user : Z) (text : string) (store : Store) : Handled :=
  if from_user =? BOT_ADMIN w then
    let splitText := str_split " " text in
    if (length splitText =? 2)%nat then
      let url := nth 1 splitText EmptyString in
      if negb (Str.contains "http" url)
      then returns store [ReplyTo "Invalid URL format"]
      else
        let '(store, added) := add_feed_if_not_duplicate valid_xml url store in
        if added
        then returns store [ReplyTo "Added successfully!"]
        else returns store
               [ReplyTo "RSS feed cannot be validated (invalid syntax, unreachable or duplicated)"]
    else returns store [ReplyTo "Expecting only one argument"]
  else
    {| left_store := store; answers := []; run_events := [];
       raised := Some (UnboundLocalError "sqlCon") |}.

(** [HandleForceMessage] *)
Definition HandleForceMessage (w : World) (from_user : Z) (store : Store) : Handled :=
  if from_user =? BOT_ADMIN w then
    match main w store with
    | Returned st =>
        {| left_store := db st; answers := [ReplyTo "Forcing bot execution"];
           run_events := trace st; raised := None |}
    | Raised e st =>
        {| left_store := db st; answers := [ReplyTo "Forcing bot execution"];
           run_events := trace st; raised := Some (Uncaught e) |}
    end
  else returns store [].

(** [HandleOldNewsDelete] *)
Definition HandleOldNewsDelete (w : World) (MAX_NEWS_AGE : option Z)
    (old_at_select old_at_delete : Z -> datetime -> bool)
    (from_user : Z) (text : string) (store : Store) : Handled :=
  if from_user =? BOT_ADMIN w then
    let splitMessage := str_split " " text in
    if negb (length splitMessage =? 2)%nat
    then returns store [ReplyTo "Expecting only one argument"]
    else
      let days := nth 1 splitMessage EmptyString in
      if isdigit days then
        match int_of days with
        | None =>
            {| left_store := store; answers := []; run_events := [];
               raised := Some (ValueError days) |}
        | Some max_days =>
            let '(store, deletedNews) :=
              remove_old_news w MAX_NEWS_AGE old_at_select old_at_delete max_days store in
            if deletedNews >=? 0
            then returns store
                   [ReplyTo ("Deleting [" +:+ str_of_int deletedNews +:+
                             "] news older than [" +:+ days +:+ "] days")]
            else returns store
                   [ReplyTo "Cannot delete older news, check log for error details"]
        end
      else returns store [ReplyTo "Invalid number of days to delete"]
  else returns store [].

(** The loop of [HandleAddCsvList] over the pieces of the list. *)
Fixpoint add_csv_loop (valid_xml : string -> bool) (splitCsv : list string)
    (store : Store) (newFeedsCnt : Z) : Store * Z :=
  match splitCsv with
  | [] => (store, newFeedsCnt)
  | singleUrl :: rest =>
      let singleUrl := Str.strip singleUrl in
      let '(store, added) := add_feed_if_not_duplicate valid_xml singleUrl store in
      add_csv_loop valid_xml rest store (if added then newFeedsCnt + 1 else newFeedsCnt)
  end.

(** [HandleAddCsvList] *)
Definition HandleAddCsvList (w : World) (valid_xml : string -> bool)
    (from_user : Z) (text : string) (store : Store) : Handled :=
  if from_user =? BOT_ADMIN w then
    let splitMessage := str_split "/addcsv" text in
    if (length splitMessage <=? 1)%nat
    then returns store [ReplyTo "Missing CSV list"]
    else
      let splitCsv := str_split "," (nth 1 splitMessage EmptyString) in
      if (length splitCsv <=? 1)%nat
      then returns store [ReplyTo "Expecting more than 1 value in CSV format"]
      else
        let '(store, newFeedsCnt) := add_csv_loop valid_xml splitCsv store 0 in
        returns store
          [ReplyTo "Processing, please be patient...";
           ReplyTo ("[" +:+ str_of_int newFeedsCnt +:+ "] out of [" +:+
                    str_of_int (Z.of_nat (length splitCsv)) +:+
                    "] feeds were added to DB")]
  else returns store [].

(** [HandleImportOPML]; [download] is [file_download] followed by the
    parser of the document: the [outline] elements, or the message of the
    exception either of them raised. *)
Definition HandleImportOPML (w : World) (valid_xml : string -> bool)
    (download : string -> string + list (option string))
    (from_user : Z) (text : string) (store : Store) : Handled :=
  if from_user =? BOT_ADMIN w then
    let splitText := str_split " " text in
    if negb (length splitText =? 2)%nat
    then returns store
           [ReplyTo ("Command length is invalid, found " +:+
                     str_of_int (Z.of_nat (length splitText)) +:+ " arguments")]
    else
      match download (nth 1 splitText EmptyString) with
      | inr outlines =>
          let '(store, imported_feeds) := opml_import_xmlfeeds valid_xml outlines store in
          returns store
            [ReplyTo "Starting OPML file import, please wait";
             ReplyTo ("Imported " +:+ str_of_int imported_feeds +:+ " feeds")]
      | inl retExc =>
          returns store
            [ReplyTo "Starting OPML file import, please wait";
             ReplyTo ("Error: " +:+ retExc)]
      end
  else returns store [].

(** ** The arguments of the command line *)

(** [getopt.getopt] for options that take no argument.  A long option may
    be shortened to a prefix that only one name starts with, and must not
    come with [=]. *)
Definition long_has_args (opt : string) (longopts : list string) : option string :=
  let possibilities := List.filter (String.prefix opt) longopts in
  match possibilities with
  | [] => None
  | _ =>
      if existsb (String.eqb opt) possibilities then Some opt
      else match possibilities with
           | [unique_match] => Some unique_match
           | _ => None
           end
  end.

Definition do_longs (opt : string) (longopts : list string) : option string :=
  if Str.has (Re.only "=") opt
  then None
  else
    match long_has_args opt longopts with
    | Some name => Some ("--" +:+ name)
    | None => None
    end.

Fixpoint do_shorts (optstring shortopts : string) : option (list string) :=
  match optstring with
  | EmptyString => Some []
  | String opt optstring' =>
      if Str.has (Re.only opt) shortopts && negb (Ascii.eqb opt ":")
      then match do_shorts optstring' shortopts with
           | Some opts => Some (("-" +:+ String opt EmptyString) :: opts)
           | None => None
           end
      else None
  end.

(** The options in front of the arguments; [None] stands for
    [GetoptError]. *)
Fixpoint getopt (args : list string) (shortopts : string) (longopts : list string)
    : option (list string) :=
  match args with
  | [] => Some []
  | arg :: args' =>
      if String.prefix "-" arg && negb (String.eqb arg "-") then
        if String.eqb arg "--" then Some []
        else if String.prefix "--" arg then
          match do_longs (String.substring 2 (String.length arg - 2) arg) longopts with
          | Some opt =>
              match getopt args' shortopts longopts with
              | Some opts => Some (opt :: opts)
              | None => None
              end
          | None => None
          end
        else
          match do_shorts (String.substring 1 (String.length arg - 1) arg) shortopts with
          | Some opts1 =>
              match getopt args' shortopts longopts with
              | Some opts => Some (opts1 ++ opts)
              | None => None
              end
          | None => None
          end
      else Some []
  end.

Definition opt_in (opts : list string) (a b : string) : bool :=
  existsb (fun opt => String.eqb opt a || String.eqb opt b) opts.

(** [check_arguments]: the flags [(dry_run, force_run, no_translate)], or
    [None]. *)
Definition check_arguments (argv : list string) : option (bool * bool * bool) :=
  match getopt argv "fdn" ["force"; "dry"; "notr"] with
  | Some opts =>
      Some (opt_in opts "-d" "--dry", opt_in opts "-f" "--force",
            opt_in opts "-n" "--notr")
  | None => None
  end.

(** The six spellings of the three flags. *)
Definition is_flag (arg : string) : Prop :=
  arg = "-d" \/ arg = "--dry" \/ arg = "-f" \/ arg = "--force" \/
  arg = "-n" \/ arg = "--notr".

(** ** A concrete store and its upkeep, for evaluating the commands *)

Module DemoStore.

(** Addresses under https are the valid ones. *)
Definition valid_xml (url : string) : bool := String.prefix "https://" url.

(** The condition of [remove_old_news] when the clock of sqlite shows the
    day of [Demo.today]. *)
Definition older (max_days : Z) (d : datetime) : bool := old_news 1000 max_days d.

(** One source, one row of forty days ago and one of yesterday. *)
Definition store : Store :=
  {| feeds := ["https://www.amsat.org/feed/"];
     news := [(Demo.day 960, make_checksum "https://example.org/0");
              (Demo.day 999, make_checksum "https://example.org/1")] |}.

(** The same with two rows more: one of the midnight thirty days ago, and
    one of the second before it. *)
Definition store_at_midnight : Store :=
  {| feeds := feeds store;
     news := news store ++
             [(Demo.day 970, make_checksum "https://example.org/2");
              (Demo.day 970 - 1000000, make_checksum "https://example.org/3")] |}.

(** A document with a new source, a folder, a source of the store, a
    source that is not valid and an empty address. *)
Definition outlines : list (option string) :=
  [Some "https://qrper.com/feed/"; None; Some "https://www.amsat.org/feed/";
   Some "ftp://example.org/feed"; Some EmptyString].

Definition rows : list (Z * string) :=
  [(1, "https://www.amsat.org/feed/"); (2, "https://qrper.com/feed/")].

(** The world of [Demo] in a dry run. *)
Definition dry_world (feed : string -> option (list entry)) : World :=
  {| dryRun := true; noAi := true; NEWS_COUNT := 10;
     BOT_TARGET := None; BOT_ADMIN := -1;
     fetch_feed := feed;
     dateutil_parse := Demo.parse;
     googletrans := fun _ _ => None;
     emojize := fun alias => alias;
     strftime := Demo.format;
     datetime_now := Demo.steady;
     send_message := fun _ _ _ => None |}.

(** The download of the document above. *)
Definition download (url : string) : string + list (option string) :=
  if String.eqb url "https://example.org/feeds.opml" then inr outlines
  else inl "404 Client Error".

End DemoStore.

(** * Properties *)

(** ** The embedding on known values *)

Example md5_of_nothing :
  MD5.hexdigest EmptyString = "d41d8cd98f00b204e9800998ecf8427e".
Proof. vm_compute. reflexivity. Qed.

Example md5_of_abc : MD5.hexdigest "abc" = "900150983cd24fb0d6963f7d28e17f72".
Proof. vm_compute. reflexivity. Qed.

Example remove_html_tags_and_entities :
  remove_html "<p>Results &amp; <b>photos</b> of the day</p>"
  = "Results  photos of the day".
Proof. vm_compute. reflexivity. Qed.

Example remove_links_two :
  remove_links "The story is at https://www.example.org/news/field-day?id=3 and on example.net today"
  = "The story is at  and on  today".
Proof. vm_compute. reflexivity. Qed.

Example make_summary_read_more :
  make_summary ("Results of the field day are out. READ MORE" +:+ LF +:+ "and more")
  = "Results of the field day are out. and more".
Proof. vm_compute. reflexivity. Qed.

Example cut_overlapping :
  Str.cut_nocase "read more" 0 "read moread more of the same" = "ad more of the same".
Proof. vm_compute. reflexivity. Qed.

Example extract_domain_www : extract_domain "https://www.example.org/feed/" = "example.org".
Proof. vm_compute. reflexivity. Qed.

Example extract_domain_other : extract_domain "ftp://example.org" = "anonymous".
Proof. vm_compute. reflexivity. Qed.

(** Case and surrounding white space are folded over the whole link, the
    path included. *)
Example checksum_folds_path_case :
  make_checksum (" HTTP://Example.com/A/" +:+ LF) = make_checksum "http://example.com/a/".
Proof. vm_compute. reflexivity. Qed.

(** ** Strings *)

Local Close Scope Z_scope.

Lemma isspace_lower_char c : Str.isspace (Str.lower_char c) = Str.isspace c.
Proof. destruct c as [[] [] [] [] [] [] [] []]; reflexivity. Qed.

Lemma length_lower s : String.length (Str.lower s) = String.length s.
Proof. induction s; simpl; congruence. Qed.

Lemma str_app_nil t : EmptyString +:+ t = t.
Proof. reflexivity. Qed.

Lemma str_app_cons c s t : String c s +:+ t = String c (s +:+ t).
Proof. reflexivity. Qed.

Ltac str_simpl := repeat (progress (simpl; rewrite ?str_app_nil, ?str_app_cons)).

Lemma lower_app s t : Str.lower (s +:+ t) = Str.lower s +:+ Str.lower t.
Proof. induction s; str_simpl; congruence. Qed.

Lemma lower_lstrip s : Str.lower (Str.lstrip s) = Str.lstrip (Str.lower s).
Proof.
  induction s as [|c s IH]; simpl; [reflexivity|].
  rewrite isspace_lower_char. destruct (Str.isspace c); [exact IH | reflexivity].
Qed.

Lemma lower_rstrip s : Str.lower (Str.rstrip s) = Str.rstrip (Str.lower s).
Proof.
  induction s as [|c s IH]; simpl; [reflexivity|].
  rewrite <- IH, isspace_lower_char.
  destruct (Str.rstrip s); simpl; [destruct (Str.isspace c)|]; reflexivity.
Qed.

Lemma lower_strip s : Str.lower (Str.strip s) = Str.strip (Str.lower s).
Proof. unfold Str.strip. now rewrite lower_rstrip, lower_lstrip. Qed.

Lemma lstrip_app_space pre s : Str.all_space pre -> Str.lstrip (pre +:+ s) = Str.lstrip s.
Proof.
  unfold Str.all_space. induction pre as [|c pre IH]; str_simpl; [reflexivity|].
  destruct (Str.isspace c); [exact IH | discriminate].
Qed.

Lemma lstrip_space post : Str.all_space post -> Str.lstrip post = EmptyString.
Proof.
  unfold Str.all_space. induction post as [|c post IH]; simpl; [reflexivity|].
  destruct (Str.isspace c); [exact IH | discriminate].
Qed.

Lemma rstrip_space post : Str.all_space post -> Str.rstrip post = EmptyString.
Proof.
  unfold Str.all_space. induction post as [|c post IH]; simpl; [reflexivity|].
  destruct (Str.isspace c) eqn:E; [|discriminate].
  intros H. rewrite (IH H). reflexivity.
Qed.

Lemma rstrip_app_space s post : Str.all_space post -> Str.rstrip (s +:+ post) = Str.rstrip s.
Proof.
  intros H. induction s as [|c s IH]; str_simpl.
  - now apply rstrip_space.
  - now rewrite IH.
Qed.

Lemma strip_app_space pre s post :
  Str.all_space pre -> Str.all_space post -> Str.strip (pre +:+ s +:+ post) = Str.strip s.
Proof.
  intros Hpre Hpost. unfold Str.strip. rewrite (lstrip_app_space _ _ Hpre).
  induction s as [|c s IH]; str_simpl.
  - rewrite (lstrip_space _ Hpost). reflexivity.
  - destruct (Str.isspace c); [exact IH|].
    simpl. now rewrite (rstrip_app_space _ _ Hpost).
Qed.

Lemma str_length_app s t : String.length (s +:+ t) = (String.length s + String.length t)%nat.
Proof. induction s; str_simpl; congruence. Qed.

Lemma length_lstrip s : (String.length (Str.lstrip s) <= String.length s)%nat.
Proof. induction s as [|c s IH]; simpl; [lia|]. destruct (Str.isspace c); simpl; lia. Qed.

Lemma length_rstrip s : (String.length (Str.rstrip s) <= String.length s)%nat.
Proof.
  induction s as [|c s IH]; simpl; [lia|].
  destruct (Str.rstrip s); [destruct (Str.isspace c)|]; simpl in *; lia.
Qed.

Lemma length_strip s : (String.length (Str.strip s) <= String.length s)%nat.
Proof. unfold Str.strip. pose proof (length_rstrip (Str.lstrip s)). pose proof (length_lstrip s). lia. Qed.

Lemma lstrip_app_slash s : Str.lstrip (s +:+ "/") = Str.lstrip s +:+ "/".
Proof.
  induction s as [|c s IH]; str_simpl; [reflexivity|].
  destruct (Str.isspace c); [exact IH | reflexivity].
Qed.

Lemma rstrip_app_slash s : Str.rstrip (s +:+ "/") = s +:+ "/".
Proof.
  induction s as [|c s IH]; str_simpl; [reflexivity|].
  rewrite IH. destruct s; reflexivity.
Qed.

Lemma clean_url_slash L : clean_url (L +:+ "/") <> clean_url L.
Proof.
  unfold clean_url, Str.strip. rewrite lstrip_app_slash, rstrip_app_slash.
  intros H. apply (f_equal String.length) in H.
  rewrite !length_lower, str_length_app in H. simpl in H.
  pose proof (length_rstrip (Str.lstrip L)). lia.
Qed.

(** ** Leaving characters out *)

Lemma subseq_refl s : Str.subseq s s.
Proof. induction s; constructor; assumption. Qed.

Lemma subseq_trans t s u : Str.subseq t s -> Str.subseq s u -> Str.subseq t u.
Proof.
  intros H1 H2. revert t H1.
  induction H2 as [|c s u H2 IH|c s u H2 IH]; intros t H1.
  - exact H1.
  - inversion H1; subst; [apply Str.subseq_keep | apply Str.subseq_drop]; auto.
  - apply Str.subseq_drop. auto.
Qed.

Lemma subseq_length t s : Str.subseq t s -> String.length t <= String.length s.
Proof. induction 1; simpl; lia. Qed.

Lemma subseq_has f t s : Str.subseq t s -> Str.has f s = false -> Str.has f t = false.
Proof.
  induction 1 as [|c t s H IH|c t s H IH]; simpl; intros Hs; [reflexivity| |];
    apply orb_false_iff in Hs as [H1 H2]; rewrite ?H1; auto.
Qed.




Lemma subseq_lstrip s : Str.subseq (Str.lstrip s) s.
Proof.
  induction s as [|c s IH]; simpl; [constructor|].
  destruct (Str.isspace c); [now apply Str.subseq_drop | apply subseq_refl].
Qed.

Lemma subseq_rstrip s : Str.subseq (Str.rstrip s) s.
Proof.
  induction s as [|c s IH]; simpl; [constructor|].
  destruct (Str.rstrip s).
  - destruct (Str.isspace c); [now apply Str.subseq_drop | now apply Str.subseq_keep].
  - now apply Str.subseq_keep.
Qed.

Lemma subseq_strip s : Str.subseq (Str.strip s) s.
Proof. eapply subseq_trans; [apply subseq_rstrip | apply subseq_lstrip]. Qed.


Lemma subseq_sub r s : forall prev skip,
  Str.subseq (Re.sub_from r EmptyString prev skip s) s.
Proof.
  induction s as [|c s IH]; intros prev skip; simpl; [constructor|].
  destruct skip as [|k]; [|apply Str.subseq_drop, IH].
  destruct (Re.match_len r prev (String c s)) as [[|k]|];
    [apply Str.subseq_keep, IH | apply Str.subseq_drop, IH | apply Str.subseq_keep, IH].
Qed.

(** ** Line feeds and runs of spaces *)

Lemma prefix_nil s : String.prefix EmptyString s = true.
Proof. destruct s; reflexivity. Qed.

Lemma prefix_cons a t b s :
  String.prefix (String a t) (String b s) = Ascii.eqb b a && String.prefix t s.
Proof.
  cbn [String.prefix]. destruct (ascii_dec a b) as [->|Hne].
  - now rewrite Ascii.eqb_refl.
  - symmetry. apply andb_false_iff. left. apply Ascii.eqb_neq. congruence.
Qed.
















(** ** Tags on one line *)


Lemma run_chr {A} a prev c s n (k : @Re.cont A) :
  Re.run (Re.chr a) prev (String c s) n k
  = if Re.only a c then k (Some c) s (S n) else None.
Proof. reflexivity. Qed.





(** ** The summary of a constructed article *)


(** ** The pattern of "read more" *)




(** ** What the matcher finds *)

Lemma str_app_assoc s t u : (s +:+ t) +:+ u = s +:+ (t +:+ u).
Proof. induction s as [|c s IH]; str_simpl; [reflexivity | now rewrite IH]. Qed.

Lemma str_app_nil_r s : s +:+ EmptyString = s.
Proof. induction s as [|c s IH]; str_simpl; [reflexivity | now rewrite IH]. Qed.


Lemma has_weaken (f g : ascii -> bool) s :
  (forall c, f c = true -> g c = true) -> Str.has g s = false -> Str.has f s = false.
Proof.
  intros Hfg. induction s as [|c s IH]; simpl; [reflexivity|].
  intros H. apply orb_false_iff in H as [Hc Hs]. rewrite (IH Hs), orb_false_r.
  destruct (f c) eqn:E; [|reflexivity]. apply Hfg in E. congruence.
Qed.

Lemma run_seq {A} r1 r2 prev s n (k : @Re.cont A) :
  Re.run (Re.Seq r1 r2) prev s n k = Re.run r1 prev s n (fun p s' n' => Re.run r2 p s' n' k).
Proof. reflexivity. Qed.

Lemma last_of_app prev a b : Re.last_of prev (a +:+ b) = Re.last_of (Re.last_of prev a) b.
Proof. revert prev. induction a as [|c a IH]; intros prev; str_simpl; [reflexivity | apply IH]. Qed.



(** ** What a match is made of *)



(** ** A greedy run at the end of a pattern *)





(** ** Matches stay on their side of a character the pattern cannot
    consume *)







(** ** Skipping a match *)



(** ** The link pattern on an address *)






(** ** An address has a match *)









(** ** The tag pattern on closed tags and entity references *)






(** ** Entity references *)





(** ** One pass of the tag pattern *)




(** ** From the cleaned content to the summary *)







Local Open Scope Z_scope.

(** ** The sort *)

Lemma insert_by_date_perm a l : insert_by_date a l ≡ₚ a :: l.
Proof.
  induction l as [|b l IH]; simpl; [reflexivity|].
  destruct (date a <? date b); [|reflexivity].
  rewrite IH. apply Permutation_swap.
Qed.

Lemma sorted_by_date_perm l : sorted_by_date l ≡ₚ l.
Proof.
  induction l as [|a l IH]; simpl; [reflexivity|].
  rewrite insert_by_date_perm. now rewrite IH.
Qed.

Lemma insert_by_date_sorted a l :
  StronglySorted newer_or_equal l -> StronglySorted newer_or_equal (insert_by_date a l).
Proof.
  induction 1 as [|b l Hl IH Hb]; simpl.
  - repeat constructor.
  - destruct (date a <? date b) eqn:E.
    + apply Z.ltb_lt in E. constructor; [exact IH|].
      rewrite insert_by_date_perm. constructor; [unfold newer_or_equal; lia | exact Hb].
    + apply Z.ltb_ge in E. constructor; [now constructor|].
      constructor; [unfold newer_or_equal; lia|].
      eapply Forall_impl; [exact Hb|]. unfold newer_or_equal. intros; simpl in *; lia.
Qed.

Lemma sorted_by_date_sorted l : StronglySorted newer_or_equal (sorted_by_date l).
Proof.
  induction l as [|a l IH]; simpl; [constructor|]. now apply insert_by_date_sorted.
Qed.

Lemma insert_by_date_filter d a l :
  filter (fun x => date x = d) (insert_by_date a l) = filter (fun x => date x = d) (a :: l).
Proof.
  induction l as [|b l IH]; simpl; [reflexivity|].
  destruct (date a <? date b) eqn:E; [|reflexivity].
  apply Z.ltb_lt in E.
  rewrite !filter_cons in *. rewrite IH.
  repeat case_decide; try reflexivity; lia.
Qed.

Lemma sorted_by_date_stable d l :
  filter (fun x => date x = d) (sorted_by_date l) = filter (fun x => date x = d) l.
Proof.
  induction l as [|a l IH]; simpl; [reflexivity|].
  rewrite insert_by_date_filter, !filter_cons, IH. reflexivity.
Qed.

Lemma sorted_lookup (R : NewsFromFeed -> NewsFromFeed -> Prop) (l : list NewsFromFeed) :
  StronglySorted R l ->
  forall (i j : nat) a b, (i < j)%nat -> l !! i = Some a -> l !! j = Some b -> R a b.
Proof.
  induction 1 as [|x l Hl IH Hx]; intros i j a b Hij Hi Hj.
  - rewrite lookup_nil in Hi. discriminate.
  - destruct j as [|j]; [lia|]. simpl in Hj.
    destruct i as [|i]; simpl in Hi.
    + injection Hi as <-. rewrite Forall_forall in Hx. apply Hx.
      eapply list_elem_of_lookup_2; eauto.
    + apply (IH i j a b); [lia | exact Hi | exact Hj].
Qed.

Lemma sorted_three (l : list NewsFromFeed) a1 a2 a3 :
  StronglySorted newer_or_equal l -> l ≡ₚ [a1; a2; a3] ->
  date a1 > date a2 -> date a2 > date a3 -> l = [a1; a2; a3].
Proof.
  intros Hs Hp H12 H23.
  apply (StronglySorted_unique_strong newer_or_equal); [|exact Hs| |exact Hp].
  - intros x1 x2 Hx1 Hx2 R1 R2. rewrite Hp in Hx1.
    unfold newer_or_equal in *.
    rewrite !elem_of_cons in Hx1, Hx2. rewrite elem_of_nil in Hx1, Hx2.
    destruct Hx1 as [->|[->|[->|[]]]]; destruct Hx2 as [->|[->|[->|[]]]]; try reflexivity; lia.
  - repeat constructor; unfold newer_or_equal; lia.
Qed.

(** ** Traces *)

Lemma delivered_app c tr1 tr2 :
  delivered c (tr1 ++ tr2) = (delivered c tr1 + delivered c tr2)%nat.
Proof.
  induction tr1 as [|[n p|n m|n p|ch t] tr1 IH]; simpl; try exact IH; [reflexivity|].
  destruct (String.eqb (checksum n) c); simpl; congruence.
Qed.

Lemma attempts_app c tr1 tr2 :
  attempts c (tr1 ++ tr2) = (attempts c tr1 + attempts c tr2)%nat.
Proof.
  induction tr1 as [|[n p|n m|n p|ch t] tr1 IH]; simpl; try exact IH; try reflexivity;
    destruct (String.eqb (checksum n) c); simpl; congruence.
Qed.

Lemma deliveries_app tr1 tr2 : deliveries (tr1 ++ tr2) = deliveries tr1 + deliveries tr2.
Proof. induction tr1 as [|[] tr1 IH]; simpl; lia. Qed.

Lemma failures_app tr1 tr2 : failures (tr1 ++ tr2) = failures tr1 + failures tr2.
Proof.
  induction tr1 as [|[n p|n m|n p|ch t] tr1 IH]; simpl; try lia.
  destruct (is_format_error m); lia.
Qed.

Lemma alerts_app tr1 tr2 : alerts (tr1 ++ tr2) = alerts tr1 + alerts tr2.
Proof. induction tr1 as [|[] tr1 IH]; simpl; lia. Qed.

Lemma news_exists_insert store d c c' :
  news_exists (insert_news store d c) c' = news_exists store c' || String.eqb c c'.
Proof.
  unfold news_exists, insert_news. simpl. rewrite existsb_app. simpl.
  now rewrite orb_false_r.
Qed.

(** Turns the boolean comparisons of the hypotheses into propositions. *)
Ltac zbool :=
  repeat match goal with
    | H : (_ >? _) = true |- _ => rewrite Z.gtb_ltb, Z.ltb_lt in H
    | H : (_ >? _) = false |- _ => rewrite Z.gtb_ltb, Z.ltb_ge in H
    | H : (_ >=? _) = true |- _ => rewrite Z.geb_leb, Z.leb_le in H
    | H : (_ >=? _) = false |- _ => rewrite Z.geb_leb, Z.leb_gt in H
    | H : (_ <? _) = true |- _ => rewrite Z.ltb_lt in H
    | H : (_ <? _) = false |- _ => rewrite Z.ltb_ge in H
    end.

(** ** One article *)

Section Run.
Variable w : World.

Lemma process_news_seen n st :
  news_exists (db st) (checksum n) = true -> process_news w n st = st.
Proof. intros H. unfold process_news. now rewrite H. Qed.

(** [process_news] has one of the five outcomes. *)
Lemma process_news_outcome n st : outcome w n st (process_news w n st).
Proof.
  unfold process_news, deliver, now.
  destruct (news_exists (db st) (checksum n)) eqn:Hseen; simpl;
    [now apply out_seen|].
  destruct (_ >? _) eqn:Hstale.
  { zbool. apply out_stale; [assumption | lia]. }
  cbn [clock_reads tick].
  destruct (date n >? _) eqn:Hfuture; zbool.
  { apply out_future; [assumption | lia | lia]. }
  destruct (dryRun w) eqn:Hdry.
  { apply out_success; [assumption | lia | lia | now left]. }
  destruct (BOT_TARGET w) as [chat|] eqn:Htarget.
  - destruct (send_message w _ chat _) as [message|] eqn:Hsend.
    + apply out_failure; [assumption | lia | lia | assumption |].
      right. exists chat. auto.
    + apply out_success; [assumption | lia | lia |].
      right. exists chat. auto.
  - apply out_failure; [assumption | lia | lia | assumption |]. now left.
Qed.

(** ** The store only grows, the trace only grows *)

Lemma news_exists_step n st c :
  news_exists (db st) c = true -> news_exists (db (process_news w n st)) c = true.
Proof.
  intros H. destruct (process_news_outcome n st); simpl; try assumption.
  - destruct (dryRun w); [assumption|]. rewrite news_exists_insert, H. reflexivity.
  - destruct (is_format_error message); [|assumption].
    rewrite news_exists_insert, H. reflexivity.
Qed.

Lemma send_alert_db st : db (send_alert w st) = db st.
Proof. unfold send_alert. destruct (dryRun w); [reflexivity|]. now destruct (send_message _ _ _ _). Qed.

(** The alert adds at most its own event to the trace. *)
Lemma send_alert_trace st :
  trace (send_alert w st) = trace st \/
  trace (send_alert w st)
  = trace st ++ [Alert (BOT_ADMIN w) (alert_text (exception_message st))].
Proof.
  unfold send_alert. destruct (dryRun w); [now left|].
  destruct (send_message _ _ _ _); [now left | now right].
Qed.

Lemma news_exists_loop l : forall st c,
  news_exists (db st) c = true -> news_exists (db (main_loop w l st)) c = true.
Proof.
  induction l as [|n l IH]; intros st c H; simpl; [assumption|].
  pose proof (news_exists_step n st c H) as H1.
  destruct (_ >? 3); [now rewrite send_alert_db|].
  destruct (_ >=? _); [assumption|]. now apply IH.
Qed.

(** ** At most one delivery per checksum *)

(** A step delivers checksum [c] at most once, only if [c] is not in the
    store, and then leaves it in the store. *)
Lemma delivered_step n st c :
  (delivered c (trace (process_news w n st)) + fresh (db (process_news w n st)) c
   <= delivered c (trace st) + fresh (db st) c)%nat.
Proof.
  unfold fresh.
  destruct (process_news_outcome n st) as [Hs|Hs Ht|Hs Ht Hf|Hs Ht Hf Hok|m called Hs Ht Hf Hdry Hbad];
    simpl; try lia.
  - rewrite delivered_app. destruct (dryRun w); simpl; [lia|].
    rewrite news_exists_insert.
    destruct (String.eqb (checksum n) c) eqn:E.
    + apply String.eqb_eq in E. subst c. rewrite Hs. simpl. lia.
    + rewrite orb_false_r. lia.
  - rewrite delivered_app. simpl.
    destruct (is_format_error m); [|lia].
    rewrite news_exists_insert. destruct (news_exists (db st) c); simpl; [lia|].
    destruct (String.eqb (checksum n) c); lia.
Qed.

Lemma send_alert_delivered st c :
  delivered c (trace (send_alert w st)) = delivered c (trace st).
Proof.
  destruct (send_alert_trace st) as [-> | ->]; [reflexivity|].
  rewrite delivered_app. simpl. lia.
Qed.

Lemma delivered_loop l : forall st c,
  (delivered c (trace (main_loop w l st)) + fresh (db (main_loop w l st)) c
   <= delivered c (trace st) + fresh (db st) c)%nat.
Proof.
  induction l as [|n l IH]; intros st c; simpl; [lia|].
  pose proof (delivered_step n st c) as H1.
  destruct (_ >? 3).
  { rewrite send_alert_delivered, send_alert_db. exact H1. }
  destruct (_ >=? _); [exact H1|].
  specialize (IH (process_news w n st) c). lia.
Qed.

(** ** The error counter *)

(** The counter moves with the genuine failures of the trace, and only a
    genuine failure adds to it. *)
Lemma exception_cnt_step n st :
  exception_cnt (process_news w n st) - exception_cnt st
  = failures (trace (process_news w n st)) - failures (trace st).
Proof.
  destruct (process_news_outcome n st); simpl; try lia.
  - rewrite failures_app. destruct (dryRun w); simpl; lia.
  - rewrite failures_app. simpl. destruct (is_format_error message); lia.
Qed.

Lemma alerts_step n st :
  alerts (trace (process_news w n st)) = alerts (trace st).
Proof.
  destruct (process_news_outcome n st); simpl; try lia.
  - rewrite alerts_app. destruct (dryRun w); simpl; lia.
  - rewrite alerts_app. simpl. lia.
Qed.

(** A step that adds a genuine failure ends the trace with it, and can only
    happen outside a dry run. *)
Lemma failure_step n st :
  exception_cnt (process_news w n st) <> exception_cnt st ->
  exception_cnt (process_news w n st) = exception_cnt st + 1 /\
  dryRun w = false /\
  exists message,
    trace (process_news w n st) = trace st ++ [SendFailed n message] /\
    exception_message (process_news w n st) = message /\
    is_format_error message = false.
Proof.
  destruct (process_news_outcome n st) as [| | | |message called Hs Ht Hf Hdry Hbad];
    simpl; try congruence.
  destruct (is_format_error message) eqn:E; [congruence|].
  intros _. repeat split; [assumption|]. exists message. auto.
Qed.

Lemma exception_cnt_mono n st :
  exception_cnt st <= exception_cnt (process_news w n st) <= exception_cnt st + 1.
Proof.
  destruct (process_news_outcome n st); simpl; try lia.
  destruct (is_format_error message); lia.
Qed.

(** A step leaves [uncaught] as it was. *)
Lemma uncaught_step n st : uncaught (process_news w n st) = uncaught st.
Proof. destruct (process_news_outcome n st); reflexivity. Qed.

(** How a run ends: not aborted, or aborted with the alert sent, or aborted
    with the call of the alert raising. *)
Lemma main_loop_end l : forall st,
  running st -> uncaught st = None ->
  running (main_loop w l st) /\ uncaught (main_loop w l st) = None \/
  aborted w (main_loop w l st) \/
  exists reason, alert_failed w reason (main_loop w l st).
Proof.
  induction l as [|n l IH]; intros st (Hc & Ha & Hle) Hun; simpl.
  { left. repeat split; assumption. }
  pose proof (exception_cnt_step n st) as Hstep.
  pose proof (alerts_step n st) as Hal.
  pose proof (exception_cnt_mono n st) as Hmono.
  pose proof (uncaught_step n st) as Hun'. rewrite Hun in Hun'.
  destruct (exception_cnt (process_news w n st) >? 3) eqn:E.
  - right. zbool.
    destruct (failure_step n st) as (Hinc & Hdry & message & Htr & Hmsg & Hfmt); [lia|].
    unfold send_alert. rewrite Hdry, Hmsg.
    destruct (send_message w _ _ _) as [reason|] eqn:Hsend.
    + right. exists reason, (trace st), n, message. simpl.
      repeat split; try assumption; lia.
    + left. exists (trace st), n, message. simpl.
      rewrite Htr, <- app_assoc. simpl.
      repeat split; try assumption; lia.
  - zbool.
    assert (running (process_news w n st)) as Hrun.
    { repeat split; lia. }
    destruct (_ >=? _); [now left | now apply IH].
Qed.

Lemma running_start store : running (start store).
Proof. repeat split; simpl; lia. Qed.

Lemma aborted_failures st : aborted w st -> failures (trace st) = 4 /\ alerts (trace st) = 1.
Proof.
  intros (tr & n & message & Htr & Hf & Ha & Hfmt & _).
  rewrite Htr, failures_app, alerts_app. simpl. rewrite Hfmt. lia.
Qed.

Lemma alert_failed_failures reason st :
  alert_failed w reason st -> failures (trace st) = 4 /\ alerts (trace st) = 0.
Proof.
  intros (tr & n & message & Htr & Hf & Ha & Hfmt & _).
  rewrite Htr, failures_app, alerts_app. simpl. rewrite Hfmt. lia.
Qed.

(** After the abort the rest of the list plays no part. *)
Lemma main_loop_abort_rest l rest : forall st,
  exception_cnt st <= 3 -> exception_cnt (main_loop w l st) > 3 ->
  main_loop w (l ++ rest) st = main_loop w l st.
Proof.
  induction l as [|n l IH]; intros st Hle Hgt; simpl in *; [lia|].
  destruct (exception_cnt (process_news w n st) >? 3) eqn:E; [reflexivity|].
  destruct (_ >=? _) eqn:E2.
  - zbool. lia.
  - apply IH; [|assumption]. zbool. lia.
Qed.

(** ** The bound on the deliveries *)

Lemma news_cnt_step n st :
  0 <= deliveries (trace (process_news w n st)) - deliveries (trace st)
    <= news_cnt (process_news w n st) - news_cnt st /\
  news_cnt (process_news w n st) - news_cnt st <= 1.
Proof.
  destruct (process_news_outcome n st); simpl; try lia.
  - rewrite deliveries_app. destruct (dryRun w); simpl; lia.
  - rewrite deliveries_app. simpl. lia.
Qed.

Lemma send_alert_deliveries st :
  deliveries (trace (send_alert w st)) = deliveries (trace st) /\
  news_cnt (send_alert w st) = news_cnt st.
Proof.
  unfold send_alert. destruct (dryRun w); [split; reflexivity|].
  destruct (send_message _ _ _ _); simpl; [split; reflexivity|].
  rewrite deliveries_app. simpl. lia.
Qed.

Lemma news_cnt_loop l : forall st,
  deliveries (trace st) <= news_cnt st -> news_cnt st < NEWS_COUNT w ->
  deliveries (trace (main_loop w l st)) <= news_cnt (main_loop w l st)
  /\ news_cnt (main_loop w l st) <= NEWS_COUNT w.
Proof.
  induction l as [|n l IH]; intros st Hd Hn; simpl; [lia|].
  pose proof (news_cnt_step n st) as Hstep.
  destruct (_ >? 3).
  { destruct (send_alert_deliveries (process_news w n st)) as [-> ->]. lia. }
  destruct (_ >=? _) eqn:E; [lia|].
  apply IH; [lia|]. zbool. lia.
Qed.

End Run.

(** Two runs, each in a world of its own. *)
Lemma delivered_twice w1 w2 store c :
  let r1 := main w1 store in
  let r2 := main w2 (store_after store r1) in
  (delivered c (events r1 ++ events r2) <= 1)%nat.
Proof.
  intros r1 r2. rewrite delivered_app.
  assert (Hrun : forall w s, (delivered c (events (main w s)) + fresh (store_after s (main w s)) c <= fresh s c)%nat).
  { intros w s. unfold main. destruct (parse_news w (feeds s)) as [l|e]; simpl; [|lia].
    pose proof (delivered_loop w l (start s) c) as H. simpl in H.
    now destruct (uncaught (main_loop w l (start s))). }
  pose proof (Hrun w1 store) as H1. pose proof (Hrun w2 (store_after store r1)) as H2.
  fold r1 in H1. fold r2 in H2. unfold fresh in *.
  destruct (news_exists store c), (news_exists (store_after store r1) c),
    (news_exists (store_after (store_after store r1) r2) c); lia.
Qed.

(** ** Attempts and the window *)

Section Window.
Variable w : World.

Lemma trace_loop_prefix l : forall st,
  exists tr, trace (main_loop w l st) = trace st ++ tr.
Proof.
  assert (Hstep : forall n st, exists tr, trace (process_news w n st) = trace st ++ tr).
  { intros n st. destruct (process_news_outcome w n st); simpl;
      try (exists []; now rewrite app_nil_r); eexists; reflexivity. }
  induction l as [|n l IH]; intros st; simpl.
  { exists []. now rewrite app_nil_r. }
  destruct (Hstep n st) as [tr1 H1].
  destruct (_ >? 3).
  { destruct (send_alert_trace w (process_news w n st)) as [-> | ->]; [eauto|].
    rewrite H1, <- app_assoc. eauto. }
  destruct (_ >=? _); [eauto|].
  destruct (IH (process_news w n st)) as [tr2 H2]. rewrite H2, H1, <- app_assoc. eauto.
Qed.

(** An article whose checksum is in the store is not sent again. *)
Lemma attempts_seen l : forall st c,
  news_exists (db st) c = true ->
  attempts c (trace (main_loop w l st)) = attempts c (trace st).
Proof.
  assert (Hne : forall (n : NewsFromFeed) st c,
    news_exists (db st) c = true -> news_exists (db st) (checksum n) = false ->
    String.eqb (checksum n) c = false).
  { intros n st c H1 H2. apply String.eqb_neq. congruence. }
  assert (Hstep : forall n st c, news_exists (db st) c = true ->
    attempts c (trace (process_news w n st)) = attempts c (trace st)).
  { intros n st c H.
    destruct (process_news_outcome w n st) as [| | |Hs ? ? ?|m called Hs ? ? ? ?];
      simpl; try reflexivity; rewrite attempts_app; simpl.
    - destruct (dryRun w); simpl; [lia|]. rewrite (Hne n st c H Hs). lia.
    - rewrite (Hne n st c H Hs). lia. }
  induction l as [|n l IH]; intros st c H; simpl; [reflexivity|].
  pose proof (Hstep n st c H) as H1.
  pose proof (news_exists_step w n st c H) as H2.
  destruct (_ >? 3).
  { destruct (send_alert_trace w (process_news w n st)) as [-> | ->]; [exact H1|].
    rewrite attempts_app. simpl. lia. }
  destruct (_ >=? _); [exact H1|]. rewrite IH; assumption.
Qed.


(** The first article of a run is delivered and recorded when it is new,
    in the window, and the bot accepts it. *)
Lemma first_delivered n rest store chat :
  news_exists store (checksum n) = false ->
  datetime_now w 0 - date n <= timedelta_days 30 ->
  date n <= datetime_now w 1 ->
  dryRun w = false -> BOT_TARGET w = Some chat ->
  send_message w 0 chat (telegram_payload w n) = None ->
  let st := main_loop w (n :: rest) (start store) in
  In (Delivered n (telegram_payload w n)) (trace st) /\
  In (date n, checksum n) (news (db st)).
Proof.
  intros Hs Ht Hf Hdry Hchat Hsend. simpl.
  assert (process_news w n (start store)
          = on_success w n (telegram_payload w n) (tick (tick (start store)))) as ->.
  { destruct (process_news_outcome w n (start store))
      as [Hs'|Hs' Ht'|Hs' Ht' Hf'|Hs' Ht' Hf' Hok|msg called Hs' Ht' Hf' Hdry' Hbad];
      simpl in *; try congruence; try lia.
    destruct Hbad as [(Hnone & _)|(chat' & Hsome & _ & Hsend')]; congruence. }
  set (st1 := on_success _ _ _ _).
  assert (In (Delivered n (telegram_payload w n)) (trace st1) /\
          news_exists (db st1) (checksum n) = true) as [H1 H2].
  { unfold st1, on_success. rewrite Hdry. simpl. split; [left; reflexivity|].
    rewrite news_exists_insert, String.eqb_refl. apply orb_true_r. }
  assert (In (date n, checksum n) (news (db st1))) as H3.
  { unfold st1, on_success. rewrite Hdry. simpl. apply in_app_iff. right. left. reflexivity. }
  assert (Hnews : forall l st, incl (news (db st)) (news (db (main_loop w l st)))).
  { assert (Hstep : forall m st, incl (news (db st)) (news (db (process_news w m st)))).
    { intros m st. destruct (process_news_outcome w m st); simpl; try apply incl_refl.
      - destruct (dryRun w); [apply incl_refl | apply incl_appl, incl_refl].
      - destruct (is_format_error message); [apply incl_appl|]; apply incl_refl. }
    induction l as [|m l IH]; intros st; simpl; [apply incl_refl|].
    destruct (_ >? 3); [rewrite send_alert_db; apply Hstep|].
    destruct (_ >=? _); [apply Hstep|].
    eapply incl_tran; [apply Hstep | apply IH]. }
  destruct (_ >? 3).
  { split; [|now rewrite send_alert_db].
    destruct (send_alert_trace w st1) as [-> | ->]; [exact H1|].
    apply in_app_iff. left. exact H1. }
  destruct (_ >=? _); [now split|].
  split.
  - destruct (trace_loop_prefix rest st1) as [tr ->]. apply in_app_iff. left. exact H1.
  - now apply Hnews.
Qed.

End Window.

(** ** Entries with and without a link *)

Lemma log_link_some (e : entry) l : e !! "link" = Some l -> log_link e = Ok tt.
Proof. intros H. unfold log_link, getitem. now rewrite H. Qed.

Lemma log_link_none (e : entry) : e !! "link" = None -> log_link e = Raise (KeyError "link").
Proof. intros H. unfold log_link, getitem. now rewrite H. Qed.

(** With a link, [create_article] returns: every exception of its body is
    caught. *)
Lemma create_article_returns w (e : entry) l ck ak dk :
  e !! "link" = Some l -> exists r, create_article w e ck ak dk = Ok r.
Proof.
  intros H. unfold create_article.
  destruct (create_article_try w e ck ak dk); [eauto|].
  rewrite (log_link_some e l H). simpl. eauto.
Qed.

Lemma create_article_raises w (e : entry) ck ak dk :
  e !! "link" = None -> create_article w e ck ak dk = Raise (KeyError "link").
Proof.
  intros H. unfold create_article, create_article_try, log_link, getitem.
  rewrite H. reflexivity.
Qed.

Lemma first_article_returns w (e : entry) l keys :
  e !! "link" = Some l -> exists r, first_article w e keys = Ok r.
Proof.
  intros H. induction keys as [|[[ck ak] dk] keys IH]; simpl; [eauto|].
  destruct (create_article_returns w e l ck ak dk H) as [r ->]. simpl.
  rewrite (log_link_some e l H). destruct r; simpl; eauto.
Qed.

Lemma parse_entry_returns w (e : entry) l :
  e !! "link" = Some l -> exists r, parse_entry w e = Ok r.
Proof.
  intros H. unfold parse_entry. rewrite (log_link_some e l H).
  unfold mbind, result_bind. now apply (first_article_returns w e l).
Qed.

Lemma parse_entry_raises w (e : entry) :
  e !! "link" = None -> parse_entry w e = Raise (KeyError "link").
Proof. intros H. unfold parse_entry. now rewrite (log_link_none e H). Qed.

Lemma parse_entries_returns w es : forall acc,
  Forall (fun e : entry => is_Some (e !! "link")) es ->
  exists l, parse_entries w es acc = Ok l.
Proof.
  induction es as [|e es IH]; intros acc Hall; simpl; [eauto|].
  inversion Hall as [|? ? [l Hl] Hrest]; subst.
  destruct (parse_entry_returns w e l Hl) as [r ->]. simpl.
  destruct r; now apply IH.
Qed.

Lemma parse_entries_raises w es : forall acc,
  Exists (fun e : entry => e !! "link" = None) es ->
  parse_entries w es acc = Raise (KeyError "link").
Proof.
  induction es as [|e es IH]; intros acc Hex; simpl; [inversion Hex|].
  destruct (e !! "link") as [l|] eqn:Hl.
  - destruct (parse_entry_returns w e l Hl) as [r ->]. simpl.
    inversion Hex as [? ? Hnone|? ? Hrest]; subst; [congruence|].
    destruct r; now apply IH.
  - now rewrite (parse_entry_raises w e Hl).
Qed.

(** ** The order of the candidates *)

Lemma parse_entry_priority w (e : entry) l :
  e !! "link" = Some l ->
  exists r1 r2 r3,
    create_article w e "description" "dc:creator" "pubDate" = Ok r1 /\
    create_article w e "summary" "author" "published" = Ok r2 /\
    create_article w e "content" "author" "published" = Ok r3 /\
    parse_entry w e = Ok (first_some r1 r2 r3).
Proof.
  intros H.
  destruct (create_article_returns w e l "description" "dc:creator" "pubDate" H) as [r1 H1].
  destruct (create_article_returns w e l "summary" "author" "published" H) as [r2 H2].
  destruct (create_article_returns w e l "content" "author" "published" H) as [r3 H3].
  exists r1, r2, r3. repeat split; try assumption.
  unfold parse_entry, candidate_keys. simpl.
  rewrite (log_link_some e l H), H1, H2, H3. simpl.
  destruct r1, r2, r3; reflexivity.
Qed.

(** ** What [create_article] builds *)

(** The article of an entry with a link, a title, content under the
    content key and a date that parses. *)
Lemma create_article_builds w (e : entry) ck ak dk l t c d dt :
  e !! "link" = Some l -> e !! "title" = Some t ->
  e !! ck = Some c -> c <> EmptyString ->
  (10 < String.length (remove_links (remove_html c)))%nat ->
  is_text (por (por (e !! dk) (e !! "published")) (e !! "updated")) d ->
  dateutil_parse w d = Some dt ->
  exists a,
    create_article w e ck ak dk = Ok (Some a) /\
    title a = Str.strip (if (2 <? String.length t)%nat then t else "No title") /\
    date a = dt /\
    summary a = make_summary (remove_links (remove_html c)) /\
    checksum a = make_checksum l.
Proof.
  intros Hl Ht Hc Hne Hlen [Hd Hdne] Hparse.
  unfold create_article, create_article_try.
  rewrite (log_link_some e l Hl). simpl.
  unfold extract_feed_content. rewrite Hc.
  destruct c as [|c0 c']; [congruence|].
  apply Nat.ltb_lt in Hlen. rewrite Hlen. simpl.
  destruct (remove_links (remove_html (String c0 c'))) as [|x xs] eqn:Hclean;
    [simpl in Hlen; discriminate|].
  unfold getitem. rewrite Hl, Ht.
  destruct (truthy (e !! ak)); simpl; rewrite Hd;
    (destruct d as [|d0 d']; [congruence|]);
    unfold NewsFromFeed_init; rewrite Hparse; simpl;
    eexists; repeat split.
Qed.

(** * The properties of the specification *)

(** ** De-duplication *)

(** C1. An article whose checksum has a row in the store is skipped: the
    step changes nothing, neither the store nor the trace.  Hence two
    successive calls of [main], the second on the store the first one left,
    deliver an article of any given checksum at most once between them,
    whatever the feeds, the clock and the bot do in either call (the feeds
    of the two calls may in particular be the same snapshot).  A dry run
    logs the message and delivers nothing. *)
Theorem dedup_idempotence (w1 w2 : World) (store : Store) :
  (forall w n st,
     news_exists (db st) (checksum n) = true -> process_news w n st = st) /\
  (forall c,
     let r1 := main w1 store in
     let r2 := main w2 (store_after store r1) in
     (delivered c (events r1 ++ events r2) <= 1)%nat).
Proof.
  split.
  - intros w n st H. now apply process_news_seen.
  - intros c. apply delivered_twice.
Qed.

(** ** The error budget *)

(** C3, amended.  With a bound [NEWS_COUNT] of at least one the deliveries
    of a run never exceed it.  A run has at most four genuine failures.
    When it has four, the fourth is the last event of an article: the loop
    is left at once, the articles after the failing one play no part in the
    run, and the bot is called one more time, for the alert that quotes the
    message of that failure.  When this call returns, the alert is the last
    event and the only alert of the run; when it raises, the run has no
    alert and the exception leaves [main].  A run with fewer than four
    failures has no alert and raises nothing in its loop. *)
Theorem error_budget (w : World) (l : list NewsFromFeed) (store : Store) :
  let st := main_loop w l (start store) in
  (1 <= NEWS_COUNT w -> deliveries (trace st) <= NEWS_COUNT w) /\
  failures (trace st) <= 4 /\
  (failures (trace st) = 4 ->
     (exists tr n message,
        failures tr = 3 /\ alerts tr = 0 /\ is_format_error message = false /\
        let answer :=
          send_message w (Nat.pred (bot_calls st)) (BOT_ADMIN w) (alert_text message) in
        (answer = None /\
         trace st = tr ++ [SendFailed n message;
                           Alert (BOT_ADMIN w) (alert_text message)] /\
         alerts (trace st) = 1 /\ uncaught st = None \/
         exists reason,
           answer = Some reason /\
           trace st = tr ++ [SendFailed n message] /\
           alerts (trace st) = 0 /\ uncaught st = Some reason)) /\
     forall rest, main_loop w (l ++ rest) (start store) = st) /\
  (failures (trace st) < 4 -> alerts (trace st) = 0 /\ uncaught st = None) /\
  (parse_news w (feeds store) = Ok l ->
   main w store = match uncaught st with
                  | None => Returned st
                  | Some reason => Raised (Exception reason) st
                  end).
Proof.
  intros st.
  pose proof (main_loop_end w l (start store) (running_start store) eq_refl) as Hend.
  fold st in Hend.
  split; [|split; [|split; [|split]]].
  - intros HN. destruct (news_cnt_loop w l (start store)) as [H1 H2]; simpl; try lia.
    fold st in H1, H2. lia.
  - destruct Hend as [[(Hc & _ & Hle) _]|[Hab|[reason Hab]]]; [lia| |].
    + apply aborted_failures in Hab. lia.
    + apply alert_failed_failures in Hab. lia.
  - intros H4. split.
    + destruct Hend as [[(Hc & _ & Hle) _]|[Hab|[reason Hab]]]; [lia| |].
      * pose proof (aborted_failures w st Hab) as [_ Hal].
        destruct Hab as (tr & n & message & Htr & Hf & Ha & Hfmt & Hcnt & Hun & Hsend).
        exists tr, n, message. repeat split; try assumption. left. auto.
      * pose proof (alert_failed_failures w reason st Hab) as [_ Hal].
        destruct Hab as (tr & n & message & Htr & Hf & Ha & Hfmt & Hcnt & Hun & Hsend).
        exists tr, n, message. repeat split; try assumption. right. exists reason. auto.
    + intros rest. apply main_loop_abort_rest; [simpl; lia|]. fold st.
      destruct Hend as [[(Hc & _ & Hle) _]|[Hab|[reason Hab]]]; [lia| |].
      * destruct Hab as (_ & _ & _ & _ & _ & _ & _ & Hcnt & _). lia.
      * destruct Hab as (_ & _ & _ & _ & _ & _ & _ & Hcnt & _). lia.
  - intros Hlt. destruct Hend as [[(_ & Ha & _) Hun]|[Hab|[reason Hab]]]; [auto| |].
    + apply aborted_failures in Hab. lia.
    + apply alert_failed_failures in Hab. lia.
  - intros Hp. unfold main. rewrite Hp. reflexivity.
Qed.

(** ** The error counter *)

(** C10. The counter of genuine failures never goes down and moves only
    when a delivery fails outside the format class, so at the end of a run
    it is the number of genuine failures of the whole trace, wherever they
    lie between other events; it never passes four, and at four the run is
    aborted: the articles that follow play no part, and the trace ends with
    the fourth failure, followed by the alert when the call that sends it
    returned. *)
Theorem exception_cnt_never_reset (w : World) :
  (forall n st, exception_cnt st <= exception_cnt (process_news w n st)) /\
  (forall n st,
     exception_cnt (process_news w n st) <> exception_cnt st ->
     exists message,
       trace (process_news w n st) = trace st ++ [SendFailed n message] /\
       is_format_error message = false) /\
  (forall l store,
     let st := main_loop w l (start store) in
     exception_cnt st = failures (trace st) /\
     exception_cnt st <= 4 /\
     (exception_cnt st = 4 ->
        (forall rest, main_loop w (l ++ rest) (start store) = st) /\
        exists tr n message,
          (uncaught st = None /\
           trace st = tr ++ [SendFailed n message;
                             Alert (BOT_ADMIN w) (alert_text message)]) \/
          (exists reason,
             uncaught st = Some reason /\ trace st = tr ++ [SendFailed n message]))).
Proof.
  split; [|split].
  - intros n st. apply exception_cnt_mono.
  - intros n st H. destruct (failure_step w n st H) as (_ & _ & message & Htr & _ & Hfmt).
    exists message. auto.
  - intros l store st.
    assert (exception_cnt st = 4 ->
            forall rest, main_loop w (l ++ rest) (start store) = st) as Hrest.
    { intros H4 rest. apply main_loop_abort_rest; [simpl; lia|]. fold st. lia. }
    destruct (main_loop_end w l (start store) (running_start store) eq_refl)
      as [[(Hc & _ & Hle) _]|[Hab|[reason Hab]]];
      fold st in Hc, Hle || fold st in Hab.
    + repeat split; try lia.
    + pose proof (aborted_failures w st Hab) as [Hf _].
      destruct Hab as (tr & n & message & Htr & _ & _ & _ & Hcnt & Hun & _).
      repeat split; try lia; [now apply Hrest|].
      exists tr, n, message. left. auto.
    + pose proof (alert_failed_failures w reason st Hab) as [Hf _].
      destruct Hab as (tr & n & message & Htr & _ & _ & _ & Hcnt & Hun & _).
      repeat split; try lia; [now apply Hrest|].
      exists tr, n, message. right. exists reason. auto.
Qed.

(** ** Failures of the format class *)

Lemma app_one_neq {A} (l : list A) (x : A) : l <> l ++ [x].
Proof.
  intros H. apply (f_equal (@length A)) in H. rewrite length_app in H. simpl in H. lia.
Qed.

(** C4. When the delivery of an article fails with a message of the format
    class, the step writes the row of the article and leaves the counter
    alone, and no run on a store that holds the row calls the bot for that
    checksum again.  When it
    fails with any other message the counter goes up by one and the store
    is unchanged, so the checksum is still absent and the article is
    delivered by the next run that reaches it in the window with a bot that
    accepts it. *)
Theorem format_failure_recorded (w : World) (n : NewsFromFeed) (st : RunState)
    (message : string) :
  trace (process_news w n st) = trace st ++ [SendFailed n message] ->
  let st' := process_news w n st in
  (is_format_error message = true ->
     db st' = insert_news (db st) (date n) (checksum n) /\
     exception_cnt st' = exception_cnt st /\
     news_exists (db st') (checksum n) = true /\
     forall w' l store,
       news_exists store (checksum n) = true ->
       attempts (checksum n) (trace (main_loop w' l (start store))) = 0%nat) /\
  (is_format_error message = false ->
     db st' = db st /\
     exception_cnt st' = exception_cnt st + 1 /\
     news_exists (db st') (checksum n) = false /\
     forall w' rest chat,
       datetime_now w' 0 - date n <= timedelta_days 30 ->
       date n <= datetime_now w' 1 ->
       dryRun w' = false -> BOT_TARGET w' = Some chat ->
       send_message w' 0 chat (telegram_payload w' n) = None ->
       In (Delivered n (telegram_payload w' n))
          (trace (main_loop w' (n :: rest) (start (db st'))))).
Proof.
  intros Htr st'. subst st'.
  destruct (process_news_outcome w n st)
    as [Hs|Hs Ht|Hs Ht Hf|Hs Ht Hf Hok|msg called Hs Ht Hf Hdry Hbad]; simpl in Htr.
  1-3: now apply app_one_neq in Htr.
  - apply app_inv_head in Htr. destruct (dryRun w); discriminate.
  - apply app_inv_head in Htr. injection Htr as ->.
    split; intros Hfmt; simpl; rewrite Hfmt.
    + repeat split.
      * rewrite news_exists_insert, String.eqb_refl. apply orb_true_r.
      * intros w' l store Hrow. rewrite attempts_seen; [reflexivity | exact Hrow].
    + repeat split; [exact Hs|].
      intros w' rest chat Hw1 Hw2 Hd Hc Hsend.
      now apply (first_delivered w' n rest (db st) chat).
Qed.

(** ** The window *)


(** ** The checksum *)

(** C2. The checksum of an article built from the link [L] is the MD5 digest
    of [L] stripped and then lower-cased, a function of [L] alone.  White
    space around the link and the case of its letters do not change it.  A
    trailing slash is not folded: the normalised links of [L] and of [L]
    followed by a slash differ for every [L], and for
    [http://example.com/a] the two digests differ. *)
Theorem checksum_normalised (L : string) :
  (forall w t d a s n,
     NewsFromFeed_init w t d a s L = Ok n ->
     checksum n = MD5.hexdigest (Str.lower (Str.strip L))) /\
  (forall pre post,
     Str.all_space pre -> Str.all_space post ->
     make_checksum (pre +:+ L +:+ post) = make_checksum L) /\
  (forall L', Str.lower L' = Str.lower L -> make_checksum L' = make_checksum L) /\
  clean_url (L +:+ "/") <> clean_url L /\
  make_checksum "http://example.com/a/" <> make_checksum "http://example.com/a".
Proof.
  split; [|split; [|split; [|split]]].
  - intros w t d a s n. unfold NewsFromFeed_init.
    destruct (dateutil_parse w d); [|discriminate].
    intros H. injection H as <-. reflexivity.
  - intros pre post Hpre Hpost. unfold make_checksum, clean_url.
    now rewrite strip_app_space.
  - intros L' H. unfold make_checksum, clean_url.
    now rewrite !lower_strip, H.
  - apply clean_url_slash.
  - vm_compute. discriminate.
Qed.

(** ** The order of the articles *)

(** C6. The list [parse_news] returns is in descending order of date at
    every pair of positions, it holds the articles of the entries in
    source-then-entry order rearranged, and articles of one date keep that
    order.  Three articles of decreasing dates therefore come back in that
    order whatever the order of the sources.  [parse_news] returns whenever
    every fetched entry has a link. *)
Theorem parse_news_sorted (w : World) (urls_list : list string) :
  (Forall (fun e : entry => is_Some (e !! "link")) (concat (fetched_feeds w urls_list)) ->
   exists l, parse_news w urls_list = Ok l) /\
  (forall l, parse_news w urls_list = Ok l ->
     (forall (i j : nat) a b, (i < j)%nat -> l !! i = Some a -> l !! j = Some b ->
        date a >= date b) /\
     (exists news_list,
        parse_entries w (concat (fetched_feeds w urls_list)) [] = Ok news_list /\
        l ≡ₚ news_list /\
        forall d, filter (fun x => date x = d) l = filter (fun x => date x = d) news_list) /\
     (forall a1 a2 a3,
        l ≡ₚ [a1; a2; a3] -> date a1 > date a2 -> date a2 > date a3 ->
        l = [a1; a2; a3])).
Proof.
  split.
  - intros Hall. unfold parse_news.
    destruct (parse_entries_returns w _ [] Hall) as [l ->]. simpl. eauto.
  - intros l. unfold parse_news.
    destruct (parse_entries w (concat (fetched_feeds w urls_list)) []) as [news_list|]
      eqn:Hparse; simpl; [|discriminate].
    intros H. injection H as <-.
    split; [|split].
    + intros i j a b Hij Hi Hj.
      exact (sorted_lookup newer_or_equal _ (sorted_by_date_sorted news_list) i j a b Hij Hi Hj).
    + exists news_list. split; [reflexivity|]. split.
      * apply sorted_by_date_perm.
      * intros d. apply sorted_by_date_stable.
    + intros a1 a2 a3 Hp H12 H23.
      apply sorted_three; [apply sorted_by_date_sorted | exact Hp | exact H12 | exact H23].
Qed.

(** ** The candidates of an entry *)

(** C7. For an entry with a link the three candidates are tried in their
    order, the first that gives an article wins and the entry is dropped
    when none does.  For an entry without a link no candidate is tried:
    [create_article] raises from its own handlers, and so do [parse_entry],
    [parse_news] and [main] for any feed that holds such an entry. *)
Theorem candidate_fallback (w : World) (e : entry) :
  (forall l, e !! "link" = Some l ->
     exists r1 r2 r3,
       create_article w e "description" "dc:creator" "pubDate" = Ok r1 /\
       create_article w e "summary" "author" "published" = Ok r2 /\
       create_article w e "content" "author" "published" = Ok r3 /\
       parse_entry w e = Ok (first_some r1 r2 r3)) /\
  (e !! "link" = None ->
     (forall ck ak dk, create_article w e ck ak dk = Raise (KeyError "link")) /\
     parse_entry w e = Raise (KeyError "link") /\
     forall store,
       In e (concat (fetched_feeds w (feeds store))) ->
       parse_news w (feeds store) = Raise (KeyError "link") /\
       main w store = Raised (KeyError "link") (start store)).
Proof.
  split.
  - intros l Hl. now apply (parse_entry_priority w e l).
  - intros Hnone. split; [|split].
    + intros ck ak dk. now apply create_article_raises.
    + now apply parse_entry_raises.
    + intros store Hin.
      assert (parse_news w (feeds store) = Raise (KeyError "link")) as Hp.
      { unfold parse_news. rewrite parse_entries_raises; [reflexivity|].
        apply Exists_exists. exists e. split; [|exact Hnone].
        apply list_elem_of_In. exact Hin. }
      split; [exact Hp|]. unfold main. now rewrite Hp.
Qed.

(** An entry with only the fields of the second candidate, a title and a
    link gives the article of that candidate. *)
Lemma second_candidate (w : World) (e : entry) l t c d dt :
  e !! "link" = Some l -> e !! "title" = Some t ->
  e !! "description" = None ->
  e !! "summary" = Some c ->
  (10 < String.length (remove_links (remove_html c)))%nat ->
  is_text (e !! "published") d -> dateutil_parse w d = Some dt ->
  exists a,
    parse_entry w e = Ok (Some a) /\
    create_article w e "summary" "author" "published" = Ok (Some a) /\
    date a = dt /\ checksum a = make_checksum l.
Proof.
  intros Hl Ht Hdesc Hc Hlen [Hd Hdne] Hparse.
  assert (c <> EmptyString) as Hcne by (intros ->; vm_compute in Hlen; lia).
  assert (is_text (por (por (e !! "published") (e !! "published")) (e !! "updated")) d) as Hdate.
  { split; [|exact Hdne]. rewrite Hd. destruct d; [congruence | reflexivity]. }
  destruct (create_article_builds w e "summary" "author" "published" l t c d dt
              Hl Ht Hc Hcne Hlen Hdate Hparse) as (a & Ha & _ & Hdt & _ & Hck).
  exists a. repeat split; try assumption.
  destruct (parse_entry_priority w e l Hl) as (r1 & r2 & r3 & H1 & H2 & _ & ->).
  assert (r1 = None) as ->.
  { revert H1. unfold create_article, create_article_try, extract_feed_content,
      log_link, getitem. rewrite Hl, Hdesc. simpl. congruence. }
  rewrite Ha in H2. injection H2 as <-. reflexivity.
Qed.

(** ** The title *)

(** C8, amended.  For an entry with a link and a title field of at most two
    characters whose content and date are found, [create_article] builds an
    article and its title is the default one. *)
Theorem title_sentinel (w : World) (e : entry) (ck ak dk : string)
    (l t c d : string) (dt : datetime) :
  e !! "link" = Some l -> e !! "title" = Some t ->
  (String.length t <= 2)%nat ->
  e !! ck = Some c ->
  (10 < String.length (remove_links (remove_html c)))%nat ->
  is_text (por (por (e !! dk) (e !! "published")) (e !! "updated")) d ->
  dateutil_parse w d = Some dt ->
  exists a, create_article w e ck ak dk = Ok (Some a) /\ title a = "No title".
Proof.
  intros Hl Ht Hshort Hc Hlen Hdate Hparse.
  assert (c <> EmptyString) as Hcne by (intros ->; vm_compute in Hlen; lia).
  destruct (create_article_builds w e ck ak dk l t c d dt
              Hl Ht Hc Hcne Hlen Hdate Hparse) as (a & Ha & Htitle & _).
  exists a. split; [exact Ha|]. rewrite Htitle.
  destruct (2 <? String.length t)%nat eqn:E; [apply Nat.ltb_lt in E; lia | reflexivity].
Qed.

(** ** The summary *)


(** ** The properties on the concrete world *)

(** Two runs over one feed: the second finds the article in the store. *)
Lemma dedup_idempotence_witness :
  let w := Demo.world 1 Demo.steady (Demo.feed_of [Demo.entry_summary]) Demo.accepts in
  let n := Demo.article "https://example.org/a" (Demo.day 990) in
  let st := start (store_after Demo.store_of_feed (main w Demo.store_of_feed)) in
  news_exists (db st) (checksum n) = true /\
  process_news w n st = st /\
  (delivered (checksum n)
     (events (main w Demo.store_of_feed) ++
      events (main w (store_after Demo.store_of_feed (main w Demo.store_of_feed))))
   <= 1)%nat.
Proof.
  intros w n st.
  assert (news_exists (db st) (checksum n) = true) as H by (vm_compute; reflexivity).
  split; [exact H|]. split.
  - exact (proj1 (dedup_idempotence w w Demo.store_of_feed) w n st H).
  - exact (proj2 (dedup_idempotence w w Demo.store_of_feed) (checksum n)).
Defined.

Lemma checksum_normalised_witness :
  let w := Demo.world 1 Demo.steady Demo.no_feed Demo.accepts in
  let L := "http://Example.com/A" in
  (exists n, NewsFromFeed_init w "Field day" Demo.sep18 "Ann" Demo.body L = Ok n /\
             checksum n = MD5.hexdigest (Str.lower (Str.strip L))) /\
  Str.all_space " " /\ Str.all_space LF /\
  make_checksum (" " +:+ L +:+ LF) = make_checksum L /\
  Str.lower "HTTP://EXAMPLE.COM/A" = Str.lower L /\
  make_checksum "HTTP://EXAMPLE.COM/A" = make_checksum L.
Proof.
  intros w L.
  assert (Str.all_space " ") as H1 by reflexivity.
  assert (Str.all_space LF) as H2 by reflexivity.
  assert (Str.lower "HTTP://EXAMPLE.COM/A" = Str.lower L) as H3 by reflexivity.
  destruct (checksum_normalised L) as (C1 & C2 & C3 & _).
  refine (conj _ (conj H1 (conj H2 (conj (C2 " " LF H1 H2) (conj H3 (C3 _ H3)))))).
  destruct (NewsFromFeed_init w "Field day" Demo.sep18 "Ann" Demo.body L) as [n|e] eqn:E;
    [|vm_compute in E; discriminate].
  exists n. split; [reflexivity|]. exact (C1 w _ _ _ _ n E).
Defined.

(** Four articles and a bot that fails four times and then recovers: four
    failures and the alert, and the articles that follow them are not
    looked at.  With a bot that refuses every call the call of the alert
    raises as well, and no alert is sent. *)
Lemma error_budget_witness :
  let w := Demo.world 10 Demo.steady Demo.no_feed Demo.recovers in
  let w' := Demo.world 10 Demo.steady Demo.no_feed Demo.refuses in
  let l := [Demo.a1; Demo.a2; Demo.a3; Demo.a4] in
  let st := main_loop w l (start Demo.empty_store) in
  let st' := main_loop w' l (start Demo.empty_store) in
  (1 <= NEWS_COUNT w /\ failures (trace st) = 4 /\
   deliveries (trace st) <= NEWS_COUNT w /\
   main_loop w (l ++ [Demo.a5; Demo.a6]) (start Demo.empty_store) = st /\
   alerts (trace st) = 1 /\ uncaught st = None /\ bot_calls st = 5%nat) /\
  (failures (trace st') = 4 /\
   main_loop w' (l ++ [Demo.a5; Demo.a6]) (start Demo.empty_store) = st' /\
   alerts (trace st') = 0 /\ uncaught st' = Some "Bad Gateway" /\ bot_calls st' = 5%nat).
Proof.
  intros w w' l st st'.
  assert (1 <= NEWS_COUNT w) as H1 by (vm_compute; discriminate).
  assert (failures (trace st) = 4) as H4 by (vm_compute; reflexivity).
  assert (failures (trace st') = 4) as H4' by (vm_compute; reflexivity).
  assert (bot_calls st = 5%nat) as Hb by (vm_compute; reflexivity).
  assert (bot_calls st' = 5%nat) as Hb' by (vm_compute; reflexivity).
  destruct (error_budget w l Demo.empty_store) as (B1 & _ & B3 & _).
  destruct (error_budget w' l Demo.empty_store) as (_ & _ & B3' & _).
  destruct (B3 H4) as ((tr & n & message & _ & _ & _ & Hcase) & Hrest).
  destruct (B3' H4') as ((tr' & n' & message' & _ & _ & _ & Hcase') & Hrest').
  split.
  - refine (conj H1 (conj H4 (conj (B1 H1) (conj (Hrest _) _)))).
    destruct Hcase as [(_ & _ & Ha & Hu)|(reason & _ & _ & Ha & Hu)].
    + exact (conj Ha (conj Hu Hb)).
    + vm_compute in Hu. discriminate.
  - refine (conj H4' (conj (Hrest' _) _)).
    destruct Hcase' as [(_ & _ & Ha & Hu)|(reason & _ & _ & Ha & Hu)].
    + vm_compute in Hu. discriminate.
    + refine (conj Ha (conj _ Hb')). vm_compute. reflexivity.
Defined.

(** One article is delivered although the bound is zero; and with a bot
    that refuses every call, the alert included, a run over four articles
    has four failures and sends no alert: the exception of the fifth call
    leaves [main]. *)
Lemma error_budget_counterexample :
  let w := Demo.world 0 Demo.steady (Demo.feed_of [Demo.entry_summary]) Demo.accepts in
  let w' := Demo.world 10 Demo.steady (Demo.feed_of Demo.four_entries) Demo.refuses in
  (NEWS_COUNT w = 0 /\
   deliveries (events (main w Demo.store_of_feed)) = 1 /\
   ~ deliveries (events (main w Demo.store_of_feed)) <= NEWS_COUNT w) /\
  (failures (events (main w' Demo.store_of_feed)) = 4 /\
   alerts (events (main w' Demo.store_of_feed)) = 0 /\
   ~ alerts (events (main w' Demo.store_of_feed)) = 1 /\
   exists st, main w' Demo.store_of_feed = Raised (Exception "Bad Gateway") st /\
              bot_calls st = 5%nat).
Proof.
  intros w w'. split.
  - vm_compute. repeat split. intros H. apply H. reflexivity.
  - split; [vm_compute; reflexivity|]. split; [vm_compute; reflexivity|].
    split; [vm_compute; discriminate|].
    eexists. split; vm_compute; reflexivity.
Qed.

Lemma format_failure_recorded_witness :
  let w := Demo.world 1 Demo.steady Demo.no_feed Demo.rejects_format in
  let st := start Demo.empty_store in
  trace (process_news w Demo.a1 st) = trace st ++ [SendFailed Demo.a1 Demo.parse_error] /\
  is_format_error Demo.parse_error = true /\
  db (process_news w Demo.a1 st) = insert_news (db st) (date Demo.a1) (checksum Demo.a1) /\
  exception_cnt (process_news w Demo.a1 st) = exception_cnt st.
Proof.
  intros w st.
  assert (trace (process_news w Demo.a1 st)
          = trace st ++ [SendFailed Demo.a1 Demo.parse_error]) as H
    by (vm_compute; reflexivity).
  assert (is_format_error Demo.parse_error = true) as Hf by (vm_compute; reflexivity).
  destruct (proj1 (format_failure_recorded w Demo.a1 st Demo.parse_error H) Hf)
    as (Hdb & Hcnt & _ & _).
  exact (conj H (conj Hf (conj Hdb Hcnt))).
Defined.


(** Three sources fetched with the newest in the middle. *)
Lemma parse_news_sorted_witness :
  let w := Demo.world 1 Demo.steady Demo.three_feeds Demo.accepts in
  exists l,
    parse_news w Demo.three_urls = Ok l /\
    map date l = [Demo.day 995; Demo.day 990; Demo.day 985] /\
    forall (i j : nat) a b, (i < j)%nat -> l !! i = Some a -> l !! j = Some b ->
      date a >= date b.
Proof.
  intros w. eexists. split; [vm_compute; reflexivity|]. split; [reflexivity|].
  refine (proj1 (proj2 (parse_news_sorted w Demo.three_urls) _ _)).
  vm_compute. reflexivity.
Defined.

Lemma candidate_fallback_witness :
  let w := Demo.world 1 Demo.steady
             (Demo.feed_of [Demo.entry_summary; Demo.entry_unlinked]) Demo.accepts in
  Demo.entry_summary !! "link" = Some "https://example.org/a" /\
  (exists r1 r2 r3, parse_entry w Demo.entry_summary = Ok (first_some r1 r2 r3)) /\
  Demo.entry_unlinked !! "link" = None /\
  In Demo.entry_unlinked (concat (fetched_feeds w (feeds Demo.store_of_feed))) /\
  main w Demo.store_of_feed = Raised (KeyError "link") (start Demo.store_of_feed).
Proof.
  intros w.
  assert (Demo.entry_summary !! "link" = Some "https://example.org/a") as H1
    by (vm_compute; reflexivity).
  assert (Demo.entry_unlinked !! "link" = None) as H2 by (vm_compute; reflexivity).
  assert (In Demo.entry_unlinked (concat (fetched_feeds w (feeds Demo.store_of_feed)))) as H3
    by (right; left; reflexivity).
  split; [exact H1|]. split; [|split; [exact H2|split; [exact H3|]]].
  - destruct (proj1 (candidate_fallback w Demo.entry_summary) _ H1)
      as (r1 & r2 & r3 & _ & _ & _ & H). eauto.
  - exact (proj2 (proj2 (proj2 (proj2 (candidate_fallback w Demo.entry_unlinked) H2))
                    Demo.store_of_feed H3)).
Defined.

Lemma title_sentinel_witness :
  let w := Demo.world 1 Demo.steady Demo.no_feed Demo.accepts in
  exists a,
    create_article w Demo.entry_short_title "summary" "author" "published" = Ok (Some a) /\
    title a = "No title".
Proof.
  intros w.
  apply (title_sentinel w Demo.entry_short_title "summary" "author" "published"
           "https://example.org/c" "Hi" Demo.body Demo.sep18 (Demo.day 990));
    [ vm_compute; reflexivity | vm_compute; reflexivity
    | apply Nat.leb_le; vm_compute; reflexivity
    | vm_compute; reflexivity
    | apply Nat.ltb_lt; vm_compute; reflexivity
    | split; [vm_compute; reflexivity | discriminate]
    | vm_compute; reflexivity ].
Defined.

(** An entry without a title field gives no article, although its content
    and its date are found. *)
Lemma title_sentinel_counterexample :
  let w := Demo.world 1 Demo.steady Demo.no_feed Demo.accepts in
  Demo.entry_untitled !! "title" = None /\
  extract_feed_content Demo.entry_untitled "description"
    = Ok (Some "Results of the field day are out") /\
  Demo.entry_untitled !! "pubDate" = Some Demo.sep18 /\
  dateutil_parse w Demo.sep18 = Some (Demo.day 990) /\
  create_article w Demo.entry_untitled "description" "dc:creator" "pubDate" = Ok None /\
  parse_entry w Demo.entry_untitled = Ok None.
Proof. vm_compute. repeat split. Qed.



(** Failures with deliveries between them: the fourth failure ends the run
    before the eighth article. *)
Lemma exception_cnt_never_reset_witness :
  let w := Demo.world 10 Demo.steady Demo.no_feed Demo.falters in
  let l := [Demo.a1; Demo.a2; Demo.a3; Demo.a4; Demo.a5; Demo.a6; Demo.a7; Demo.a8] in
  let st := main_loop w l (start Demo.empty_store) in
  exception_cnt (process_news w Demo.a1 (start Demo.empty_store))
    <> exception_cnt (start Demo.empty_store) /\
  (exists message,
     trace (process_news w Demo.a1 (start Demo.empty_store)) = [SendFailed Demo.a1 message]) /\
  deliveries (trace st) = 3 /\
  exception_cnt st = failures (trace st) /\
  exception_cnt st = 4 /\
  main_loop w (l ++ [Demo.a1]) (start Demo.empty_store) = st /\
  exists tr n message,
    (uncaught st = None /\
     trace st = tr ++ [SendFailed n message; Alert (BOT_ADMIN w) (alert_text message)]) \/
    (exists reason, uncaught st = Some reason /\ trace st = tr ++ [SendFailed n message]).
Proof.
  intros w l st.
  assert (exception_cnt (process_news w Demo.a1 (start Demo.empty_store))
          <> exception_cnt (start Demo.empty_store)) as H1 by (vm_compute; discriminate).
  assert (exception_cnt st = 4) as H4 by (vm_compute; reflexivity).
  destruct (exception_cnt_never_reset w) as (_ & E2 & E3).
  destruct (E3 l Demo.empty_store) as (Hc & _ & Hab).
  split; [exact H1|]. split; [|split; [vm_compute; reflexivity|split; [exact Hc|split; [exact H4|]]]].
  - destruct (E2 Demo.a1 (start Demo.empty_store) H1) as (message & Htr & _).
    exists message. exact Htr.
  - exact (conj (proj1 (Hab H4) _) (proj2 (Hab H4))).
Defined.

Local Close Scope Z_scope.

(** * Further properties of the program *)

(** ** The checksum is made of hexadecimal digits *)

Lemma length_le_bytes count x : length (MD5.le_bytes count x) = count.
Proof. unfold MD5.le_bytes. now rewrite length_map, length_seq. Qed.

Lemma le_bytes_small count x : Forall (fun b => (b < 256)%N) (MD5.le_bytes count x).
Proof.
  unfold MD5.le_bytes. apply Forall_forall. intros b Hb.
  apply list_elem_of_In, in_map_iff in Hb as (i & <- & _).
  apply N.mod_lt. discriminate.
Qed.

Lemma hex_digit_is_hex x : (x < 16)%N -> is_hex_digit (MD5.hex_digit x) = true.
Proof.
  intros H.
  assert (In x [0; 1; 2; 3; 4; 5; 6; 7; 8; 9; 10; 11; 12; 13; 14; 15]%N) as Hin.
  { assert (exists k, (k < 16)%nat /\ x = N.of_nat k) as (k & Hk & ->).
    { exists (N.to_nat x). split; [lia | now rewrite N2Nat.id]. }
    do 16 (destruct k as [|k]; [simpl; tauto|]). lia. }
  simpl in Hin.
  repeat (destruct Hin as [<-|Hin]; [reflexivity|]). destruct Hin.
Qed.

Lemma length_hex bs : String.length (MD5.hex bs) = 2 * length bs.
Proof. induction bs as [|b bs IH]; simpl; [reflexivity|]. rewrite IH. lia. Qed.

Lemma hex_is_hex bs :
  Forall (fun b => (b < 256)%N) bs ->
  Str.has (fun c => negb (is_hex_digit c)) (MD5.hex bs) = false.
Proof.
  induction 1 as [|b bs Hb _ IH]; [reflexivity|].
  cbn [MD5.hex Str.has]. rewrite IH.
  rewrite !hex_digit_is_hex; [reflexivity| |].
  - apply N.mod_lt. discriminate.
  - apply N.Div0.div_lt_upper_bound. exact Hb.
Qed.

Lemma hexdigest_is_hex s :
  String.length (MD5.hexdigest s) = 32 /\
  Str.has (fun c => negb (is_hex_digit c)) (MD5.hexdigest s) = false.
Proof.
  unfold MD5.hexdigest, MD5.digest. split.
  - rewrite length_hex, !length_app, !length_le_bytes. reflexivity.
  - apply hex_is_hex. repeat (apply Forall_app; split); apply le_bytes_small.
Qed.

(** ** Cleaning an address twice *)

Lemma lower_char_twice c : Str.lower_char (Str.lower_char c) = Str.lower_char c.
Proof. destruct c as [[] [] [] [] [] [] [] []]; reflexivity. Qed.

Lemma lower_twice s : Str.lower (Str.lower s) = Str.lower s.
Proof. induction s as [|c s IH]; simpl; [reflexivity|]. now rewrite lower_char_twice, IH. Qed.

Lemma rstrip_cons c s :
  Str.rstrip (String c s)
  = match Str.rstrip s with
    | EmptyString => if Str.isspace c then EmptyString else String c EmptyString
    | r => String c r
    end.
Proof. reflexivity. Qed.

Lemma rstrip_twice s : Str.rstrip (Str.rstrip s) = Str.rstrip s.
Proof.
  induction s as [|c s IH]; [reflexivity|].
  rewrite (rstrip_cons c s).
  destruct (Str.rstrip s) as [|d r] eqn:E.
  - destruct (Str.isspace c) eqn:Ec; [reflexivity|]. simpl. now rewrite Ec.
  - rewrite rstrip_cons, IH. reflexivity.
Qed.

(** What starts with a character that is not white space still does after
    [rstrip]. *)
Lemma rstrip_head c s :
  Str.isspace c = false -> exists r, Str.rstrip (String c s) = String c r.
Proof.
  intros Hc. simpl. destruct (Str.rstrip s); [rewrite Hc|]; eauto.
Qed.

Lemma lstrip_head s :
  Str.lstrip s = EmptyString \/
  exists c r, Str.lstrip s = String c r /\ Str.isspace c = false.
Proof.
  induction s as [|c s IH]; simpl; [now left|].
  destruct (Str.isspace c) eqn:E; [exact IH|]. right. eauto.
Qed.

Lemma strip_twice s : Str.strip (Str.strip s) = Str.strip s.
Proof.
  unfold Str.strip. destruct (lstrip_head s) as [->|(c & r & -> & Hc)]; [reflexivity|].
  destruct (rstrip_head c r Hc) as [r' Hr]. rewrite Hr.
  cbn [Str.lstrip]. rewrite Hc, <- Hr. apply rstrip_twice.
Qed.

Lemma clean_url_twice l : clean_url (clean_url l) = clean_url l.
Proof.
  unfold clean_url. now rewrite <- lower_strip, strip_twice, lower_twice.
Qed.

(** ** What the matcher looks at *)

Lemma rest_of_refl s : rest_of s s.
Proof. now exists EmptyString. Qed.

Lemma rest_of_tail c t s : rest_of (String c t) s -> rest_of t s.
Proof.
  intros [pre ->]. exists (pre +:+ String c EmptyString).
  induction pre as [|a pre IH]; str_simpl; [reflexivity | now rewrite IH].
Qed.

Lemma rest_of_trans u t s : rest_of u t -> rest_of t s -> rest_of u s.
Proof.
  intros [p1 ->] [p2 ->]. exists (p2 +:+ p1).
  induction p2 as [|a p2 IH]; str_simpl; [reflexivity | now rewrite IH].
Qed.

Lemma rest_of_has f t s : rest_of t s -> Str.has f s = false -> Str.has f t = false.
Proof.
  intros [pre ->]. induction pre as [|a pre IH]; str_simpl; [auto|].
  intros H. apply orb_false_iff in H as [_ H]. auto.
Qed.

(** The matcher calls its continuation on what is left of the input only:
    when the continuation fails there, there is no match. *)
Lemma rep_fails {A} g f (k : @Re.cont A) s : forall lo hi prev n,
  (forall p t m, rest_of t s -> k p t m = None) ->
  Re.rep g f lo hi prev s n k = None.
Proof.
  induction s as [|c s IH]; intros lo hi prev n Hk.
  - simpl. destruct lo; [apply Hk, rest_of_refl | reflexivity].
  - cbn [Re.rep].
    assert (match lo with O => k prev (String c s) n | S _ => None end = None) as Hstop.
    { destruct lo; [apply Hk, rest_of_refl | reflexivity]. }
    rewrite Hstop.
    destruct (f c && Re.more hi); [|reflexivity].
    rewrite IH.
    + now destruct g.
    + intros p t m Ht. apply Hk. destruct Ht as [pre ->]. now exists (String c pre).
Qed.

Lemma run_fails {A} r : forall (k : @Re.cont A) prev s n,
  (forall p t m, rest_of t s -> k p t m = None) ->
  Re.run r prev s n k = None.
Proof.
  induction r as [|f|r1 IH1 r2 IH2|r1 IH1 r2 IH2|g f lo hi|]; intros k prev s n Hk; cbn [Re.run].
  - apply Hk, rest_of_refl.
  - destruct s as [|c s]; [reflexivity|]. destruct (f c); [|reflexivity].
    apply Hk. now exists (String c EmptyString).
  - apply IH1. intros p t m Ht. apply IH2. intros p' t' m' Ht'.
    apply Hk. now apply (rest_of_trans t' t s).
  - now rewrite IH1, IH2.
  - now apply rep_fails.
  - destruct (xorb _ _); [apply Hk, rest_of_refl | reflexivity].
Qed.

(** Where the pattern matches nowhere, [re.sub] changes nothing. *)
Lemma sub_from_same r repl s : forall prev,
  (forall p c t, rest_of (String c t) s -> Re.match_len r p (String c t) = None) ->
  Re.sub_from r repl prev 0 s = s.
Proof.
  induction s as [|c s IH]; intros prev H; [reflexivity|].
  cbn [Re.sub_from]. rewrite (H prev c s (rest_of_refl _)).
  rewrite IH; [reflexivity|].
  intros p d t Ht. apply H. destruct Ht as [pre ->]. now exists (String c pre).
Qed.

(** Every match of the tag pattern starts with [<] or [&]. *)
Lemma html_match_start prev c s :
  Re.only "<" c || Re.only "&" c = false ->
  Re.match_len regex_html prev (String c s) = None.
Proof.
  intros H. apply orb_false_iff in H as [H1 H2].
  unfold Re.match_len, regex_html. cbn [Re.run].
  rewrite !run_chr, H1, H2. reflexivity.
Qed.

(** Every match of the link pattern holds a dot. *)
Lemma link_match_dot prev s :
  Str.has (Re.only ".") s = false -> Re.match_len regex_link prev s = None.
Proof.
  intros H. unfold Re.match_len, regex_link.
  rewrite run_seq. apply run_fails. intros p1 t1 m1 H1. cbn beta.
  rewrite run_seq. apply run_fails. intros p2 t2 m2 H2. cbn beta.
  rewrite run_seq. apply run_fails. intros p3 t3 m3 H3. cbn beta.
  rewrite run_seq.
  assert (Str.has (Re.only ".") t3 = false) as Ht.
  { apply (rest_of_has _ t3 s); [|exact H].
    eapply rest_of_trans; [exact H3|]. eapply rest_of_trans; [exact H2 | exact H1]. }
  destruct t3 as [|c t3]; [reflexivity|].
  rewrite run_chr. simpl in Ht. apply orb_false_iff in Ht as [-> _]. reflexivity.
Qed.

(** ** Where a match ends *)

(** A match consumes a prefix of the input and hands what is left to the
    continuation, with the count moved by the length of the prefix. *)
Lemma rep_sound {A} g f (k : @Re.cont A) v s : forall lo hi prev n,
  Re.rep g f lo hi prev s n k = Some v ->
  exists pre t p,
    s = pre +:+ t /\ Str.has (fun c => negb (f c)) pre = false /\
    lo <= String.length pre /\ k p t (n + String.length pre) = Some v.
Proof.
  induction s as [|c s IH]; intros lo hi prev n H.
  - simpl in H. destruct lo; [|discriminate].
    exists EmptyString, EmptyString, prev. rewrite Nat.add_0_r. auto.
  - cbn [Re.rep] in H.
    assert (match lo with O => k prev (String c s) n | S _ => None end = Some v ->
            exists pre t p,
              String c s = pre +:+ t /\ Str.has (fun c => negb (f c)) pre = false /\
              lo <= String.length pre /\ k p t (n + String.length pre) = Some v) as Hstop.
    { destruct lo; [|discriminate]. intros Hk.
      exists EmptyString, (String c s), prev. rewrite Nat.add_0_r. auto. }
    destruct (f c) eqn:Hf; [|now apply Hstop].
    destruct (Re.more hi); [|now apply Hstop]. cbn [andb] in H.
    assert (Re.rep g f (Nat.pred lo) (Re.dec hi) (Some c) s (S n) k = Some v ->
            exists pre t p,
              String c s = pre +:+ t /\ Str.has (fun c => negb (f c)) pre = false /\
              lo <= String.length pre /\ k p t (n + String.length pre) = Some v) as Hgo.
    { intros Hr. destruct (IH _ _ _ _ Hr) as (pre & t & p & -> & Hpre & Hlo & Hk).
      exists (String c pre), t, p. str_simpl. rewrite Hf, Hpre.
      replace (n + S (String.length pre)) with (S n + String.length pre) by lia.
      repeat split; [lia | exact Hk]. }
    destruct g; unfold Re.or_else in H.
    + destruct (Re.rep true f _ _ _ _ _ _) eqn:E; [injection H as <-|]; auto.
    + destruct (match lo with O => _ | S _ => _ end) eqn:E; [injection H as <-|]; auto.
Qed.

Lemma run_sound {A} r : forall (k : @Re.cont A) v prev s n,
  Re.run r prev s n k = Some v ->
  exists pre t p, s = pre +:+ t /\ k p t (n + String.length pre) = Some v.
Proof.
  induction r as [|f|r1 IH1 r2 IH2|r1 IH1 r2 IH2|g f lo hi|]; intros k v prev s n H;
    cbn [Re.run] in H.
  - exists EmptyString, s, prev. now rewrite Nat.add_0_r.
  - destruct s as [|c s]; [discriminate|]. destruct (f c); [|discriminate].
    exists (String c EmptyString), s, (Some c). simpl.
    now replace (n + 1) with (S n) by lia.
  - destruct (IH1 _ _ _ _ _ H) as (pre1 & t1 & p1 & -> & H1).
    destruct (IH2 _ _ _ _ _ H1) as (pre2 & t2 & p2 & -> & H2).
    exists (pre1 +:+ pre2), t2, p2. split.
    + clear. induction pre1 as [|a pre1 IH]; str_simpl; [reflexivity | now rewrite IH].
    + rewrite str_length_app, Nat.add_assoc. exact H2.
  - unfold Re.or_else in H. destruct (Re.run r1 prev s n k) eqn:E.
    + injection H as <-. eauto.
    + eauto.
  - destruct (rep_sound _ _ _ _ _ _ _ _ _ H) as (pre & t & p & Hs & _ & _ & Hk). eauto.
  - destruct (xorb _ _); [|discriminate].
    exists EmptyString, s, prev. now rewrite Nat.add_0_r.
Qed.

Lemma substring_app pre mid t :
  String.substring (String.length pre) (String.length mid) (pre +:+ (mid +:+ t)) = mid.
Proof.
  induction pre as [|a pre IH]; str_simpl; [|exact IH].
  induction mid as [|b mid IH]; str_simpl; [now destruct t | now rewrite IH].
Qed.

(** What [extract_domain] finds is a run of characters of the address
    without a slash and with one character at least. *)
Lemma extract_domain_found url :
  extract_domain url = "anonymous" \/
  (extract_domain url <> EmptyString /\
   Str.has (Re.only "/") (extract_domain url) = false).
Proof.
  unfold extract_domain.
  destruct (Re.run _ None url 0 _) as [domain|] eqn:E; [right | now left].
  apply run_sound in E as (pre & t & p & -> & E). cbn beta in E.
  apply (rep_sound true) in E as (mid & t' & p' & -> & Hmid & Hlen & E).
  injection E as <-. simpl.
  replace (String.length pre + String.length mid - String.length pre)
    with (String.length mid) by lia.
  rewrite substring_app. split.
  - intros ->. simpl in Hlen. lia.
  - revert Hmid. clear. induction mid as [|c mid IH]; simpl; [reflexivity|].
    intros H. apply orb_false_iff in H as [H1 H2].
    rewrite negb_involutive in H1. unfold Re.only at 1. rewrite H1. now apply IH.
Qed.

Lemma run_lit_fails {A} lit_text : forall prev s n (k : @Re.cont A),
  String.prefix lit_text s = false -> Re.run (Re.lit lit_text) prev s n k = None.
Proof.
  induction lit_text as [|a p IH]; intros prev s n k H.
  - now rewrite prefix_nil in H.
  - cbn [Re.lit]. rewrite run_seq. destruct s as [|c s]; [reflexivity|].
    rewrite run_chr. rewrite prefix_cons in H. unfold Re.only.
    destruct (Ascii.eqb c a); [|reflexivity]. now apply IH.
Qed.

Lemma run_lit_app {A} lit_text : forall prev s n (k : @Re.cont A),
  exists p, Re.run (Re.lit lit_text) prev (lit_text +:+ s) n k
            = k p s (n + String.length lit_text).
Proof.
  induction lit_text as [|a l IH]; intros prev s n k.
  - exists prev. str_simpl. now rewrite Nat.add_0_r.
  - cbn [Re.lit]. rewrite run_seq, str_app_cons, run_chr.
    unfold Re.only. rewrite Ascii.eqb_refl.
    destruct (IH (Some a) s (S n) k) as [p ->]. exists p.
    f_equal. simpl. lia.
Qed.

(** A greedy run of a class takes all of [host] when what follows is not
    of the class and the continuation accepts. *)
Lemma rep_greedy_all {A} f (g : nat -> A) host rest : forall lo prev n,
  Str.has (fun c => negb (f c)) host = false ->
  lo <= String.length host ->
  (rest = EmptyString \/ exists c r, rest = String c r /\ f c = false) ->
  Re.rep true f lo None prev (host +:+ rest) n (fun _ _ m => Some (g m))
  = Some (g (n + String.length host)).
Proof.
  induction host as [|c host IH]; intros lo prev n Hall Hlo Hrest.
  - simpl in Hlo. assert (lo = 0) as -> by lia. str_simpl.
    rewrite Nat.add_0_r. destruct Hrest as [->|(c & r & -> & Hc)]; [reflexivity|].
    cbn [Re.rep]. now rewrite Hc.
  - str_simpl. cbn [Re.rep]. simpl in Hall. apply orb_false_iff in Hall as [Hc Hall].
    apply negb_false_iff in Hc. rewrite Hc. cbn [andb Re.more Re.dec].
    rewrite (IH (Nat.pred lo) (Some c) (S n) Hall); [|simpl in Hlo; lia | exact Hrest].
    simpl. f_equal. f_equal. lia.
Qed.

Lemma prefix_inside p : forall h rest,
  String.prefix p (h +:+ rest) = true ->
  (rest = EmptyString \/ exists c r, rest = String c r /\ Str.has (Re.only c) p = false) ->
  String.prefix p h = true.
Proof.
  induction p as [|a p IH]; intros h rest H Hrest; [apply prefix_nil|].
  destruct h as [|b h].
  - rewrite str_app_nil in H. destruct Hrest as [->|(c & r & -> & Hc)]; [discriminate|].
    rewrite prefix_cons in H. simpl in Hc. unfold Re.only at 1 in Hc.
    apply orb_false_iff in Hc as [Hc _]. apply andb_true_iff in H as [H _].
    apply Ascii.eqb_eq in H. subst. now rewrite Ascii.eqb_refl in Hc.
  - rewrite str_app_cons, prefix_cons in H. rewrite prefix_cons.
    apply andb_true_iff in H as [-> H]. simpl. apply (IH h rest H).
    destruct Hrest as [->|(c & r & -> & Hc)]; [now left|]. right. exists c, r.
    simpl in Hc. apply orb_false_iff in Hc as [_ Hc]. auto.
Qed.

Lemma run_opt {A} r prev s n (k : @Re.cont A) :
  Re.run (Re.opt r) prev s n k = Re.or_else (Re.run r prev s n k) (k prev s n).
Proof. reflexivity. Qed.

(** The group of the pattern of [extract_domain] on an address whose host
    starts at position [n]. *)
Lemma domain_capture url pre host rest n p :
  url = pre +:+ (host +:+ rest) -> n = String.length pre ->
  host <> EmptyString -> Str.has (Re.only "/") host = false ->
  (rest = EmptyString \/ exists r, rest = String "/" r) ->
  Re.run (Re.Rep true (fun c => negb (Ascii.eqb c "/")) 1 None) p (host +:+ rest) n
    (fun _ _ n2 => Some (String.substring n (n2 - n) url))
  = Some host.
Proof.
  intros -> -> Hne Hs Hrest. cbn [Re.run].
  rewrite (rep_greedy_all _ (fun n2 => String.substring (String.length pre)
             (n2 - String.length pre) (pre +:+ (host +:+ rest)))).
  - f_equal.
    replace (String.length pre + String.length host - String.length pre)
      with (String.length host) by lia.
    apply substring_app.
  - clear -Hs. induction host as [|c host IH]; simpl in *; [reflexivity|].
    apply orb_false_iff in Hs as [H1 H2]. unfold Re.only in H1.
    rewrite H1. simpl. auto.
  - destruct host; [congruence | simpl; lia].
  - destruct Hrest as [->|[r ->]]; [now left|]. right. eauto.
Qed.

(** ** The checksum and the address *)

(** X1. The checksum of every link is a string of 32 lower-case hexadecimal
    digits; in particular it holds no quote, which the query of [main] that
    looks the checksum up relies on. *)
Theorem checksum_is_hex (inputLink : string) :
  String.length (make_checksum inputLink) = 32 /\
  Str.has (fun c => negb (is_hex_digit c)) (make_checksum inputLink) = false /\
  Str.has (Re.only "'") (make_checksum inputLink) = false.
Proof.
  unfold make_checksum.
  destruct (hexdigest_is_hex (clean_url inputLink)) as [Hlen Hhex].
  split; [exact Hlen | split; [exact Hhex|]].
  apply (has_weaken (Re.only "'") (fun c => negb (is_hex_digit c))); [|exact Hhex].
  intros c H. unfold Re.only in H. apply Ascii.eqb_eq in H. subst c. reflexivity.
Qed.

(** X2. Cleaning an address that is already clean changes nothing, so the
    address shown in the link of an article has the checksum of the article. *)
Theorem clean_url_round_trip (inputLink : string) :
  clean_url (clean_url inputLink) = clean_url inputLink /\
  make_checksum (clean_url inputLink) = make_checksum inputLink.
Proof.
  split; [apply clean_url_twice|].
  unfold make_checksum. now rewrite clean_url_twice.
Qed.

(** ** Text the cleaning leaves alone *)

(** X3. [remove_html] only strips a text that has no [<] and no [&]. *)
Theorem remove_html_plain (inputText : string) :
  Str.has (fun c => Re.only "<" c || Re.only "&" c) inputText = false ->
  remove_html inputText = Str.strip inputText.
Proof.
  intros H. unfold remove_html, Re.sub. apply sub_from_same.
  intros p c t Ht. apply html_match_start.
  assert (Str.has (fun c => Re.only "<" c || Re.only "&" c) (String c t) = false) as H'.
  { apply (rest_of_has _ _ _ Ht). eapply subseq_has; [apply subseq_strip | exact H]. }
  simpl in H'. now apply orb_false_iff in H' as [H' _].
Qed.

(** X4. [remove_links] only strips a text that has no dot. *)
Theorem remove_links_plain (inputText : string) :
  Str.has (Re.only ".") inputText = false ->
  remove_links inputText = Str.strip inputText.
Proof.
  intros H. unfold remove_links, Re.sub. apply sub_from_same.
  intros p c t Ht. apply link_match_dot.
  apply (rest_of_has _ _ _ Ht). eapply subseq_has; [apply subseq_strip | exact H].
Qed.

(** X5. The two cleaning passes only delete: what they return is the input
    with some characters left out, in the same order, and is never longer. *)
Theorem cleaning_only_deletes (content : string) :
  Str.subseq (remove_links (remove_html content)) content /\
  String.length (remove_links (remove_html content)) <= String.length content.
Proof.
  assert (Str.subseq (remove_links (remove_html content)) content) as H.
  { unfold remove_links, remove_html, Re.sub.
    eapply subseq_trans; [apply subseq_sub|].
    eapply subseq_trans; [apply subseq_strip|].
    eapply subseq_trans; [apply subseq_sub | apply subseq_strip]. }
  split; [exact H | now apply subseq_length].
Qed.

(** ** The domain of an address *)

(** X6. [extract_domain] never returns the empty string nor a string with a
    slash, and it returns "anonymous" for an address that does not start
    with "http". *)
Theorem extract_domain_shape (url : string) :
  extract_domain url <> EmptyString /\
  Str.has (Re.only "/") (extract_domain url) = false /\
  (String.prefix "http" url = false -> extract_domain url = "anonymous").
Proof.
  repeat split.
  - destruct (extract_domain_found url) as [->|[H _]]; [discriminate | exact H].
  - destruct (extract_domain_found url) as [->|[_ H]]; [reflexivity | exact H].
  - intros H. unfold extract_domain. rewrite run_seq, run_lit_fails; [reflexivity | exact H].
Qed.

(** X7. For an address made of "http" or "https", "://", an optional "www.",
    a host without a slash and nothing or a path after it, [extract_domain]
    returns the host. *)
Theorem extract_domain_host (s www host rest : string) :
  s = "s" \/ s = EmptyString ->
  www = "www." \/ (www = EmptyString /\ String.prefix "www." host = false) ->
  host <> EmptyString -> Str.has (Re.only "/") host = false ->
  rest = EmptyString \/ (exists r, rest = String "/" r) ->
  extract_domain ("http" +:+ s +:+ "://" +:+ www +:+ host +:+ rest) = host.
Proof.
  intros Hs Hw Hne Hslash Hrest. unfold extract_domain.
  set (url := "http" +:+ s +:+ "://" +:+ www +:+ host +:+ rest).
  assert (forall pre n p, url = pre +:+ (host +:+ rest) -> n = String.length pre ->
            Re.run (Re.Rep true (fun c => negb (Ascii.eqb c "/")) 1 None) p (host +:+ rest) n
              (fun _ _ n2 => Some (String.substring n (n2 - n) url)) = Some host) as Hcap.
  { intros pre n p Hu Hn. now apply (domain_capture url pre host rest n p). }
  assert (String.prefix "www." host = false -> String.prefix "www." (host +:+ rest) = false)
    as Hnowww.
  { intros H. destruct (String.prefix "www." (host +:+ rest)) eqn:E; [|reflexivity].
    rewrite <- H. symmetry. apply (prefix_inside _ _ _ E).
    destruct Hrest as [->|[r ->]]; [now left|]. right. eauto. }
  enough (Re.run
            (Re.Seq (Re.lit "http") (Re.Seq (Re.opt (Re.chr "s"))
               (Re.Seq (Re.lit "://") (Re.opt (Re.lit "www.")))))
            None url 0
            (fun p s1 n1 =>
               Re.run (Re.Rep true (fun c => negb (Ascii.eqb c "/")) 1 None) p s1 n1
                 (fun _ _ n2 => Some (String.substring n1 (n2 - n1) url)))
          = Some host) as -> by reflexivity.
  rewrite run_seq. unfold url at 1.
  destruct (run_lit_app "http" None (s +:+ "://" +:+ www +:+ host +:+ rest) 0
              (fun p s' n' => Re.run (Re.Seq (Re.opt (Re.chr "s"))
                 (Re.Seq (Re.lit "://") (Re.opt (Re.lit "www.")))) p s' n'
                 (fun p s1 n1 =>
                    Re.run (Re.Rep true (fun c => negb (Ascii.eqb c "/")) 1 None) p s1 n1
                      (fun _ _ n2 => Some (String.substring n1 (n2 - n1) url)))))
    as [p0 ->].
  rewrite run_seq, run_opt.
  assert (forall p n, n = String.length ("http" +:+ s) ->
            Re.run (Re.Seq (Re.lit "://") (Re.opt (Re.lit "www."))) p
              ("://" +:+ www +:+ host +:+ rest) n
              (fun p s1 n1 =>
                 Re.run (Re.Rep true (fun c => negb (Ascii.eqb c "/")) 1 None) p s1 n1
                   (fun _ _ n2 => Some (String.substring n1 (n2 - n1) url)))
            = Some host) as Htail.
  { intros p n Hn. rewrite run_seq.
    destruct (run_lit_app "://" p (www +:+ host +:+ rest) n
                (fun p s' n' => Re.run (Re.opt (Re.lit "www.")) p s' n'
                   (fun p s1 n1 =>
                      Re.run (Re.Rep true (fun c => negb (Ascii.eqb c "/")) 1 None) p s1 n1
                        (fun _ _ n2 => Some (String.substring n1 (n2 - n1) url)))))
      as [p1 ->].
    rewrite run_opt. destruct Hw as [->|[-> Hw]].
    - destruct (run_lit_app "www." p1 (host +:+ rest) (n + String.length "://")
                  (fun p s1 n1 =>
                     Re.run (Re.Rep true (fun c => negb (Ascii.eqb c "/")) 1 None) p s1 n1
                       (fun _ _ n2 => Some (String.substring n1 (n2 - n1) url))))
        as [p2 ->].
      rewrite (Hcap ("http" +:+ s +:+ "://www.")); [reflexivity | |].
      + unfold url. destruct Hs as [->| ->]; reflexivity.
      + subst n. destruct Hs as [->| ->]; reflexivity.
    - rewrite str_app_nil, run_lit_fails by now apply Hnowww.
      cbn [Re.or_else].
      apply (Hcap ("http" +:+ s +:+ "://")).
      + unfold url. destruct Hs as [->| ->]; reflexivity.
      + subst n. destruct Hs as [->| ->]; reflexivity. }
  destruct Hs as [->| ->].
  - rewrite str_app_cons, str_app_nil, run_chr. cbn [Re.only Ascii.eqb].
    change (Ascii.eqb "s" "s") with true. cbn iota.
    rewrite Htail; reflexivity.
  - rewrite str_app_nil, str_app_cons, run_chr.
    change (Re.only "s" ":") with false. cbn iota. cbn [Re.or_else].
    apply Htail. reflexivity.
Qed.

Local Open Scope Z_scope.

(** ** From an entry to an article *)

(** What [create_article] needs to build an article, and what it builds. *)
Lemma create_article_inv w (e : entry) ck ak dk a :
  create_article w e ck ak dk = Ok (Some a) ->
  exists l t c d dt,
    e !! "link" = Some l /\ e !! "title" = Some t /\ e !! ck = Some c /\
    (10 < String.length (remove_links (remove_html c)))%nat /\
    is_text (por (por (e !! dk) (e !! "published")) (e !! "updated")) d /\
    dateutil_parse w d = Some dt /\
    a = {| title := Str.strip (if (2 <? String.length t)%nat then t else "No title");
           date := dt;
           author := Str.strip (if truthy (e !! ak) then default EmptyString (e !! ak)
                                else extract_domain l);
           summary := make_summary (remove_links (remove_html c));
           link := "[" +:+ Str.strip (if (2 <? String.length t)%nat then t else "No title")
                   +:+ "](" +:+ clean_url l +:+ ")";
           checksum := make_checksum l |}.
Proof.
  unfold create_article, create_article_try, extract_feed_content, log_link, getitem,
    NewsFromFeed_init.
  destruct (e !! "link") as [l|]; simpl; [|discriminate].
  destruct (e !! ck) as [[|c0 c]|]; simpl; try discriminate.
  destruct (10 <? String.length (remove_links (remove_html (String c0 c))))%nat eqn:Hlen;
    simpl; [|discriminate].
  destruct (remove_links (remove_html (String c0 c))) as [|x xs] eqn:Hclean;
    simpl; [discriminate|].
  destruct (e !! "title") as [t|];
    [|destruct (truthy (e !! ak)); simpl; discriminate].
  intros H. exists l, t, (String c0 c). rewrite Hclean.
  apply Nat.ltb_lt in Hlen.
  destruct (truthy (e !! ak)); simpl in H;
    destruct (por _ _) as [[|d0 d]|]; simpl in H; try discriminate;
    destruct (dateutil_parse w (String d0 d)) as [dt|] eqn:Hdt; simpl in H;
      try discriminate;
    injection H as <-; exists (String d0 d), dt;
    (repeat split; [exact Hlen | discriminate | exact Hdt]).
Qed.

Lemma first_article_inv w (e : entry) a keys :
  first_article w e keys = Ok (Some a) ->
  exists ck ak dk, In (ck, ak, dk) keys /\ create_article w e ck ak dk = Ok (Some a).
Proof.
  induction keys as [|[[ck ak] dk] keys IH]; simpl; [discriminate|].
  destruct (create_article w e ck ak dk) as [[b|]|] eqn:E; simpl; [| |discriminate].
  - destruct (log_link e); simpl; [|discriminate].
    intros H. injection H as <-. exists ck, ak, dk. auto.
  - destruct (log_link e); simpl; [|discriminate].
    intros H. destruct (IH H) as (ck' & ak' & dk' & Hin & Hc). eauto 8.
Qed.

Lemma parse_entry_inv w (e : entry) a :
  parse_entry w e = Ok (Some a) ->
  exists ck ak dk,
    In (ck, ak, dk) candidate_keys /\ create_article w e ck ak dk = Ok (Some a).
Proof.
  unfold parse_entry. destruct (log_link e); [|discriminate].
  unfold mbind, result_bind. apply first_article_inv.
Qed.

(** ** The entries of all sources *)

Lemma parse_entries_omap w es : forall acc,
  Forall (fun e : entry => is_Some (e !! "link")) es ->
  parse_entries w es acc = Ok (acc ++ omap (entry_article w) es).
Proof.
  induction es as [|e es IH]; intros acc Hall; simpl.
  - now rewrite app_nil_r.
  - inversion Hall as [|? ? [l Hl] Hrest]; subst.
    unfold entry_article at 1.
    destruct (parse_entry_returns w e l Hl) as [[a|] ->]; simpl.
    + rewrite IH by assumption. now rewrite <- app_assoc.
    + now apply IH.
Qed.

(** [parse_news] in one piece: it raises when an entry has no link, and
    else sorts the articles of the entries. *)
Lemma parse_news_cases w urls_list :
  let es := concat (fetched_feeds w urls_list) in
  (Forall (fun e : entry => is_Some (e !! "link")) es /\
   parse_news w urls_list = Ok (sorted_by_date (omap (entry_article w) es))) \/
  (Exists (fun e : entry => e !! "link" = None) es /\
   parse_news w urls_list = Raise (KeyError "link")).
Proof.
  intros es. unfold parse_news. fold es.
  assert (Forall (fun e : entry => is_Some (e !! "link")) es \/
          Exists (fun e : entry => e !! "link" = None) es) as [Hall|Hex].
  { clear. induction es as [|e es [IH|IH]]; [left; constructor | |right; now constructor].
    destruct (e !! "link") eqn:E; [left | right]; constructor; eauto. }
  - left. split; [exact Hall|]. now rewrite parse_entries_omap.
  - right. split; [exact Hex|]. now rewrite parse_entries_raises.
Qed.

Lemma fetched_feeds_app w urls1 urls2 :
  fetched_feeds w (urls1 ++ urls2) = fetched_feeds w urls1 ++ fetched_feeds w urls2.
Proof.
  induction urls1 as [|u urls1 IH]; simpl; [reflexivity|].
  destruct (fetch_feed w u) as [[|e es]|]; simpl; now rewrite IH.
Qed.

(** The entries of the sources, in another order of the sources. *)
Lemma fetched_entries_perm w urls1 urls2 :
  urls1 ≡ₚ urls2 ->
  concat (fetched_feeds w urls1) ≡ₚ concat (fetched_feeds w urls2).
Proof.
  induction 1 as [|u l1 l2 H IH|u v l|l1 l2 l3 H1 IH1 H2 IH2]; simpl.
  - reflexivity.
  - destruct (fetch_feed w u) as [[|e es]|]; simpl; rewrite ?IH; reflexivity.
  - destruct (fetch_feed w u) as [[|e es]|], (fetch_feed w v) as [[|e' es']|]; simpl;
      try reflexivity.
    rewrite !app_comm_cons, !app_assoc. apply Permutation_app_tail.
    change (e :: es ++ e' :: es') with ((e :: es) ++ (e' :: es')).
    change (e' :: es' ++ e :: es) with ((e' :: es') ++ (e :: es)).
    apply Permutation_app_comm.
  - now rewrite IH1.
Qed.

Lemma fetched_feeds_source w urls feed :
  feed ∈ fetched_feeds w urls -> exists u, u ∈ urls /\ fetch_feed w u = Some feed.
Proof.
  induction urls as [|u urls IH]; simpl; [intros H; inversion H|].
  destruct (fetch_feed w u) as [[|e es]|] eqn:E.
  - intros H. destruct (IH H) as (v & Hv & Hf). exists v. split; [now right | exact Hf].
  - intros H. apply elem_of_cons in H as [->|H].
    + exists u. split; [now left | exact E].
    + destruct (IH H) as (v & Hv & Hf). exists v. split; [now right | exact Hf].
  - intros H. destruct (IH H) as (v & Hv & Hf). exists v. split; [now right | exact Hf].
Qed.

Lemma length_omap_le {A B} (f : A -> option B) l : (length (omap f l) <= length l)%nat.
Proof. induction l as [|a l IH]; csimpl; [lia|]. destruct (f a); csimpl; lia. Qed.

(** The article [create_article] returns for an entry that has all it
    needs. *)
Lemma create_article_make w (e : entry) ck ak dk l t c d dt :
  e !! "link" = Some l -> e !! "title" = Some t -> e !! ck = Some c ->
  (10 < String.length (remove_links (remove_html c)))%nat ->
  is_text (por (por (e !! dk) (e !! "published")) (e !! "updated")) d ->
  dateutil_parse w d = Some dt ->
  create_article w e ck ak dk
  = Ok (Some
      {| title := Str.strip (if (2 <? String.length t)%nat then t else "No title");
         date := dt;
         author := Str.strip (if truthy (e !! ak) then default EmptyString (e !! ak)
                              else extract_domain l);
         summary := make_summary (remove_links (remove_html c));
         link := "[" +:+ Str.strip (if (2 <? String.length t)%nat then t else "No title")
                 +:+ "](" +:+ clean_url l +:+ ")";
         checksum := make_checksum l |}).
Proof.
  intros Hl Ht Hc Hlen [Hd Hdne] Hparse.
  unfold create_article, create_article_try.
  rewrite (log_link_some e l Hl). simpl.
  unfold extract_feed_content. rewrite Hc.
  apply Nat.ltb_lt in Hlen.
  destruct c as [|c0 c']; [vm_compute in Hlen; discriminate|].
  rewrite Hlen. simpl.
  destruct (remove_links (remove_html (String c0 c'))) as [|x xs] eqn:Hclean;
    [simpl in Hlen; discriminate|].
  unfold getitem. rewrite Hl, Ht.
  destruct (truthy (e !! ak)); simpl; rewrite Hd;
    (destruct d as [|d0 d']; [congruence|]);
    unfold NewsFromFeed_init; rewrite Hparse; reflexivity.
Qed.

(** X8. [create_article] returns an article exactly when the entry has a
    link, a title, content under the content key that is longer than ten
    characters once cleaned, and a date that parses under the date key or,
    failing that, under "published" or "updated".  The title is the field
    when it has more than two characters and "No title" otherwise, the
    author is the field under the author key when it is not empty and the
    domain of the link otherwise, both stripped; the summary, the link and
    the checksum come from the content and the link. *)
Theorem create_article_spec (w : World) (e : entry) (ck ak dk : string)
    (a : NewsFromFeed) :
  create_article w e ck ak dk = Ok (Some a) <->
  exists l t c d dt,
    e !! "link" = Some l /\ e !! "title" = Some t /\ e !! ck = Some c /\
    (10 < String.length (remove_links (remove_html c)))%nat /\
    is_text (por (por (e !! dk) (e !! "published")) (e !! "updated")) d /\
    dateutil_parse w d = Some dt /\
    a = {| title := Str.strip (if (2 <? String.length t)%nat then t else "No title");
           date := dt;
           author := Str.strip (if truthy (e !! ak) then default EmptyString (e !! ak)
                                else extract_domain l);
           summary := make_summary (remove_links (remove_html c));
           link := "[" +:+ Str.strip (if (2 <? String.length t)%nat then t else "No title")
                   +:+ "](" +:+ clean_url l +:+ ")";
           checksum := make_checksum l |}.
Proof.
  split; [apply create_article_inv|].
  intros (l & t & c & d & dt & Hl & Ht & Hc & Hlen & Hd & Hparse & ->).
  now apply (create_article_make w e ck ak dk l t c d dt).
Qed.

(** X9. The order of the sources does not change what [parse_news] finds:
    with the sources in another order it raises the same exception, or
    returns the same articles, possibly in another order. *)
Theorem parse_news_source_order (w : World) (urls1 urls2 : list string) :
  urls1 ≡ₚ urls2 ->
  match parse_news w urls1, parse_news w urls2 with
  | Ok l1, Ok l2 => l1 ≡ₚ l2
  | Raise e1, Raise e2 => e1 = e2
  | _, _ => False
  end.
Proof.
  intros Hperm. pose proof (fetched_entries_perm w _ _ Hperm) as Hes.
  destruct (parse_news_cases w urls1) as [[Hall1 ->]|[Hex1 ->]];
    destruct (parse_news_cases w urls2) as [[Hall2 ->]|[Hex2 ->]].
  - rewrite !sorted_by_date_perm. now rewrite Hes.
  - rewrite <- Hes in Hex2. apply Exists_exists in Hex2 as (e & Hin & Hno).
    rewrite Forall_forall in Hall1. destruct (Hall1 e Hin) as [l Hl]. congruence.
  - rewrite Hes in Hex1. apply Exists_exists in Hex1 as (e & Hin & Hno).
    rewrite Forall_forall in Hall2. destruct (Hall2 e Hin) as [l Hl]. congruence.
  - reflexivity.
Qed.

(** X10. Every article [parse_news] returns was built by [create_article]
    from an entry of a source of the list, under one of the three
    candidates, and carries the checksum of the link of that entry; there
    are no more articles than entries. *)
Theorem parse_news_provenance (w : World) (urls_list : list string)
    (l : list NewsFromFeed) :
  parse_news w urls_list = Ok l ->
  (length l <= length (concat (fetched_feeds w urls_list)))%nat /\
  forall a, a ∈ l ->
    exists u es (e : entry) lk ck ak dk,
      u ∈ urls_list /\ fetch_feed w u = Some es /\ e ∈ es /\
      e !! "link" = Some lk /\ In (ck, ak, dk) candidate_keys /\
      create_article w e ck ak dk = Ok (Some a) /\
      checksum a = make_checksum lk.
Proof.
  intros H. destruct (parse_news_cases w urls_list) as [[Hall Hp]|[_ Hp]];
    rewrite Hp in H; [|discriminate].
  injection H as <-. split.
  - rewrite (Permutation_length (sorted_by_date_perm _)). apply length_omap_le.
  - intros a Ha. rewrite sorted_by_date_perm in Ha.
    apply list_elem_of_omap in Ha as (e & He & Hart).
    unfold entry_article in Hart.
    destruct (parse_entry w e) as [r|] eqn:Hpe; [subst r | discriminate].
    destruct (parse_entry_inv w e a Hpe) as (ck & ak & dk & Hkeys & Hc).
    destruct (create_article_inv w e ck ak dk a Hc) as (lk & t & c & d & dt & Hl & _ & _ & _ & _ & _ & Ha).
    apply list_elem_of_In, in_concat in He as (es & Hes & He).
    apply list_elem_of_In in Hes. apply list_elem_of_In in He.
    destruct (fetched_feeds_source w urls_list es Hes) as (u & Hu & Hf).
    exists u, es, e, lk, ck, ak, dk. repeat split; try assumption.
    now rewrite Ha.
Qed.

(** X11. A source that cannot be fetched, or that has no entry, is passed
    over: the result is that of the list without it. *)
Theorem parse_news_skips_unavailable (w : World) (urls1 urls2 : list string)
    (url : string) :
  fetch_feed w url = None \/ fetch_feed w url = Some [] ->
  parse_news w (urls1 ++ url :: urls2) = parse_news w (urls1 ++ urls2).
Proof.
  intros H. unfold parse_news. rewrite !fetched_feeds_app. simpl.
  now destruct H as [-> | ->].
Qed.

(** ** What a run leaves behind *)

Lemma recorded_app tr1 tr2 : recorded (tr1 ++ tr2) = recorded tr1 ++ recorded tr2.
Proof.
  induction tr1 as [|[n p|n m|n p|ch t] tr1 IH]; simpl; try exact IH; [reflexivity| |].
  - now rewrite IH.
  - destruct (is_format_error m); simpl; now rewrite IH.
Qed.

Lemma handled_articles_app tr1 tr2 :
  handled_articles (tr1 ++ tr2) = handled_articles tr1 ++ handled_articles tr2.
Proof.
  induction tr1 as [|[n p|n m|n p|ch t] tr1 IH]; simpl; try exact IH; try reflexivity;
    now rewrite IH.
Qed.

Section Effects.
Variable w : World.

Lemma grown_step urls rows n st :
  grown urls rows st -> grown urls rows (process_news w n st).
Proof.
  unfold grown. intros H.
  destruct (process_news_outcome w n st) as [| | | |message called]; simpl; try exact H.
  - rewrite recorded_app. destruct (dryRun w); simpl.
    + now rewrite app_nil_r.
    + unfold insert_news. rewrite H. simpl. now rewrite app_assoc.
  - rewrite recorded_app. simpl. destruct (is_format_error message); simpl.
    + unfold insert_news. rewrite H. simpl. now rewrite app_assoc.
    + now rewrite app_nil_r.
Qed.

Lemma grown_alert urls rows st : grown urls rows st -> grown urls rows (send_alert w st).
Proof.
  unfold grown. intros H. rewrite send_alert_db.
  destruct (send_alert_trace w st) as [-> | ->]; [exact H|].
  rewrite recorded_app. simpl. now rewrite app_nil_r.
Qed.

Lemma grown_loop urls rows l : forall st,
  grown urls rows st -> grown urls rows (main_loop w l st).
Proof.
  induction l as [|n l IH]; intros st H; simpl; [exact H|].
  apply (grown_step _ _ n) in H.
  destruct (_ >? 3); [now apply grown_alert|].
  destruct (_ >=? _); [exact H | now apply IH].
Qed.

Lemma grown_start store : grown (feeds store) (news store) (start store).
Proof. unfold grown. destruct store. simpl. now rewrite app_nil_r. Qed.

(** ** A dry run *)

Lemma dry_step store n st :
  dryRun w = true -> dry w store st -> dry w store (process_news w n st).
Proof.
  intros Hdry (Hdb & Hbot & Hexc & Hlog & Hcnt).
  destruct (process_news_outcome w n st) as [| | | |message called ? ? ? Hnot];
    try (repeat split; assumption).
  - unfold dry, on_success. rewrite Hdry. simpl. repeat split; try assumption.
    + apply Forall_app. split; [exact Hlog|]. repeat constructor. now exists n.
    + rewrite length_app. simpl. lia.
  - congruence.
Qed.

Lemma dry_loop store l : forall st,
  dryRun w = true -> dry w store st -> dry w store (main_loop w l st).
Proof.
  induction l as [|n l IH]; intros st Hdry H; simpl; [exact H|].
  apply (dry_step store n st Hdry) in H.
  destruct (_ >? 3) eqn:E.
  { destruct H as (_ & _ & Hexc & _). rewrite Hexc in E. discriminate. }
  destruct (_ >=? _); [exact H | now apply IH].
Qed.

(** ** The order and the number of the events *)

Lemma handled_step n st :
  exists hs, (hs = [] \/ hs = [n]) /\
    handled_articles (trace (process_news w n st)) = handled_articles (trace st) ++ hs.
Proof.
  destruct (process_news_outcome w n st) as [| | | |message called]; simpl;
    try (exists []; split; [now left | now rewrite app_nil_r]).
  - exists [n]. split; [now right|]. rewrite handled_articles_app.
    now destruct (dryRun w).
  - exists [n]. split; [now right|]. now rewrite handled_articles_app.
Qed.

Lemma handled_alert st :
  handled_articles (trace (send_alert w st)) = handled_articles (trace st).
Proof.
  destruct (send_alert_trace w st) as [-> | ->]; [reflexivity|].
  rewrite handled_articles_app. simpl. now rewrite app_nil_r.
Qed.

Lemma handled_loop l : forall st,
  exists sl, sl `sublist_of` l /\
    handled_articles (trace (main_loop w l st)) = handled_articles (trace st) ++ sl.
Proof.
  induction l as [|n l IH]; intros st; simpl.
  { exists []. split; [constructor | now rewrite app_nil_r]. }
  destruct (handled_step n st) as (hs & Hhs & Hstep).
  assert (hs `sublist_of` n :: l) as Hsub.
  { destruct Hhs as [-> | ->]; [apply sublist_nil_l|].
    apply sublist_skip, sublist_nil_l. }
  destruct (_ >? 3).
  { exists hs. split; [exact Hsub|]. now rewrite handled_alert. }
  destruct (_ >=? _); [exists hs; now split|].
  destruct (IH (process_news w n st)) as (sl & Hsl & Hloop).
  exists (hs ++ sl). split.
  - destruct Hhs as [-> | ->]; simpl; [now apply sublist_cons | now apply sublist_skip].
  - now rewrite Hloop, Hstep, app_assoc.
Qed.

(** One step: at most one event, two readings of the clock, and a call of
    the bot only with an event. *)
Lemma effects_step n st :
  let st' := process_news w n st in
  (length (trace st') <= length (trace st) + 1)%nat /\
  (clock_reads st' <= clock_reads st + 2)%nat /\
  (bot_calls st' + length (trace st) <= bot_calls st + length (trace st'))%nat /\
  (length (trace st) <= length (trace st'))%nat.
Proof.
  destruct (process_news_outcome w n st) as [| | | |message called]; simpl;
    rewrite ?length_app; simpl; try lia;
    try (destruct (dryRun w); simpl; lia); destruct called; lia.
Qed.

(** The alert: one call of the bot, with its event when the call returns
    and with the exception when it raises. *)
Lemma effects_alert st :
  uncaught st = None ->
  let st' := send_alert w st in
  clock_reads st' = clock_reads st /\
  (length (trace st) <= length (trace st'))%nat /\
  (bot_calls st' + length (trace st)
   = bot_calls st + length (trace st') + pending st')%nat /\
  (length (trace st') + pending st' <= length (trace st) + 1)%nat /\
  (alerts (trace st') = alerts (trace st) -> trace st' = trace st).
Proof.
  intros Hun. unfold send_alert, pending. destruct (dryRun w); simpl.
  { rewrite Hun. repeat split; lia. }
  destruct (send_message _ _ _ _); simpl; [repeat split; lia|].
  rewrite Hun, length_app, alerts_app. simpl. repeat split; lia.
Qed.

Lemma effects_loop l : forall st,
  uncaught st = None ->
  let st' := main_loop w l st in
  (length (trace st') + pending st' <= length (trace st) + length l + 1)%nat /\
  (clock_reads st' <= clock_reads st + 2 * length l)%nat /\
  (bot_calls st' + length (trace st)
   <= bot_calls st + length (trace st') + pending st')%nat /\
  (length (trace st) <= length (trace st'))%nat /\
  (alerts (trace st') = alerts (trace st) ->
   (length (trace st') <= length (trace st) + length l)%nat).
Proof.
  induction l as [|n l IH]; intros st Hun; simpl.
  { unfold pending. rewrite Hun. repeat split; lia. }
  pose proof (effects_step n st) as (H1 & H2 & H3 & H4).
  pose proof (alerts_step w n st) as Hal.
  pose proof (uncaught_step w n st) as Hun'. rewrite Hun in Hun'.
  destruct (_ >? 3).
  { destruct (effects_alert (process_news w n st) Hun') as (A1 & A2 & A3 & A4 & A5).
    repeat split; try lia. intros Ha. rewrite Hal in A5. rewrite (A5 Ha). lia. }
  destruct (_ >=? _).
  { unfold pending. rewrite Hun'. repeat split; lia. }
  destruct (IH (process_news w n st) Hun') as (I1 & I2 & I3 & I4 & I5).
  repeat split; lia.
Qed.

(** A run over articles that are all in the store already. *)
Lemma main_loop_all_seen l : forall store,
  Forall (fun a => news_exists store (checksum a) = true) l ->
  main_loop w l (start store) = start store.
Proof.
  induction l as [|n l IH]; intros store Hall; simpl; [reflexivity|].
  inversion Hall as [|? ? Hn Hrest]; subst.
  rewrite (process_news_seen w n (start store) Hn). simpl.
  destruct (0 >=? NEWS_COUNT w); [reflexivity | now apply IH].
Qed.

End Effects.

Lemma forall_sublist {A} (P : A -> Prop) l1 l2 :
  l1 `sublist_of` l2 -> Forall P l2 -> Forall P l1.
Proof.
  induction 1 as [|x l1 l2 Hsub IH|x l1 l2 Hsub IH]; intros H; [constructor| |];
    inversion H; subst; [constructor|]; auto.
Qed.

Lemma sorted_sublist {A} (R : A -> A -> Prop) l1 l2 :
  l1 `sublist_of` l2 -> StronglySorted R l2 -> StronglySorted R l1.
Proof.
  induction 1 as [|x l1 l2 Hsub IH|x l1 l2 Hsub IH]; intros Hs.
  - constructor.
  - apply StronglySorted_inv in Hs as [Hs Hx]. constructor; [now apply IH|].
    now apply (forall_sublist _ l1 l2).
  - apply StronglySorted_inv in Hs as [Hs _]. now apply IH.
Qed.

Lemma delivered_recorded n p tr : In (Delivered n p) tr -> In (date n, checksum n) (recorded tr).
Proof.
  induction tr as [|[n' p'|n' m|n' p'|ch t] tr IH]; simpl; [tauto| | | |].
  - intros [H|H]; [injection H as -> _; now left | right; auto].
  - intros [H|H]; [discriminate|]. destruct (is_format_error m); [right|]; auto.
  - intros [H|H]; [discriminate | auto].
  - intros [H|H]; [discriminate | auto].
Qed.

(** X12. A run never removes or changes a row and never touches the
    sources: the store it leaves is the store it found followed by one row
    for each delivery and each failure of the format class, in the order of
    the events.  So every article a run delivered is found by the look-up of
    the runs that follow. *)
Theorem run_store_grows (w : World) (store : Store) :
  (forall l,
     let st := main_loop w l (start store) in
     db st = {| feeds := feeds store; news := news store ++ recorded (trace st) |}) /\
  store_after store (main w store)
  = {| feeds := feeds store; news := news store ++ recorded (events (main w store)) |} /\
  (forall n p, In (Delivered n p) (events (main w store)) ->
     news_exists (store_after store (main w store)) (checksum n) = true).
Proof.
  assert (forall l, db (main_loop w l (start store))
            = {| feeds := feeds store;
                 news := news store ++ recorded (trace (main_loop w l (start store))) |}) as Hloop.
  { intros l. apply (grown_loop w (feeds store) (news store) l), grown_start. }
  assert (store_after store (main w store)
          = {| feeds := feeds store;
               news := news store ++ recorded (events (main w store)) |}) as Hmain.
  { unfold main. destruct (parse_news w (feeds store)) as [l|e]; simpl.
    - destruct (uncaught (main_loop w l (start store))); apply Hloop.
    - destruct store. simpl. now rewrite app_nil_r. }
  split; [exact Hloop | split; [exact Hmain|]].
  intros n p Hin. rewrite Hmain. unfold news_exists. simpl.
  apply existsb_exists. exists (date n, checksum n). split.
  - apply in_or_app. right. now apply (delivered_recorded n p).
  - simpl. apply String.eqb_refl.
Qed.

(** X13. A dry run writes nothing and sends nothing: the store is the one
    it found, the bot is never called, no failure is counted, and every
    event is the log of the message of an article, each counted as a
    delivery. *)
Theorem dry_run_touches_nothing (w : World) (store : Store) :
  dryRun w = true ->
  (forall l,
     let st := main_loop w l (start store) in
     db st = store /\ bot_calls st = 0%nat /\ exception_cnt st = 0 /\
     Forall (fun ev => exists n, ev = Logged n (telegram_payload w n)) (trace st) /\
     news_cnt st = Z.of_nat (length (trace st))) /\
  store_after store (main w store) = store.
Proof.
  intros Hdry.
  assert (forall l, dry w store (main_loop w l (start store))) as H.
  { intros l. apply dry_loop; [exact Hdry|]. repeat split. constructor. }
  split; [exact H|].
  unfold main. destruct (parse_news w (feeds store)) as [l|e]; simpl; [|reflexivity].
  destruct (uncaught (main_loop w l (start store))); apply (H l).
Qed.

(** X14. A run goes through the articles in the order [parse_news] gave
    them: the articles of its deliveries, failures and logs are a part of
    that list in the order of the list, hence from the newest to the
    oldest.  This holds for a call of [main] that returns and for one that
    the exception of the alert ends. *)
Theorem run_in_order (w : World) (store : Store) (st : RunState) :
  main w store = Returned st \/
  (exists reason, uncaught st = Some reason /\
                  main w store = Raised (Exception reason) st) ->
  exists l,
    parse_news w (feeds store) = Ok l /\
    handled_articles (trace st) `sublist_of` l /\
    StronglySorted newer_or_equal (handled_articles (trace st)).
Proof.
  unfold main, parse_news.
  destruct (parse_entries w _ []) as [news_list|e]; simpl.
  - intros H. exists (sorted_by_date news_list).
    assert (st = main_loop w (sorted_by_date news_list) (start store)) as ->.
    { destruct (uncaught (main_loop w (sorted_by_date news_list) (start store)));
        destruct H as [H|(reason & _ & H)]; congruence. }
    destruct (handled_loop w (sorted_by_date news_list) (start store)) as (sl & Hsl & ->).
    simpl. split; [reflexivity|]. split; [exact Hsl|].
    apply (sorted_sublist _ _ _ Hsl), sorted_by_date_sorted.
  - intros [H|(reason & Hun & H)]; [discriminate|].
    injection H as _ <-. discriminate.
Qed.

(** X15. A run over a list of articles has at most one event for each of
    them and one more for the alert, and reads the clock at most twice for
    each.  It calls the bot at most once for each event, and once more when
    the call of the alert raised, which leaves no event: at most once for
    each article and once for the alert. *)
Theorem run_effects_bounded (w : World) (l : list NewsFromFeed) (store : Store) :
  let st := main_loop w l (start store) in
  (length (trace st) <= length l + 1)%nat /\
  (alerts (trace st) = 0 -> (length (trace st) <= length l)%nat) /\
  (clock_reads st <= 2 * length l)%nat /\
  (bot_calls st <= length (trace st) + pending st)%nat /\
  (uncaught st = None -> bot_calls st <= length (trace st))%nat /\
  (bot_calls st <= length l + 1)%nat.
Proof.
  intros st. destruct (effects_loop w l (start store) eq_refl) as (H1 & H2 & H3 & _ & H5).
  fold st in H1, H2, H3, H5. simpl in *.
  repeat split; try lia.
  intros Hun. unfold pending in H3. rewrite Hun in H3. lia.
Qed.

(** X16. A run whose articles are all in the store already does nothing:
    no event, no reading of the clock, no call of the bot, the store as it
    was. *)
Theorem run_all_seen_silent (w : World) (store : Store) (l : list NewsFromFeed) :
  parse_news w (feeds store) = Ok l ->
  Forall (fun a => news_exists store (checksum a) = true) l ->
  main w store = Returned (start store).
Proof.
  intros Hp Hall. unfold main. rewrite Hp. simpl.
  now rewrite main_loop_all_seen.
Qed.

(** ** The table of the sources *)

Lemma feed_exists_elem store url : feed_exists store url = true <-> url ∈ feeds store.
Proof.
  unfold feed_exists. rewrite existsb_exists. split.
  - intros (x & Hin & Heq). apply String.eqb_eq in Heq. subst x. now apply list_elem_of_In.
  - intros H. exists url. split; [now apply list_elem_of_In | apply String.eqb_refl].
Qed.

Lemma feed_exists_not store url : feed_exists store url = false <-> url ∉ feeds store.
Proof.
  rewrite <- feed_exists_elem. destruct (feed_exists store url); split; congruence.
Qed.

(** What one call of [add_feed_if_not_duplicate] does. *)
Lemma add_feed_cases valid_xml url store :
  (feed_exists store url = false /\ valid_xml url = true /\
   add_feed_if_not_duplicate valid_xml url store = (insert_feed store url, true)) \/
  ((feed_exists store url = true \/ valid_xml url = false) /\
   add_feed_if_not_duplicate valid_xml url store = (store, false)).
Proof.
  unfold add_feed_if_not_duplicate.
  destruct (feed_exists store url); [right; auto|].
  destruct (valid_xml url); [left; auto | right; auto].
Qed.

(** The loop of the import: the sources it adds come after those of the
    store, each is an address of the document that was valid and new, and
    the count moves by their number. *)
Lemma opml_import_loop_spec valid_xml outlines : forall store imported,
  exists added,
    opml_import_loop valid_xml outlines store imported
    = ({| feeds := feeds store ++ added; news := news store |},
       imported + Z.of_nat (length added)) /\
    (length added <= length outlines)%nat /\
    Forall (fun u => Some u ∈ outlines /\ u <> EmptyString /\
                     valid_xml u = true /\ u ∉ feeds store) added /\
    (NoDup (feeds store) -> NoDup (feeds store ++ added)) /\
    (forall u, Some u ∈ outlines -> u <> EmptyString ->
       u ∈ feeds store ++ added \/ valid_xml u = false).
Proof.
  induction outlines as [|o outlines IH]; intros store imported.
  - exists []. simpl. rewrite app_nil_r, Z.add_0_r. destruct store.
    repeat split; auto. intros u Hu. inversion Hu.
  - assert (forall store imported, (o = None \/ o = Some EmptyString) -> exists added,
              opml_import_loop valid_xml (o :: outlines) store imported
              = ({| feeds := feeds store ++ added; news := news store |},
                 imported + Z.of_nat (length added)) /\
              (length added <= length (o :: outlines))%nat /\
              Forall (fun u => Some u ∈ o :: outlines /\ u <> EmptyString /\
                               valid_xml u = true /\ u ∉ feeds store) added /\
              (NoDup (feeds store) -> NoDup (feeds store ++ added)) /\
              (forall u, Some u ∈ o :: outlines -> u <> EmptyString ->
                 u ∈ feeds store ++ added \/ valid_xml u = false)) as Hskip.
    { intros s i Ho. destruct (IH s i) as (added & Heq & Hlen & Hall & Hnd & Hcov).
      exists added. split; [|split; [|split; [|split]]].
      - destruct Ho as [-> | ->]; exact Heq.
      - simpl. lia.
      - eapply Forall_impl; [exact Hall|]. intros u (H1 & H0 & H2 & H3).
        repeat split; [now right | exact H0 | exact H2 | exact H3].
      - exact Hnd.
      - intros u Hu Hne. apply elem_of_cons in Hu as [Hu|Hu]; [|now apply Hcov].
        destruct Ho as [-> | ->]; congruence. }
    destruct o as [[|c u]|]; [apply Hskip; auto | | apply Hskip; auto].
    clear Hskip. cbn [opml_import_loop].
    destruct (add_feed_cases valid_xml (String c u) store)
      as [(Hnew & Hvalid & ->)|(Hno & ->)].
    + destruct (IH (insert_feed store (String c u)) (imported + 1))
        as (added & Heq & Hlen & Hall & Hnd & Hcov).
      exists (String c u :: added). simpl in Heq, Hnd, Hcov.
      rewrite <- app_assoc in Heq, Hnd, Hcov. simpl in Heq, Hnd, Hcov.
      apply feed_exists_not in Hnew.
      split; [|split; [|split; [|split]]].
      * rewrite Heq. f_equal. simpl length. lia.
      * simpl. lia.
      * constructor; [repeat split; [now left | discriminate | exact Hvalid | exact Hnew]|].
        eapply Forall_impl; [exact Hall|]. intros v (H1 & H0 & H2 & H3).
        repeat split; [now right | exact H0 | exact H2|].
        intros Hin. apply H3. simpl. apply elem_of_app. now left.
      * intros H. apply Hnd. apply NoDup_app. split; [exact H|]. split.
        -- intros x Hx Hx'. apply list_elem_of_singleton in Hx'. now subst.
        -- apply NoDup_singleton.
      * intros v Hv Hne. apply elem_of_cons in Hv as [Hv|Hv]; [|now apply Hcov].
        injection Hv as ->. left. apply elem_of_app. right. now left.
    + destruct (IH store imported) as (added & Heq & Hlen & Hall & Hnd & Hcov).
      exists added. split; [|split; [|split; [|split]]].
      * exact Heq.
      * simpl. lia.
      * eapply Forall_impl; [exact Hall|]. intros v (H1 & H0 & H2 & H3).
        repeat split; [now right | exact H0 | exact H2 | exact H3].
      * exact Hnd.
      * intros v Hv Hne. apply elem_of_cons in Hv as [Hv|Hv]; [|now apply Hcov].
        injection Hv as ->. destruct Hno as [Hno|Hno]; [|now right].
        left. apply elem_of_app. left. now apply feed_exists_elem.
Qed.

(** An import that finds every address in the store, or not valid, does
    nothing. *)
Lemma opml_import_loop_nothing valid_xml outlines : forall store imported,
  (forall u, Some u ∈ outlines -> u <> EmptyString ->
     u ∈ feeds store \/ valid_xml u = false) ->
  opml_import_loop valid_xml outlines store imported = (store, imported).
Proof.
  induction outlines as [|o outlines IH]; intros store imported H; [reflexivity|].
  assert (opml_import_loop valid_xml outlines store imported = (store, imported)) as Hrest.
  { apply IH. intros u Hu. apply H. now right. }
  destruct o as [[|c u]|]; [exact Hrest | | exact Hrest].
  cbn [opml_import_loop].
  destruct (add_feed_cases valid_xml (String c u) store)
    as [(Hnew & Hvalid & _)|(_ & ->)]; [|exact Hrest].
  apply feed_exists_not in Hnew.
  destruct (H (String c u)) as [Hin|Hinv]; [now left | discriminate | tauto | congruence].
Qed.

(** X17. [add_feed_if_not_duplicate] answers [True] exactly when the
    address is not in the table yet and is valid, and then adds it at the
    end; otherwise the store is unchanged.  It never touches the news and
    keeps a table without duplicates free of them. *)
Theorem add_feed_no_duplicate (valid_xml : string -> bool) (feed_url : string)
    (store : Store) :
  let r := add_feed_if_not_duplicate valid_xml feed_url store in
  (snd r = true <-> (feed_url ∉ feeds store) /\ valid_xml feed_url = true) /\
  (snd r = true -> feeds (fst r) = feeds store ++ [feed_url]) /\
  (snd r = false -> fst r = store) /\
  news (fst r) = news store /\
  (NoDup (feeds store) -> NoDup (feeds (fst r))).
Proof.
  intros r. subst r.
  destruct (add_feed_cases valid_xml feed_url store)
    as [(Hnew & Hvalid & ->)|(Hno & ->)]; simpl.
  - apply feed_exists_not in Hnew. repeat split; auto; try discriminate.
    intros H. apply NoDup_app. split; [exact H|]. split; [|apply NoDup_singleton].
    intros x Hx Hx'. apply list_elem_of_singleton in Hx'. now subst.
  - repeat split; auto; try discriminate.
    intros [Hnew Hvalid]. apply feed_exists_not in Hnew.
    destruct Hno; congruence.
Qed.

(** X18. [opml_import_xmlfeeds] returns the number of sources it added.
    They come after the sources of the store, each is an address of the
    document that is not empty, is valid and was not in the store, none is
    added twice, and the news are not touched. *)
Theorem opml_import_counts (valid_xml : string -> bool)
    (outlines : list (option string)) (store : Store) :
  let r := opml_import_xmlfeeds valid_xml outlines store in
  exists added,
    feeds (fst r) = feeds store ++ added /\
    snd r = Z.of_nat (length added) /\
    snd r <= Z.of_nat (length outlines) /\
    news (fst r) = news store /\
    Forall (fun u => Some u ∈ outlines /\ u <> EmptyString /\
                     valid_xml u = true /\ u ∉ feeds store) added /\
    (NoDup (feeds store) -> NoDup (feeds (fst r))).
Proof.
  intros r. subst r. unfold opml_import_xmlfeeds.
  destruct (opml_import_loop_spec valid_xml outlines store 0)
    as (added & -> & Hlen & Hall & Hnd & _).
  exists added. simpl. repeat split; auto. lia.
Qed.

(** X19. Importing the same document again, with the same addresses valid,
    adds nothing and returns zero. *)
Theorem opml_import_twice (valid_xml : string -> bool)
    (outlines : list (option string)) (store : Store) :
  let r := opml_import_xmlfeeds valid_xml outlines store in
  opml_import_xmlfeeds valid_xml outlines (fst r) = (fst r, 0).
Proof.
  intros r. subst r. unfold opml_import_xmlfeeds.
  destruct (opml_import_loop_spec valid_xml outlines store 0)
    as (added & -> & _ & _ & _ & Hcov).
  simpl. now apply opml_import_loop_nothing.
Qed.

(** ** The preparation of the store *)

(** X20. After [prepare_db] the table of the sources is never empty: sources
    that were there are kept as they are, and a missing or empty table
    holds the default sources.  The rows of the news are kept, and
    preparing a prepared store changes nothing. *)
Theorem prepare_db_bootstrap (file : Database) :
  let store := prepare_db file in
  feeds store <> [] /\
  (forall u l, feeds_table file = Some (u :: l) -> feeds store = u :: l) /\
  (feeds_table file = None \/ feeds_table file = Some [] -> feeds store = default_urls) /\
  news store = create_table (news_table file) /\
  prepare_db (database_of store) = store.
Proof.
  intros store. subst store. unfold prepare_db.
  destruct file as [nt [[|u l]|]]; simpl;
    (split; [discriminate|]); (split; [intros ? ? H; congruence|]);
    (split; [try reflexivity; intros [H|H]; discriminate|]);
    split; reflexivity.
Qed.

(** ** The removal of old rows *)

(** The condition in instants: a row is old when its date is before the
    midnight that starts the day [days] days before the day of the clock of
    sqlite, for a number of days that is not negative. *)
Lemma old_news_spec today days d :
  old_news today days d = true <-> 0 <= days /\ d < timedelta_days (today - days).
Proof.
  unfold old_news, sqlite_date, day_of, timedelta_days.
  destruct (days <? 0) eqn:E; zbool.
  - split; [discriminate | lia].
  - rewrite Z.ltb_lt. split.
    + intros H. split; [lia|].
      destruct (Z_lt_le_dec d ((today - days) * 86400000000)) as [Hlt|Hle]; [exact Hlt|].
      pose proof (Z.div_le_lower_bound d (1 * 86400000000) (today - days)) as Hdiv. lia.
    + intros [_ H]. apply Z.div_lt_upper_bound; lia.
Qed.

Lemma filter_all {A} (P : A -> Prop) `{forall x, Decision (P x)} (l : list A) :
  (forall x, x ∈ l -> P x) -> filter P l = l.
Proof.
  induction l as [|x l IH]; intros Hall; [reflexivity|].
  rewrite filter_cons_True by (apply Hall; now left).
  rewrite IH; [reflexivity|]. intros y Hy. apply Hall. now right.
Qed.

Lemma filter_none {A} (P : A -> Prop) `{forall x, Decision (P x)} (l : list A) :
  (forall x, x ∈ l -> ~ P x) -> filter P l = [].
Proof.
  induction l as [|x l IH]; intros Hall; [reflexivity|].
  rewrite filter_cons_False by (apply Hall; now left).
  apply IH. intros y Hy. apply Hall. now right.
Qed.

(** Of two conditions of which the first holds only where the second does
    not, the rows of the first and the rows of the second are no more than
    all rows. *)
Lemma filter_disjoint_length {A} (P Q : A -> Prop)
    `{forall x, Decision (P x)} `{forall x, Decision (Q x)} (l : list A) :
  (forall x, P x -> ~ Q x) ->
  (length (filter P l) + length (filter Q l) <= length l)%nat.
Proof.
  intros Hpq. induction l as [|x l IH]; [reflexivity|].
  rewrite !filter_cons. destruct (decide (P x)) as [Hp|Hp], (decide (Q x)) as [Hq|Hq];
    simpl; try lia.
  destruct (Hpq x Hp Hq).
Qed.

(** X21. [remove_old_news] leaves the sources alone.  With a number of
    days that is not negative it keeps, in their order, the rows dated at
    or after the midnight that starts the day so many days before the day
    of the clock of sqlite (a row of that midnight itself is kept), and
    returns the number of rows dated before that midnight; with a negative
    number it removes nothing and returns zero.  The number returned is
    never more than the number of rows removed when the day does not go
    back between the two statements, and is that number when the day is
    the same; removing again on that day removes nothing more. *)
Theorem remove_old_news_prunes (w : World) (MAX_NEWS_AGE : option Z)
    (today_select today_delete : Z) (max_days : Z) (store : Store) :
  let days :=
    if max_days =? -1 then get_max_news_days_from_env w MAX_NEWS_AGE else max_days in
  let r := remove_old_news w MAX_NEWS_AGE (old_news today_select) (old_news today_delete)
             max_days store in
  feeds (fst r) = feeds store /\
  news (fst r) `sublist_of` news store /\
  (0 <= days ->
     news (fst r)
     = filter (fun row : news_row => timedelta_days (today_delete - days) <= fst row)
         (news store) /\
     snd r
     = Z.of_nat (length (filter (fun row : news_row =>
                                   fst row < timedelta_days (today_select - days))
                           (news store))) /\
     forall c, (timedelta_days (today_delete - days), c) ∈ news store ->
               (timedelta_days (today_delete - days), c) ∈ news (fst r)) /\
  (days < 0 -> r = (store, 0)) /\
  (today_select <= today_delete ->
     snd r + Z.of_nat (length (news (fst r))) <= Z.of_nat (length (news store))) /\
  (today_select = today_delete ->
     snd r + Z.of_nat (length (news (fst r))) = Z.of_nat (length (news store)) /\
     remove_old_news w MAX_NEWS_AGE (old_news today_select) (old_news today_delete)
       max_days (fst r) = (fst r, 0)).
Proof.
  intros days r. subst r. unfold remove_old_news. fold days. cbn [fst snd feeds news].
  split; [reflexivity|]. split; [apply sublist_filter|].
  assert (forall today (row : news_row),
            old_news today days row.1 = false <->
            ~ (0 <= days /\ row.1 < timedelta_days (today - days))) as Hnot.
  { intros today row. rewrite <- old_news_spec.
    destruct (old_news today days row.1); split; congruence. }
  split; [|split; [|split]].
  - intros Hpos.
    assert (filter (fun row : news_row => old_news today_delete days row.1 = false)
              (news store)
            = filter (fun row : news_row => timedelta_days (today_delete - days) <= row.1)
                (news store)) as Hkept.
    { apply list_filter_iff. intros row. rewrite Hnot. lia. }
    split; [exact Hkept|]. split.
    + do 2 f_equal. apply list_filter_iff. intros row. rewrite old_news_spec. lia.
    + intros c Hc. rewrite Hkept. apply list_elem_of_filter. split; [simpl; lia | exact Hc].
  - intros Hneg. f_equal.
    + destruct store as [fs ns]. simpl. f_equal.
      apply filter_all. intros row _. apply Hnot. lia.
    + rewrite filter_none; [reflexivity|]. intros row _. rewrite old_news_spec. lia.
  - intros Hday.
    pose proof (filter_disjoint_length
                  (fun row : news_row => old_news today_select days row.1 = true)
                  (fun row : news_row => old_news today_delete days row.1 = false)
                  (news store)) as Hlen.
    assert (forall row : news_row,
              old_news today_select days row.1 = true ->
              old_news today_delete days row.1 <> false) as Hpq.
    { intros row Hsel Hdel. apply Hnot in Hdel. apply old_news_spec in Hsel.
      unfold timedelta_days in *. lia. }
    specialize (Hlen Hpq). lia.
  - intros <-. split.
    + pose proof (Permutation_length
                    (filter_app_complement
                       (fun row : news_row => old_news today_select days row.1 = true)
                       (news store))) as Hp.
      rewrite length_app in Hp.
      rewrite (list_filter_iff
                 (fun row : news_row => old_news today_select days row.1 = false)
                 (fun row : news_row => ~ old_news today_select days row.1 = true)).
      * lia.
      * intros row. destruct (old_news today_select days row.1); split; congruence.
    + f_equal.
      * f_equal. rewrite list_filter_filter. apply list_filter_iff. tauto.
      * rewrite filter_none; [reflexivity|].
        intros row Hrow. apply list_elem_of_filter in Hrow as [Hrow _]. congruence.
Qed.

(** X22. The look-up of [main] remembers a checksum exactly as long as a
    row with it is kept.  When [remove_old_news] has removed the rows of an
    article, a run treats the article as new: it delivers it again when it
    heads the run, lies in the window, and the bot accepts it. *)
Theorem pruned_article_is_new (w w' : World) (MAX_NEWS_AGE : option Z)
    (old_at_select old_at_delete : Z -> datetime -> bool)
    (max_days : Z) (store : Store) (n : NewsFromFeed)
    (rest : list NewsFromFeed) (chat : Z) :
  let days :=
    if max_days =? -1 then get_max_news_days_from_env w MAX_NEWS_AGE else max_days in
  let store' :=
    fst (remove_old_news w MAX_NEWS_AGE old_at_select old_at_delete max_days store) in
  (news_exists store' (checksum n) = true <->
   exists d, (d, checksum n) ∈ news store /\ old_at_delete days d = false) /\
  ((forall d, (d, checksum n) ∈ news store -> old_at_delete days d = true) ->
   datetime_now w' 0 - date n <= timedelta_days 30 ->
   date n <= datetime_now w' 1 ->
   dryRun w' = false -> BOT_TARGET w' = Some chat ->
   send_message w' 0 chat (telegram_payload w' n) = None ->
   In (Delivered n (telegram_payload w' n))
      (trace (main_loop w' (n :: rest) (start store')))).
Proof.
  intros days store'.
  assert (news_exists store' (checksum n) = true <->
          exists d, (d, checksum n) ∈ news store /\ old_at_delete days d = false) as Hiff.
  { unfold news_exists, store', remove_old_news. fold days. cbn [fst news].
    rewrite existsb_exists. split.
    - intros ([d c] & Hin & Heq). simpl in Heq. apply String.eqb_eq in Heq. subst c.
      apply list_elem_of_In, list_elem_of_filter in Hin as [Hdel Hin]. eauto.
    - intros (d & Hin & Hdel). exists (d, checksum n). split; [|apply String.eqb_refl].
      apply list_elem_of_In, list_elem_of_filter. auto. }
  split; [exact Hiff|].
  intros Hgone Ht Hf Hdry Hchat Hsend.
  apply (first_delivered w' n rest store' chat); try assumption.
  destruct (news_exists store' (checksum n)) eqn:E; [|reflexivity].
  destruct (proj1 Hiff eq_refl) as (d & Hin & Hdel).
  rewrite (Hgone d Hin) in Hdel. discriminate.
Qed.

(** ** The list of the sources *)

Lemma length_url_line r :
  String.length (url_line r)
  = (String.length (str_of_int (fst r)) + String.length (snd r) + 3)%nat.
Proof.
  unfold url_line. rewrite !str_length_app. simpl. lia.
Qed.

(** Nothing is lost: the messages, one after the other, are the message
    being filled followed by the lines of the rows. *)
Lemma url_list_joined rows : forall text,
  joined (url_list_loop rows text) = text +:+ joined (map url_line rows).
Proof.
  induction rows as [|r rows IH]; intros text; cbn [url_list_loop map joined].
  - reflexivity.
  - destruct (_ <=? _)%nat; cbn [joined]; rewrite IH; [reflexivity|].
    apply str_app_assoc.
Qed.

(** With rows whose number has at most seven digits and whose address
    leaves room for the ten characters the test adds, no message reaches
    4096 characters and none is empty. *)
Lemma url_list_bounded rows : forall text,
  Forall (fun r : Z * string =>
            (String.length (str_of_int (fst r)) <= 7)%nat /\
            (String.length (snd r) + 10 < 4096)%nat) rows ->
  (String.length text < 4096)%nat ->
  (text <> EmptyString \/ rows <> []) ->
  Forall (fun m => (0 < String.length m < 4096)%nat) (url_list_loop rows text).
Proof.
  induction rows as [|r rows IH]; intros text Hall Hlen Hne; cbn [url_list_loop].
  - constructor; [|constructor]. destruct Hne as [Hne|Hne]; [|congruence].
    destruct text; [congruence | cbn [String.length] in *; lia].
  - inversion Hall as [|? ? [Hd Hu] Hrest]; subst.
    pose proof (length_url_line r) as Hline.
    destruct (4096 <=? _)%nat eqn:E.
    + apply Nat.leb_le in E. constructor.
      * destruct text; cbn [String.length] in *; lia.
      * apply IH; [exact Hrest | lia | left].
        intros H. rewrite H in Hline. simpl in Hline. lia.
    + apply Nat.leb_gt in E. apply IH; [exact Hrest | | left].
      * rewrite str_length_app. lia.
      * intros H. apply (f_equal String.length) in H.
        rewrite str_length_app in H. simpl in H. lia.
Qed.

(** X23. [HandleUrlListMessage] answers the administrator only.  It sends
    the lines of the rows in their order, nothing left out, cut into
    messages; when the number of every row has at most seven digits and
    every address fewer than 4086 characters, every message is shorter than
    4096 characters and none is empty. *)
Theorem url_list_messages (w : World) (from_user : Z) (rows : list (Z * string)) :
  (from_user <> BOT_ADMIN w -> HandleUrlListMessage w from_user rows = []) /\
  (from_user = BOT_ADMIN w -> rows <> [] ->
   exists messages,
     HandleUrlListMessage w from_user rows = map (SendTo from_user) messages /\
     joined messages = joined (map url_line rows) /\
     (Forall (fun r : Z * string =>
                (String.length (str_of_int (fst r)) <= 7)%nat /\
                (String.length (snd r) + 10 < 4096)%nat) rows ->
      Forall (fun m => (0 < String.length m < 4096)%nat) messages)).
Proof.
  unfold HandleUrlListMessage. split.
  - intros H. apply Z.eqb_neq in H. now rewrite H.
  - intros H Hne. apply Z.eqb_eq in H. rewrite H.
    destruct rows as [|r rows]; [congruence|]. cbn [length Nat.ltb Nat.leb].
    exists (url_list_loop (r :: rows) EmptyString). split; [reflexivity|]. split.
    + now rewrite url_list_joined, str_app_nil.
    + intros Hall. apply url_list_bounded; [exact Hall | simpl; lia | now right].
Qed.

(** ** The commands *)

(** The loop of the list of addresses: as for the import, the sources it
    adds come after those of the store, and the count moves by their
    number. *)
Lemma add_csv_loop_spec valid_xml splitCsv : forall store cnt,
  exists added,
    add_csv_loop valid_xml splitCsv store cnt
    = ({| feeds := feeds store ++ added; news := news store |},
       cnt + Z.of_nat (length added)) /\
    (length added <= length splitCsv)%nat /\
    Forall (fun u => (exists piece, piece ∈ splitCsv /\ u = Str.strip piece) /\
                     valid_xml u = true /\ u ∉ feeds store) added /\
    (NoDup (feeds store) -> NoDup (feeds store ++ added)).
Proof.
  induction splitCsv as [|piece splitCsv IH]; intros store cnt.
  - exists []. simpl. rewrite app_nil_r, Z.add_0_r. destruct store. repeat split; auto.
  - cbn [add_csv_loop].
    destruct (add_feed_cases valid_xml (Str.strip piece) store)
      as [(Hnew & Hvalid & ->)|(Hno & ->)].
    + destruct (IH (insert_feed store (Str.strip piece)) (cnt + 1))
        as (added & Heq & Hlen & Hall & Hnd).
      exists (Str.strip piece :: added). simpl in Heq, Hnd.
      rewrite <- app_assoc in Heq, Hnd. simpl in Heq, Hnd.
      apply feed_exists_not in Hnew.
      split; [|split; [|split]].
      * rewrite Heq. f_equal. simpl length. lia.
      * simpl. lia.
      * constructor.
        { split; [exists piece; split; [now left | reflexivity]|]. now split. }
        eapply Forall_impl; [exact Hall|]. intros v ((q & Hq & Hv) & H2 & H3).
        split; [exists q; split; [now right | exact Hv]|]. split; [exact H2|].
        intros Hin. apply H3. simpl. apply elem_of_app. now left.
      * intros H. apply Hnd. apply NoDup_app. split; [exact H|]. split.
        -- intros x Hx Hx'. apply list_elem_of_singleton in Hx'. now subst.
        -- apply NoDup_singleton.
    + destruct (IH store cnt) as (added & Heq & Hlen & Hall & Hnd).
      exists added. split; [exact Heq|]. split; [simpl; lia|]. split; [|exact Hnd].
      eapply Forall_impl; [exact Hall|]. intros v ((q & Hq & Hv) & H2 & H3).
      split; [exists q; split; [now right | exact Hv]|]. now split.
Qed.

(** [int] on decimal digits. *)
Lemma int_from_digits s : forall acc,
  0 <= acc -> Str.has (fun c => negb (Re.digit c)) s = false ->
  exists v, int_from acc s = Some v /\ 0 <= v.
Proof.
  induction s as [|c s IH]; intros acc Hacc H; simpl in *; [eauto|].
  apply orb_false_iff in H as [Hc Hs]. apply negb_false_iff in Hc. rewrite Hc.
  apply IH; [|exact Hs].
  unfold Re.digit, Str.between in Hc. apply andb_true_iff in Hc as [Hlo _].
  apply N.leb_le in Hlo. lia.
Qed.

(** [int] on a string with a character that is not a decimal digit. *)
Lemma int_from_other s : forall acc,
  Str.has (fun c => negb (Re.digit c)) s = true -> int_from acc s = None.
Proof.
  induction s as [|c s IH]; intros acc H; simpl in *; [discriminate|].
  destruct (Re.digit c); simpl in H; [now apply IH | reflexivity].
Qed.

(** ** The options *)

Lemma getopt_flag arg args :
  is_flag arg ->
  getopt (arg :: args) "fdn" ["force"; "dry"; "notr"]
  = match getopt args "fdn" ["force"; "dry"; "notr"] with
    | Some opts => Some (arg :: opts)
    | None => None
    end.
Proof.
  intros [->|[->|[->|[->|[->| ->]]]]]; reflexivity.
Qed.

Lemma getopt_flags flags rest :
  Forall is_flag flags ->
  getopt (flags ++ rest) "fdn" ["force"; "dry"; "notr"]
  = match getopt rest "fdn" ["force"; "dry"; "notr"] with
    | Some opts => Some (flags ++ opts)
    | None => None
    end.
Proof.
  induction 1 as [|arg flags Harg _ IH]; simpl app.
  - now destruct (getopt rest _ _).
  - rewrite (getopt_flag arg _ Harg), IH. now destruct (getopt rest _ _).
Qed.

(** X24. The commands answer the administrator only.  For any other
    sender the handlers of the list, the forced run, the removal of old
    news, the list of addresses and the import send nothing and leave the
    store as it is.  The handler that adds one source does the same and
    then ends with [UnboundLocalError]: it closes a connection that only
    the branch of the administrator opens. *)
Theorem commands_admin_only (w : World) (valid_xml : string -> bool)
    (download : string -> string + list (option string))
    (MAX_NEWS_AGE : option Z) (old_at_select old_at_delete : Z -> datetime -> bool)
    (from_user : Z) (text : string) (store : Store) (rows : list (Z * string)) :
  from_user <> BOT_ADMIN w ->
  HandleUrlListMessage w from_user rows = [] /\
  HandleForceMessage w from_user store = returns store [] /\
  HandleOldNewsDelete w MAX_NEWS_AGE old_at_select old_at_delete from_user text store
  = returns store [] /\
  HandleAddCsvList w valid_xml from_user text store = returns store [] /\
  HandleImportOPML w valid_xml download from_user text store = returns store [] /\
  HandleAddMessage w valid_xml from_user text store
  = {| left_store := store; answers := []; run_events := [];
       raised := Some (UnboundLocalError "sqlCon") |}.
Proof.
  intros H. apply Z.eqb_neq in H.
  unfold HandleUrlListMessage, HandleForceMessage, HandleOldNewsDelete,
    HandleAddCsvList, HandleImportOPML, HandleAddMessage.
  rewrite H. repeat split.
Qed.

(** X25. For the administrator the handler that adds one source sends one
    reply and raises nothing.  The reply is the one of success exactly when
    the text is a command and one address separated by one space, the
    address holds "http", is not in the table and is valid; the address is
    then added at the end of the table.  With any other reply the store is
    unchanged. *)
Theorem add_feed_command (w : World) (valid_xml : string -> bool)
    (from_user : Z) (text : string) (store : Store) :
  from_user = BOT_ADMIN w ->
  let h := HandleAddMessage w valid_xml from_user text store in
  raised h = None /\ run_events h = [] /\
  exists reply,
    answers h = [ReplyTo reply] /\
    (reply = "Added successfully!" <->
     exists command url,
       str_split " " text = [command; url] /\ Str.contains "http" url = true /\
       (url ∉ feeds store) /\ valid_xml url = true) /\
    (forall command url,
       str_split " " text = [command; url] -> reply = "Added successfully!" ->
       left_store h = insert_feed store url) /\
    (reply <> "Added successfully!" -> left_store h = store).
Proof.
  intros Hadmin h. subst h. apply Z.eqb_eq in Hadmin.
  unfold HandleAddMessage. rewrite Hadmin.
  destruct (str_split " " text) as [|command [|url [|third pieces]]] eqn:Hsplit;
    cbn [length Nat.eqb nth].
  1, 2, 4:
    (split; [reflexivity|]; split; [reflexivity|];
     eexists; split; [reflexivity|]; split; [|split; [|reflexivity]];
     [split; [discriminate | intros (c & u & Heq & _); discriminate]
     | intros c u Heq; discriminate]).
  destruct (Str.contains "http" url) eqn:Hhttp; cbn [negb].
  - destruct (add_feed_cases valid_xml url store) as [(Hnew & Hvalid & ->)|(Hno & ->)].
    + apply feed_exists_not in Hnew.
      split; [reflexivity|]. split; [reflexivity|].
      eexists. split; [reflexivity|]. split; [|split].
      * split; [intros _; exists command, url; auto | reflexivity].
      * intros c u Heq _. injection Heq as <- <-. reflexivity.
      * congruence.
    + split; [reflexivity|]. split; [reflexivity|].
      eexists. split; [reflexivity|]. split; [|split; [|reflexivity]].
      * split; [discriminate|].
        intros (c & u & Heq & _ & Hnew & Hvalid). injection Heq as <- <-.
        apply feed_exists_not in Hnew. destruct Hno; congruence.
      * intros c u _ Heq. discriminate.
  - split; [reflexivity|]. split; [reflexivity|].
    eexists. split; [reflexivity|]. split; [|split; [|reflexivity]].
    + split; [discriminate|].
      intros (c & u & Heq & Hc & _). injection Heq as <- <-. congruence.
    + intros c u _ Heq. discriminate.
Qed.

(** X26. For the administrator and a text with a list of two pieces or more
    after the command, the handler of the list of addresses reports the
    number of sources it added and the number of pieces.  The sources added
    come after those of the store, each is a piece of the list, stripped,
    that is valid and was not in the store; the news are not touched and a
    table without duplicates stays so. *)
Theorem add_csv_command (w : World) (valid_xml : string -> bool)
    (from_user : Z) (text before csv : string) (more splitCsv : list string)
    (store : Store) :
  from_user = BOT_ADMIN w ->
  str_split "/addcsv" text = before :: csv :: more ->
  str_split "," csv = splitCsv -> (1 < length splitCsv)%nat ->
  let h := HandleAddCsvList w valid_xml from_user text store in
  exists added,
    left_store h = {| feeds := feeds store ++ added; news := news store |} /\
    answers h =
      [ReplyTo "Processing, please be patient...";
       ReplyTo ("[" +:+ str_of_int (Z.of_nat (length added)) +:+ "] out of [" +:+
                str_of_int (Z.of_nat (length splitCsv)) +:+ "] feeds were added to DB")] /\
    raised h = None /\
    Forall (fun u => (exists piece, piece ∈ splitCsv /\ u = Str.strip piece) /\
                     valid_xml u = true /\ u ∉ feeds store) added /\
    (NoDup (feeds store) -> NoDup (feeds store ++ added)).
Proof.
  intros Hadmin Htext Hlist Hlen h. subst h. apply Z.eqb_eq in Hadmin.
  unfold HandleAddCsvList. rewrite Hadmin, Htext. cbn [length Nat.leb nth].
  rewrite Hlist.
  destruct (length splitCsv <=? 1)%nat eqn:E; [apply Nat.leb_le in E; lia|].
  destruct (add_csv_loop_spec valid_xml splitCsv store 0) as (added & -> & _ & Hall & Hnd).
  exists added. simpl. repeat split; auto.
Qed.

(** X27. For the administrator and a command followed by one space and a
    number of days written in at most 4300 decimal digits, the handler of
    the removal of old news removes the rows the condition holds for with
    that number of days, and replies with the number of rows found and the
    days as they were written.  When the days pass [isdigit] with a superscript digit
    among them, [int] raises [ValueError]: nothing is removed and no reply
    is sent. *)
Theorem old_news_command (w : World) (MAX_NEWS_AGE : option Z)
    (old_at_select old_at_delete : Z -> datetime -> bool)
    (from_user : Z) (text command days : string) (store : Store) :
  from_user = BOT_ADMIN w ->
  str_split " " text = [command; days] -> isdigit days = true ->
  let h := HandleOldNewsDelete w MAX_NEWS_AGE old_at_select old_at_delete
             from_user text store in
  (Str.has (fun c => negb (Re.digit c)) days = false ->
   (String.length days <= 4300)%nat ->
   exists max_days,
     int_of days = Some max_days /\ 0 <= max_days /\
     raised h = None /\
     left_store h =
       {| feeds := feeds store;
          news := filter (fun row : news_row => old_at_delete max_days (fst row) = false)
                    (news store) |} /\
     answers h =
       [ReplyTo ("Deleting [" +:+
                 str_of_int (Z.of_nat (length
                   (filter (fun row : news_row => old_at_select max_days (fst row) = true)
                      (news store)))) +:+
                 "] news older than [" +:+ days +:+ "] days")]) /\
  (Str.has (fun c => negb (Re.digit c)) days = true ->
   raised h = Some (ValueError days) /\ left_store h = store /\ answers h = []).
Proof.
  intros Hadmin Htext Hdigit h. subst h. apply Z.eqb_eq in Hadmin.
  unfold HandleOldNewsDelete. rewrite Hadmin, Htext. cbn [length Nat.eqb negb nth].
  rewrite Hdigit. split.
  - intros Hdec _. destruct (int_from_digits days 0 (Z.le_refl 0) Hdec) as (v & Hv & Hpos).
    exists v. unfold int_of. rewrite Hv. split; [reflexivity|]. split; [exact Hpos|].
    unfold remove_old_news.
    assert ((v =? -1) = false) as -> by (apply Z.eqb_neq; lia).
    assert ((Z.of_nat (length (filter (fun row : news_row => old_at_select v (fst row) = true)
                                 (news store))) >=? 0) = true) as ->.
    { apply Z.geb_le. lia. }
    repeat split.
  - intros Hsup. unfold int_of. rewrite (int_from_other days 0 Hsup). repeat split.
Qed.

Lemma getopt_stop stop rest :
  String.prefix "-" stop = false \/ stop = "-" \/ stop = "--" ->
  getopt (stop :: rest) "fdn" ["force"; "dry"; "notr"] = Some [].
Proof.
  intros [H|[->| ->]]; [|reflexivity|reflexivity].
  cbn [getopt]. now rewrite H.
Qed.

Lemma substring_full s : String.substring 0 (String.length s) s = s.
Proof. induction s as [|c s IH]; simpl; [reflexivity | now rewrite IH]. Qed.

Lemma getopt_unknown c tail rest :
  Str.has (Re.only c) "fdn-" = false ->
  getopt (String "-" (String c tail) :: rest) "fdn" ["force"; "dry"; "notr"] = None.
Proof.
  intros H. cbn [Str.has] in H. unfold Re.only in H.
  apply orb_false_iff in H as [Hf H]. apply orb_false_iff in H as [Hd H].
  apply orb_false_iff in H as [Hn H]. apply orb_false_iff in H as [Hdash _].
  assert (Ascii.eqb c "-" = false) as Hdash' by now rewrite Ascii.eqb_sym.
  remember (String "-" (String c tail)) as arg eqn:Harg.
  assert (String.prefix "-" arg = true) as H1.
  { subst arg. rewrite prefix_cons. reflexivity. }
  assert (String.eqb arg "-" = false) as H2.
  { subst arg. apply String.eqb_neq. discriminate. }
  assert (String.eqb arg "--" = false) as H3.
  { subst arg. apply String.eqb_neq. intros Heq. injection Heq as -> _.
    discriminate Hdash'. }
  assert (String.prefix "--" arg = false) as H4.
  { subst arg. rewrite !prefix_cons, Hdash'. reflexivity. }
  assert (String.substring 1 (String.length arg - 1) arg = String c tail) as H5.
  { subst arg. cbn [String.length Nat.sub String.substring].
    rewrite ?Nat.sub_0_r. now rewrite substring_full. }
  cbn [getopt]. rewrite H1, H2, H3, H4, H5. cbn [andb negb].
  cbn [do_shorts Str.has]. unfold Re.only. now rewrite Hf, Hd, Hn.
Qed.

(** X28. When every argument is one of the six spellings of the three
    flags, [check_arguments] sets each flag exactly when one of its two
    spellings is among the arguments, whatever their order and number.
    What follows the first argument that does not start with a dash, is a
    lone dash or is a double dash is not read.  An argument made of a dash
    and a character other than f, d, n and the dash makes the result
    [None]. *)
Theorem check_arguments_flags (flags rest : list string) :
  Forall is_flag flags ->
  check_arguments flags
  = Some (opt_in flags "-d" "--dry", opt_in flags "-f" "--force",
          opt_in flags "-n" "--notr") /\
  (forall stop,
     String.prefix "-" stop = false \/ stop = "-" \/ stop = "--" ->
     check_arguments (flags ++ stop :: rest) = check_arguments flags) /\
  (forall c tail,
     Str.has (Re.only c) "fdn-" = false ->
     check_arguments (flags ++ String "-" (String c tail) :: rest) = None).
Proof.
  intros Hflags.
  assert (getopt flags "fdn" ["force"; "dry"; "notr"] = Some flags) as Hall.
  { rewrite <- (app_nil_r flags) at 1. rewrite (getopt_flags flags [] Hflags).
    simpl. now rewrite app_nil_r. }
  split; [|split].
  - unfold check_arguments. now rewrite Hall.
  - intros stop Hstop. unfold check_arguments.
    rewrite (getopt_flags flags _ Hflags), (getopt_stop stop rest Hstop), Hall.
    now rewrite app_nil_r.
  - intros c tail Hc. unfold check_arguments.
    now rewrite (getopt_flags flags _ Hflags), (getopt_unknown c tail rest Hc).
Qed.

(** ** The further properties on concrete inputs *)

Lemma remove_html_plain_witness :
  let text := "  Results of the field day  " in
  Str.has (fun c => Re.only "<" c || Re.only "&" c) text = false /\
  remove_html text = "Results of the field day".
Proof.
  intros text.
  assert (Str.has (fun c => Re.only "<" c || Re.only "&" c) text = false) as H
    by (vm_compute; reflexivity).
  assert (Str.strip text = "Results of the field day") as Hs by (vm_compute; reflexivity).
  refine (conj H _). rewrite <- Hs. exact (remove_html_plain text H).
Defined.

Lemma remove_links_plain_witness :
  let text := "Results of the field day, see the club page " in
  Str.has (Re.only ".") text = false /\
  remove_links text = "Results of the field day, see the club page".
Proof.
  intros text.
  assert (Str.has (Re.only ".") text = false) as H by (vm_compute; reflexivity).
  assert (Str.strip text = "Results of the field day, see the club page") as Hs
    by (vm_compute; reflexivity).
  refine (conj H _). rewrite <- Hs. exact (remove_links_plain text H).
Defined.

Lemma extract_domain_shape_witness :
  String.prefix "http" "ftp://example.org/feed" = false /\
  extract_domain "ftp://example.org/feed" = "anonymous".
Proof.
  assert (String.prefix "http" "ftp://example.org/feed" = false) as H
    by (vm_compute; reflexivity).
  exact (conj H (proj2 (proj2 (extract_domain_shape "ftp://example.org/feed")) H)).
Defined.

Lemma extract_domain_host_witness :
  extract_domain ("http" +:+ "s" +:+ "://" +:+ "www." +:+ "example.org" +:+ "/feed/")
  = "example.org" /\
  extract_domain ("http" +:+ EmptyString +:+ "://" +:+ EmptyString +:+ "qrper.com"
                  +:+ EmptyString)
  = "qrper.com".
Proof.
  assert ("example.org" <> EmptyString) as H1 by discriminate.
  assert (Str.has (Re.only "/") "example.org" = false) as H2 by (vm_compute; reflexivity).
  assert ("qrper.com" <> EmptyString) as H3 by discriminate.
  assert (Str.has (Re.only "/") "qrper.com" = false) as H4 by (vm_compute; reflexivity).
  assert (String.prefix "www." "qrper.com" = false) as H5 by (vm_compute; reflexivity).
  exact (conj
    (extract_domain_host "s" "www." "example.org" "/feed/"
       (or_introl eq_refl) (or_introl eq_refl) H1 H2
       (or_intror (ex_intro _ "feed/" eq_refl)))
    (extract_domain_host EmptyString EmptyString "qrper.com" EmptyString
       (or_intror eq_refl) (or_intror (conj eq_refl H5)) H3 H4 (or_introl eq_refl))).
Defined.

Lemma create_article_spec_witness :
  let w := Demo.world 1 Demo.steady Demo.no_feed Demo.accepts in
  exists a,
    create_article w Demo.entry_summary "summary" "author" "published" = Ok (Some a) /\
    title a = "Field day" /\ author a = "Ann" /\ date a = Demo.day 990.
Proof.
  intros w.
  assert (Demo.entry_summary !! "link" = Some "https://example.org/a") as Hl
    by (vm_compute; reflexivity).
  assert (Demo.entry_summary !! "title" = Some "Field day") as Ht
    by (vm_compute; reflexivity).
  assert (Demo.entry_summary !! "summary" = Some Demo.body) as Hc
    by (vm_compute; reflexivity).
  assert ((10 <? String.length (remove_links (remove_html Demo.body)))%nat = true) as Hlen
    by (vm_compute; reflexivity).
  assert (por (por (Demo.entry_summary !! "published") (Demo.entry_summary !! "published"))
            (Demo.entry_summary !! "updated") = Some Demo.sep18) as Hd
    by (vm_compute; reflexivity).
  assert (Demo.sep18 <> EmptyString) as Hne by discriminate.
  assert (dateutil_parse w Demo.sep18 = Some (Demo.day 990)) as Hp
    by (vm_compute; reflexivity).
  assert (truthy (Demo.entry_summary !! "author") = true) as Ha
    by (vm_compute; reflexivity).
  assert (Str.strip (default EmptyString (Demo.entry_summary !! "author")) = "Ann") as Hs
    by (vm_compute; reflexivity).
  eexists. split.
  - apply (proj2 (create_article_spec w Demo.entry_summary "summary" "author" "published" _)).
    exists "https://example.org/a", "Field day", Demo.body, Demo.sep18, (Demo.day 990).
    exact (conj Hl (conj Ht (conj Hc (conj (proj1 (Nat.ltb_lt _ _) Hlen)
             (conj (conj Hd Hne) (conj Hp eq_refl)))))).
  - cbn [title author date]. rewrite Ha, Hs. repeat split.
Defined.

Lemma parse_news_source_order_witness :
  let w := Demo.world 1 Demo.steady Demo.three_feeds Demo.accepts in
  let swapped := ["https://two.example/feed"; "https://one.example/feed";
                  "https://three.example/feed"] in
  Demo.three_urls ≡ₚ swapped /\
  exists l1 l2,
    parse_news w Demo.three_urls = Ok l1 /\ parse_news w swapped = Ok l2 /\ l1 ≡ₚ l2.
Proof.
  intros w swapped.
  assert (Demo.three_urls ≡ₚ swapped) as H by apply perm_swap.
  refine (conj H _).
  pose proof (parse_news_source_order w Demo.three_urls swapped H) as Hp.
  destruct (parse_news w Demo.three_urls) as [l1|e1] eqn:E1;
    [|vm_compute in E1; discriminate].
  destruct (parse_news w swapped) as [l2|e2] eqn:E2; [|contradiction].
  exists l1, l2. exact (conj eq_refl (conj eq_refl Hp)).
Defined.

Lemma parse_news_provenance_witness :
  let w := Demo.world 1 Demo.steady Demo.three_feeds Demo.accepts in
  exists l,
    parse_news w Demo.three_urls = Ok l /\
    (length l <= length (concat (fetched_feeds w Demo.three_urls)))%nat.
Proof.
  intros w.
  destruct (parse_news w Demo.three_urls) as [l|e] eqn:E;
    [|vm_compute in E; discriminate].
  exists l. exact (conj eq_refl (proj1 (parse_news_provenance w Demo.three_urls l E))).
Defined.

Lemma parse_news_skips_unavailable_witness :
  let w := Demo.world 1 Demo.steady Demo.three_feeds Demo.accepts in
  fetch_feed w "https://none.example/feed" = None /\
  parse_news w (["https://one.example/feed"] ++
                "https://none.example/feed" :: ["https://two.example/feed"])
  = parse_news w (["https://one.example/feed"] ++ ["https://two.example/feed"]).
Proof.
  intros w.
  assert (fetch_feed w "https://none.example/feed" = None) as H
    by (vm_compute; reflexivity).
  exact (conj H (parse_news_skips_unavailable w _ _ _ (or_introl H))).
Defined.

(** One run over one feed: the article delivered is in the store the run
    leaves. *)
Lemma run_store_grows_witness :
  let w := Demo.world 1 Demo.steady (Demo.feed_of [Demo.entry_summary]) Demo.accepts in
  let r := main w Demo.store_of_feed in
  exists n p,
    In (Delivered n p) (events r) /\
    news_exists (store_after Demo.store_of_feed r) (checksum n) = true.
Proof.
  intros w r.
  assert (exists n p, In (Delivered n p) (events r)) as (n & p & Hin).
  { destruct (events r) as [|[n p|n m|n p|ch t] tr] eqn:E;
      try (vm_compute in E; discriminate).
    exists n, p. now left. }
  exists n, p.
  exact (conj Hin (proj2 (proj2 (run_store_grows w Demo.store_of_feed)) n p Hin)).
Defined.

Lemma dry_run_touches_nothing_witness :
  let w := DemoStore.dry_world (Demo.feed_of [Demo.entry_summary]) in
  dryRun w = true /\
  store_after Demo.store_of_feed (main w Demo.store_of_feed) = Demo.store_of_feed /\
  bot_calls (main_loop w [Demo.a1; Demo.a2] (start Demo.empty_store)) = 0%nat.
Proof.
  intros w.
  assert (dryRun w = true) as H by reflexivity.
  destruct (dry_run_touches_nothing w Demo.store_of_feed H) as [_ Hmain].
  destruct (dry_run_touches_nothing w Demo.empty_store H) as [Hloop _].
  exact (conj H (conj Hmain (proj1 (proj2 (Hloop [Demo.a1; Demo.a2]))))).
Defined.

Lemma run_in_order_witness :
  let w := Demo.world 10 Demo.steady Demo.three_feeds Demo.accepts in
  let store := {| feeds := Demo.three_urls; news := [] |} in
  exists st,
    main w store = Returned st /\
    StronglySorted newer_or_equal (handled_articles (trace st)).
Proof.
  intros w store.
  destruct (main w store) as [st|e st] eqn:E; [|vm_compute in E; discriminate].
  exists st. destruct (run_in_order w store st (or_introl E)) as (l & _ & _ & Hs).
  exact (conj eq_refl Hs).
Defined.

(** Four articles and a bot that refuses every call, that of the alert
    too: five calls, four events and no alert. *)
Lemma run_effects_bounded_witness :
  let w := Demo.world 10 Demo.steady Demo.no_feed Demo.refuses in
  let st := main_loop w [Demo.a1; Demo.a2; Demo.a3; Demo.a4; Demo.a5]
              (start Demo.empty_store) in
  alerts (trace st) = 0 /\ (length (trace st) <= 5)%nat /\ (clock_reads st <= 10)%nat /\
  bot_calls st = 5%nat /\ length (trace st) = 4%nat /\ pending st = 1%nat /\
  (bot_calls st <= length (trace st) + pending st)%nat.
Proof.
  intros w st.
  assert (alerts (trace st) = 0) as H by (vm_compute; reflexivity).
  assert (bot_calls st = 5%nat) as Hb by (vm_compute; reflexivity).
  assert (length (trace st) = 4%nat) as Hl by (vm_compute; reflexivity).
  assert (pending st = 1%nat) as Hp by (vm_compute; reflexivity).
  destruct (run_effects_bounded w [Demo.a1; Demo.a2; Demo.a3; Demo.a4; Demo.a5]
              Demo.empty_store) as (_ & Hlen & Hclock & Hcalls & _).
  exact (conj H (conj (Hlen H) (conj Hclock (conj Hb (conj Hl (conj Hp Hcalls)))))).
Defined.

(** The run after a run that delivered the only article. *)
Lemma run_all_seen_silent_witness :
  let w := Demo.world 1 Demo.steady (Demo.feed_of [Demo.entry_summary]) Demo.accepts in
  let store := store_after Demo.store_of_feed (main w Demo.store_of_feed) in
  exists l,
    parse_news w (feeds store) = Ok l /\
    Forall (fun a => news_exists store (checksum a) = true) l /\
    main w store = Returned (start store).
Proof.
  intros w store.
  destruct (parse_news w (feeds store)) as [l|e] eqn:E;
    [|vm_compute in E; discriminate].
  assert (Forall (fun a => news_exists store (checksum a) = true) l) as Hall.
  { assert (exists a, l = [a] /\ news_exists store (checksum a) = true) as (a & -> & Ha).
    { vm_compute in E. injection E as <-. eexists. split; [reflexivity|].
      vm_compute. reflexivity. }
    constructor; [exact Ha | constructor]. }
  exists l. exact (conj eq_refl (conj Hall (run_all_seen_silent w store l E Hall))).
Defined.

Lemma add_feed_no_duplicate_witness :
  let r := add_feed_if_not_duplicate DemoStore.valid_xml "https://qrper.com/feed/"
             DemoStore.store in
  snd r = true /\
  feeds (fst r) = ["https://www.amsat.org/feed/"; "https://qrper.com/feed/"] /\
  NoDup (feeds DemoStore.store) /\ NoDup (feeds (fst r)).
Proof.
  intros r.
  assert (snd r = true) as H by (vm_compute; reflexivity).
  assert (NoDup (feeds DemoStore.store)) as Hnd by apply NoDup_singleton.
  destruct (add_feed_no_duplicate DemoStore.valid_xml "https://qrper.com/feed/"
              DemoStore.store) as (_ & Hadd & _ & _ & Hkeep).
  exact (conj H (conj (Hadd H) (conj Hnd (Hkeep Hnd)))).
Defined.

Lemma opml_import_counts_witness :
  let r := opml_import_xmlfeeds DemoStore.valid_xml DemoStore.outlines DemoStore.store in
  snd r = 1 /\ NoDup (feeds DemoStore.store) /\ NoDup (feeds (fst r)).
Proof.
  intros r.
  assert (snd r = 1) as H by (vm_compute; reflexivity).
  assert (NoDup (feeds DemoStore.store)) as Hnd by apply NoDup_singleton.
  destruct (opml_import_counts DemoStore.valid_xml DemoStore.outlines DemoStore.store)
    as (added & _ & _ & _ & _ & _ & Hkeep).
  exact (conj H (conj Hnd (Hkeep Hnd))).
Defined.

Lemma prepare_db_bootstrap_witness :
  let file := {| news_table := None; feeds_table := None |} in
  feeds_table file = None /\
  feeds (prepare_db file) = default_urls /\
  prepare_db (database_of (prepare_db file)) = prepare_db file.
Proof.
  intros file.
  destruct (prepare_db_bootstrap file) as (_ & _ & Hdefault & _ & Hagain).
  exact (conj eq_refl (conj (Hdefault (or_introl eq_refl)) Hagain)).
Defined.

(** The removal with thirty days takes the row of forty days ago and the
    row of the second before the midnight thirty days ago, and keeps the
    row of that midnight. *)
Lemma remove_old_news_prunes_witness :
  let w := Demo.world 1 Demo.steady Demo.no_feed Demo.accepts in
  let r := remove_old_news w None (old_news 1000) (old_news 1000) (-1)
             DemoStore.store_at_midnight in
  0 <= 30 /\ 1000 = 1000 /\
  snd r = 2 /\
  (Demo.day 970, make_checksum "https://example.org/2") ∈ news (fst r) /\
  snd r + Z.of_nat (length (news (fst r)))
  = Z.of_nat (length (news DemoStore.store_at_midnight)).
Proof.
  intros w r.
  assert (0 <= 30) as H by (vm_compute; discriminate).
  assert (snd r = 2) as Htwo by (vm_compute; reflexivity).
  assert ((Demo.day 970, make_checksum "https://example.org/2")
          ∈ news DemoStore.store_at_midnight) as Hin.
  { apply list_elem_of_In. right. right. left. reflexivity. }
  destruct (remove_old_news_prunes w None 1000 1000 (-1) DemoStore.store_at_midnight)
    as (_ & _ & Hkeep & _ & _ & Hcount).
  destruct (Hkeep H) as (_ & _ & Hmid).
  exact (conj H (conj eq_refl (conj Htwo (conj (Hmid _ Hin) (proj1 (Hcount eq_refl)))))).
Defined.

(** The removal with zero days takes the row of yesterday's article, and
    the next run delivers the article again. *)
Lemma pruned_article_is_new_witness :
  let w := Demo.world 1 Demo.steady Demo.no_feed Demo.accepts in
  let store' :=
    fst (remove_old_news w None DemoStore.older DemoStore.older 0 DemoStore.store) in
  news_exists DemoStore.store (checksum Demo.a1) = true /\
  In (Delivered Demo.a1 (telegram_payload w Demo.a1))
     (trace (main_loop w [Demo.a1] (start store'))).
Proof.
  intros w store'.
  assert (news_exists DemoStore.store (checksum Demo.a1) = true) as Hseen
    by (vm_compute; reflexivity).
  assert (forall d, (d, checksum Demo.a1) ∈ news DemoStore.store ->
            DemoStore.older 0 d = true) as Hgone.
  { intros d Hd. apply list_elem_of_In in Hd.
    destruct Hd as [Hd|[Hd|[]]]; apply (f_equal fst) in Hd; cbn [fst] in Hd;
      rewrite <- Hd; vm_compute; reflexivity. }
  assert (datetime_now w 0 - date Demo.a1 <= timedelta_days 30) as Ht
    by (vm_compute; discriminate).
  assert (date Demo.a1 <= datetime_now w 1) as Hf by (vm_compute; discriminate).
  assert (send_message w 0 1000 (telegram_payload w Demo.a1) = None) as Hsend
    by reflexivity.
  refine (conj Hseen _).
  exact (proj2 (pruned_article_is_new w w None DemoStore.older DemoStore.older 0
                  DemoStore.store Demo.a1 [] 1000)
           Hgone Ht Hf eq_refl eq_refl Hsend).
Defined.

Lemma url_list_messages_witness :
  let w := Demo.world 1 Demo.steady Demo.no_feed Demo.accepts in
  HandleUrlListMessage w 7 DemoStore.rows = [] /\
  exists messages,
    HandleUrlListMessage w 2000 DemoStore.rows = map (SendTo 2000) messages /\
    Forall (fun m => (0 < String.length m < 4096)%nat) messages.
Proof.
  intros w.
  assert (7 <> BOT_ADMIN w) as Hother by discriminate.
  assert (DemoStore.rows <> []) as Hne by discriminate.
  assert (Forall (fun r : Z * string =>
                    (String.length (str_of_int (fst r)) <= 7)%nat /\
                    (String.length (snd r) + 10 < 4096)%nat) DemoStore.rows) as Hall.
  { assert (forall r : Z * string,
              (String.length (str_of_int (fst r)) <=? 7)%nat = true ->
              (String.length (snd r) + 10 <? 4096)%nat = true ->
              (String.length (str_of_int (fst r)) <= 7)%nat /\
              (String.length (snd r) + 10 < 4096)%nat) as Hrow.
    { intros r H1 H2. split; [now apply Nat.leb_le | now apply Nat.ltb_lt]. }
    constructor; [apply Hrow; vm_compute; reflexivity|].
    constructor; [apply Hrow; vm_compute; reflexivity|].
    constructor. }
  refine (conj (proj1 (url_list_messages w 7 DemoStore.rows) Hother) _).
  destruct (proj2 (url_list_messages w 2000 DemoStore.rows) eq_refl Hne)
    as (messages & Hm & _ & Hbound).
  exists messages. exact (conj Hm (Hbound Hall)).
Defined.

Lemma commands_admin_only_witness :
  let w := Demo.world 1 Demo.steady Demo.no_feed Demo.accepts in
  7 <> BOT_ADMIN w /\
  HandleForceMessage w 7 DemoStore.store = returns DemoStore.store [] /\
  raised (HandleAddMessage w DemoStore.valid_xml 7 "/addfeed https://qrper.com/feed/"
            DemoStore.store)
  = Some (UnboundLocalError "sqlCon").
Proof.
  intros w.
  assert (7 <> BOT_ADMIN w) as H by discriminate.
  destruct (commands_admin_only w DemoStore.valid_xml DemoStore.download None
              DemoStore.older DemoStore.older 7 "/addfeed https://qrper.com/feed/"
              DemoStore.store DemoStore.rows H) as (_ & Hforce & _ & _ & _ & Hadd).
  refine (conj H (conj Hforce _)). rewrite Hadd. reflexivity.
Defined.

Lemma add_feed_command_witness :
  let w := Demo.world 1 Demo.steady Demo.no_feed Demo.accepts in
  let h := HandleAddMessage w DemoStore.valid_xml 2000 "/addfeed https://qrper.com/feed/"
             DemoStore.store in
  2000 = BOT_ADMIN w /\ raised h = None /\
  exists reply, answers h = [ReplyTo reply].
Proof.
  intros w h.
  assert (2000 = BOT_ADMIN w) as H by reflexivity.
  destruct (add_feed_command w DemoStore.valid_xml 2000 "/addfeed https://qrper.com/feed/"
              DemoStore.store H) as (Hraised & _ & reply & Hreply & _).
  refine (conj H (conj Hraised _)). exists reply. exact Hreply.
Defined.

Lemma add_csv_command_witness :
  let w := Demo.world 1 Demo.steady Demo.no_feed Demo.accepts in
  let text := "/addcsv https://qrper.com/feed/, https://www.amsat.org/feed/" in
  let h := HandleAddCsvList w DemoStore.valid_xml 2000 text DemoStore.store in
  str_split "/addcsv" text
  = [EmptyString; " https://qrper.com/feed/, https://www.amsat.org/feed/"] /\
  str_split "," " https://qrper.com/feed/, https://www.amsat.org/feed/"
  = [" https://qrper.com/feed/"; " https://www.amsat.org/feed/"] /\
  raised h = None /\
  exists added,
    left_store h = {| feeds := feeds DemoStore.store ++ added;
                      news := news DemoStore.store |}.
Proof.
  intros w text h.
  assert (2000 = BOT_ADMIN w) as H by reflexivity.
  assert (str_split "/addcsv" text
          = [EmptyString; " https://qrper.com/feed/, https://www.amsat.org/feed/"]) as H1
    by (vm_compute; reflexivity).
  assert (str_split "," " https://qrper.com/feed/, https://www.amsat.org/feed/"
          = [" https://qrper.com/feed/"; " https://www.amsat.org/feed/"]) as H2
    by (vm_compute; reflexivity).
  assert (1 < length [" https://qrper.com/feed/"; " https://www.amsat.org/feed/"])%nat
    as H3 by (apply Nat.ltb_lt; reflexivity).
  destruct (add_csv_command w DemoStore.valid_xml 2000 text EmptyString _ [] _
              DemoStore.store H H1 H2 H3) as (added & Hstore & _ & Hraised & _).
  refine (conj H1 (conj H2 (conj Hraised _))). exists added. exact Hstore.
Defined.

Lemma old_news_command_witness :
  let w := Demo.world 1 Demo.steady Demo.no_feed Demo.accepts in
  let superscript := String (ascii_of_N 178) EmptyString in
  let h := HandleOldNewsDelete w None DemoStore.older DemoStore.older 2000
             "/rmoldnews 30" DemoStore.store in
  let h' := HandleOldNewsDelete w None DemoStore.older DemoStore.older 2000
              ("/rmoldnews " +:+ superscript) DemoStore.store in
  str_split " " "/rmoldnews 30" = ["/rmoldnews"; "30"] /\ isdigit "30" = true /\
  (exists max_days, int_of "30" = Some max_days /\ raised h = None) /\
  isdigit superscript = true /\
  raised h' = Some (ValueError superscript) /\ left_store h' = DemoStore.store.
Proof.
  intros w superscript h h'.
  assert (2000 = BOT_ADMIN w) as H by reflexivity.
  assert (str_split " " "/rmoldnews 30" = ["/rmoldnews"; "30"]) as H1
    by (vm_compute; reflexivity).
  assert (isdigit "30" = true) as H2 by (vm_compute; reflexivity).
  assert (Str.has (fun c => negb (Re.digit c)) "30" = false) as H3
    by (vm_compute; reflexivity).
  assert (str_split " " ("/rmoldnews " +:+ superscript) = ["/rmoldnews"; superscript])
    as H4 by (vm_compute; reflexivity).
  assert (isdigit superscript = true) as H5 by (vm_compute; reflexivity).
  assert (Str.has (fun c => negb (Re.digit c)) superscript = true) as H6
    by (vm_compute; reflexivity).
  assert (String.length "30" <= 4300)%nat as Hshort
    by (apply Nat.leb_le; vm_compute; reflexivity).
  destruct (proj1 (old_news_command w None DemoStore.older DemoStore.older 2000
                     "/rmoldnews 30" "/rmoldnews" "30" DemoStore.store H H1 H2) H3 Hshort)
    as (max_days & Hint & _ & Hraised & _).
  destruct (proj2 (old_news_command w None DemoStore.older DemoStore.older 2000
                     ("/rmoldnews " +:+ superscript) "/rmoldnews" superscript
                     DemoStore.store H H4 H5) H6)
    as (Hraised' & Hstore' & _).
  refine (conj H1 (conj H2 (conj _ (conj H5 (conj Hraised' Hstore'))))).
  exists max_days. exact (conj Hint Hraised).
Defined.

Lemma check_arguments_flags_witness :
  Forall is_flag ["-d"; "--notr"] /\
  check_arguments ["-d"; "--notr"] = Some (true, false, true) /\
  check_arguments (["-d"; "--notr"] ++ "run" :: ["-f"]) = check_arguments ["-d"; "--notr"] /\
  check_arguments (["-d"; "--notr"] ++ "-x" :: []) = None.
Proof.
  assert (is_flag "-d") as Hd by (left; reflexivity).
  assert (is_flag "--notr") as Hn by (do 5 right; reflexivity).
  assert (Forall is_flag ["-d"; "--notr"]) as H.
  { constructor; [exact Hd|]. constructor; [exact Hn | constructor]. }
  assert (Str.has (Re.only "x") "fdn-" = false) as Hx by (vm_compute; reflexivity).
  destruct (check_arguments_flags ["-d"; "--notr"] ["-f"] H) as (Hflags & Hstop & _).
  destruct (check_arguments_flags ["-d"; "--notr"] [] H) as (_ & _ & Hbad).
  exact (conj H (conj Hflags (conj (Hstop "run" (or_introl eq_refl))
                                (Hbad "x"%char EmptyString Hx)))).
Defined.
